(** * InjuryShield: the streaming decision-and-dispatch core

    A shallow embedding of the per-frame pipeline of the InjuryShield PPE
    monitor: [analyze_frame_for_ppe_status] (app/routes.py and the older
    copy kept in app/detection/detector.py), the [AlertManager] of
    app/alerts/alert_logic.py, and the driver loop [generate_frames] of
    app/routes.py with its snapshot counter, periodic logging and SMS
    alerting.

    Conventions.
    - Counters are [nat]: the code only ever increments them from 0.
    - Wall-clock readings ([time.time()]) are [Z]: a reading is a number of
      clock units, and the configured intervals are given in the same unit.
      The code only subtracts and compares readings.
    - A detection's confidence is carried around and never inspected; it is
      a [Q].
    - Collaborators (clock, database, SMS gateway, image writer, detector)
      are oracles: the n-th call of each returns what the environment says. *)

From Stdlib Require Import QArith Ascii String.
From stdpp Require Import gmap strings list pretty.

Open Scope string_scope.
Open Scope list_scope.

(** ** Python string operations used by the code *)

Module Str.

(** [s.startswith(p)] *)
Definition startswith (s p : string) : bool := String.prefix p s.

(** [sub in s] *)
Fixpoint contains (s sub : string) : bool :=
  String.prefix sub s ||
  match s with
  | EmptyString => false
  | String _ s' => contains s' sub
  end.

(** The left-to-right, non-overlapping scan of [str.replace] for a
    non-empty [old]: [skip] counts the characters of a match that are
    still to be dropped. *)
Fixpoint replace_go (old new : string) (skip : nat) (s : string) : string :=
  match s with
  | EmptyString => EmptyString
  | String c s' =>
      match skip with
      | S k => replace_go old new k s'
      | O =>
          if String.prefix old s
          then new +:+ replace_go old new (String.length old - 1) s'
          else String c (replace_go old new 0 s')
      end
  end.

(** For the empty pattern Python puts [new] around every character. *)
Fixpoint interleave (new s : string) : string :=
  match s with
  | EmptyString => EmptyString
  | String c s' => String c (new +:+ interleave new s')
  end.

(** [s.replace(old, new)] *)
Definition replace (s old new : string) : string :=
  match old with
  | EmptyString => new +:+ interleave new s
  | _ => replace_go old new 0 s
  end.

(** ["\n".join(parts)] *)
Fixpoint join (sep : string) (parts : list string) : string :=
  match parts with
  | [] => EmptyString
  | [p] => p
  | p :: rest => p +:+ sep +:+ join sep rest
  end.

(** [s[-1]], used to tell the status messages apart. *)
Fixpoint last_char (s : string) : option Ascii.ascii :=
  match s with
  | EmptyString => None
  | String c EmptyString => Some c
  | String _ s' => last_char s'
  end.

End Str.

(** ** Data passed between the detector and the analysis *)

(** One entry of the list returned by [PPEDetector.detect]. *)
Record Detection := {
  box : list Z;
  confidence : Q;
  class_id : nat;
  class_name : string
}.

(** One entry of [violation_details]. *)
Record ViolationDetail := {
  violation_type : string;
  location_box : list Z;
  v_confidence : Q;
  severity : nat
}.

Definition AnalysisResult : Type :=
  nat * nat * nat * string * list ViolationDetail.

(** ** app/routes.py: frame analysis *)

Module Routes.

Definition is_worn_ppe (c : string) : bool :=
  bool_decide (c ∈ ["helmet"; "vest"; "gloves"]).

(** Step 1 of the function: persons and explicit PPE detections. *)
Fixpoint count_step1 (detections : list Detection) (person_count ppe_worn_count : nat)
  : nat * nat :=
  match detections with
  | [] => (person_count, ppe_worn_count)
  | det :: rest =>
      if bool_decide (class_name det = "person")
      then count_step1 rest (person_count + 1) ppe_worn_count
      else if is_worn_ppe (class_name det)
      then count_step1 rest person_count (ppe_worn_count + 1)
      else count_step1 rest person_count ppe_worn_count
  end.

Definition make_detail (det : Detection) : ViolationDetail :=
  {| violation_type := class_name det;
     location_box := box det;
     v_confidence := confidence det;
     severity := if Str.contains (class_name det) "helmet" then 3 else 2 |}.

(** Step 2: the explicit "no-" detections. *)
Fixpoint collect_violations (detections : list Detection)
    (violations_count : nat) (violation_details : list ViolationDetail)
  : nat * list ViolationDetail :=
  match detections with
  | [] => (violations_count, violation_details)
  | det :: rest =>
      if Str.startswith (class_name det) "no-"
      then collect_violations rest (violations_count + 1)
             (violation_details ++ [make_detail det])
      else collect_violations rest violations_count violation_details
  end.

Definition status_of (person_count violations_count : nat) : string :=
  let status_message := "Compliant" in
  if (0 <? violations_count)%nat
  then pretty violations_count +:+ " Violation(s) Detected"
  else if (0 <? person_count)%nat && (violations_count =? 0)%nat
  then "Compliant (Persons detected, no violations)"
  else if (person_count =? 0)%nat
  then "No persons detected"
  else status_message.

Definition analyze_frame_for_ppe_status (detections : list Detection)
  : AnalysisResult :=
  let '(person_count, ppe_worn_count) := count_step1 detections 0 0 in
  let '(violations_count, violation_details) :=
    collect_violations detections 0 [] in
  (person_count, ppe_worn_count, violations_count,
   status_of person_count violations_count, violation_details).

End Routes.

(** ** app/detection/detector.py: the older copy of the analysis *)

Module Detector.

Definition make_detail (det : Detection) : ViolationDetail :=
  {| violation_type := class_name det;
     location_box := box det;
     v_confidence := confidence det;
     severity := 1 |}.

(** A single pass with three independent tests per detection. *)
Fixpoint scan (detections : list Detection)
    (person_count ppe_worn_count violations_count : nat)
    (violation_details : list ViolationDetail)
  : nat * nat * nat * list ViolationDetail :=
  match detections with
  | [] => (person_count, ppe_worn_count, violations_count, violation_details)
  | det :: rest =>
      let person_count :=
        if bool_decide (class_name det = "person")
        then person_count + 1 else person_count in
      let ppe_worn_count :=
        if Routes.is_worn_ppe (class_name det)
        then ppe_worn_count + 1 else ppe_worn_count in
      if Str.startswith (class_name det) "no-"
      then scan rest person_count ppe_worn_count (violations_count + 1)
             (violation_details ++ [make_detail det])
      else scan rest person_count ppe_worn_count violations_count
             violation_details
  end.

Definition status_of (person_count violations_count : nat) : string :=
  let status_message := "Compliant" in
  if (0 <? violations_count)%nat
  then pretty violations_count +:+ " Violation(s) Detected"
  else if (0 <? person_count)%nat && (violations_count =? 0)%nat
  then "Compliant (All persons wearing detected PPE)"
  else if (person_count =? 0)%nat
  then "No persons detected"
  else status_message.

Definition analyze_frame_for_ppe_status (detections : list Detection)
  : AnalysisResult :=
  let '(person_count, ppe_worn_count, violations_count, violation_details) :=
    scan detections 0 0 0 [] in
  (person_count, ppe_worn_count, violations_count,
   status_of person_count violations_count, violation_details).

End Detector.

(** ** app/config.py: the settings the pipeline reads *)

Record Config := {
  SAVE_VIOLATION_SNAPSHOT : bool;
  SNAPSHOT_CONSECUTIVE_VIOLATIONS : nat;
  LOG_INTERVAL_SECONDS : Z;
  ALERT_COOLDOWN_SECONDS : Z
}.

Definition app_config : Config :=
  {| SAVE_VIOLATION_SNAPSHOT := true;
     SNAPSHOT_CONSECUTIVE_VIOLATIONS := 5;
     LOG_INTERVAL_SECONDS := 5;
     ALERT_COOLDOWN_SECONDS := 60 |}.

(** ** Collaborators and observable effects *)

(** What the outside world answers: the n-th clock reading, the outcome of
    the n-th SMS, of the n-th compliance-log insert and of the n-th snapshot
    write, and the rendering of a clock reading by
    [strftime('%Y-%m-%d %H:%M:%S UTC')]. [app_context] says whether an
    application context is active where the generator body runs: with one,
    [current_app.app_context()] returns; without one, [current_app] raises
    [RuntimeError]. Flask pops its contexts before a streamed response is
    iterated, so under [video_feed], which passes the generator to
    [Response] without [stream_with_context], there is none. *)
Record Env := {
  clock : nat -> Z;
  sms_outcome : nat -> bool;
  compliance_log_outcome : nat -> option Z;
  snapshot_outcome : nat -> option string;
  strftime : Z -> string;
  app_context : bool
}.

(** The effects of one loop iteration, in program order. *)
Inductive Event :=
| SnapshotSaved (result : option string)
| FlushStarted (current_time last_log_time : Z)
| ComplianceLogSaved (person_count ppe_worn_count violations_count : nat)
    (status : string) (frame_snapshot_path : option string) (result : option Z)
| ViolationEventSaved (log_id : Z) (v_type : string) (v_box : list Z)
    (v_conf : Q) (v_severity : nat)
| CooldownChecked (v_type : string) (current_time : Z) (passed : bool)
| SmsSent (message_body : string) (ok : bool)
| AlertRecorded (v_type : string) (sent_at : Z)
| FrameYielded
| Slept (time_to_wait : Z)
| ErrorLogged (message : string).

(** [AlertManager]: the cooldown and the [defaultdict(float)] of last
    alert times. *)
Record AlertManager := {
  alert_cooldown_seconds : Z;
  last_alert_time : gmap string Z
}.

Definition AlertManager_init (cooldown : Z) : AlertManager :=
  {| alert_cooldown_seconds := cooldown; last_alert_time := ∅ |}.

(** The process-wide mutable state: the module globals of routes.py and
    alert_logic.py, and how many answers each oracle has already given. *)
Record World := {
  clock_reads : nat;
  sms_calls : nat;
  log_calls : nat;
  snapshot_calls : nat;
  alert_manager : AlertManager;
  consecutive_violation_frames : nat
}.

Definition initial_world (cfg : Config) : World :=
  {| clock_reads := 0; sms_calls := 0; log_calls := 0; snapshot_calls := 0;
     alert_manager := AlertManager_init (ALERT_COOLDOWN_SECONDS cfg);
     consecutive_violation_frames := 0 |}.

(** ** A state-and-log monad for the effectful code *)

Definition M (A : Type) : Type := World -> A * World * list Event.

Definition ret {A} (a : A) : M A := fun w => (a, w, []).

Definition bind {A B} (m : M A) (f : A -> M B) : M B :=
  fun w =>
    let r := m w in
    let r' := f r.1.1 r.1.2 in
    (r'.1.1, r'.1.2, r.2 ++ r'.2).

Declare Scope pipeline_scope.
Delimit Scope pipeline_scope with pipeline.
Notation "'let*' x ':=' m 'in' k" := (bind m (fun x => k))
  (at level 10, x name, m at level 100, k at level 200) : pipeline_scope.
Open Scope pipeline_scope.

Definition emit (e : Event) : M unit := fun w => (tt, w, [e]).

(** Field updates of the world. *)
Definition with_consecutive (n : nat) (w : World) : World :=
  {| clock_reads := clock_reads w; sms_calls := sms_calls w;
     log_calls := log_calls w; snapshot_calls := snapshot_calls w;
     alert_manager := alert_manager w;
     consecutive_violation_frames := n |}.

Definition with_alert_manager (am : AlertManager) (w : World) : World :=
  {| clock_reads := clock_reads w; sms_calls := sms_calls w;
     log_calls := log_calls w; snapshot_calls := snapshot_calls w;
     alert_manager := am;
     consecutive_violation_frames := consecutive_violation_frames w |}.

Definition tick (w : World) : World :=
  {| clock_reads := S (clock_reads w); sms_calls := sms_calls w;
     log_calls := log_calls w; snapshot_calls := snapshot_calls w;
     alert_manager := alert_manager w;
     consecutive_violation_frames := consecutive_violation_frames w |}.

Definition count_sms (w : World) : World :=
  {| clock_reads := clock_reads w; sms_calls := S (sms_calls w);
     log_calls := log_calls w; snapshot_calls := snapshot_calls w;
     alert_manager := alert_manager w;
     consecutive_violation_frames := consecutive_violation_frames w |}.

Definition count_log (w : World) : World :=
  {| clock_reads := clock_reads w; sms_calls := sms_calls w;
     log_calls := S (log_calls w); snapshot_calls := snapshot_calls w;
     alert_manager := alert_manager w;
     consecutive_violation_frames := consecutive_violation_frames w |}.

Definition count_snapshot (w : World) : World :=
  {| clock_reads := clock_reads w; sms_calls := sms_calls w;
     log_calls := log_calls w; snapshot_calls := S (snapshot_calls w);
     alert_manager := alert_manager w;
     consecutive_violation_frames := consecutive_violation_frames w |}.

Definition get_consecutive : M nat :=
  fun w => (consecutive_violation_frames w, w, []).

Definition set_consecutive (n : nat) : M unit :=
  fun w => (tt, with_consecutive n w, []).

Definition set_alert_manager (am : AlertManager) : M unit :=
  fun w => (tt, with_alert_manager am w, []).

Section Collaborators.

Variable env : Env.

(** [time.time()] *)
Definition time_time : M Z :=
  fun w => (clock env (clock_reads w), tick w, []).

(** [sms_notifier.send_sms]: every failure is caught inside and turned
    into [False]. *)
Definition send_sms (message_body : string) : M bool :=
  fun w =>
    let ok := sms_outcome env (sms_calls w) in
    (ok, count_sms w, [SmsSent message_body ok]).

(** [db_manager.save_compliance_log]: the new row's id, or [None] after a
    rollback. *)
Definition save_compliance_log (person_count ppe_worn_count violations_count : nat)
    (status : string) (frame_snapshot_path : option string) : M (option Z) :=
  fun w =>
    let result := compliance_log_outcome env (log_calls w) in
    (result, count_log w,
     [ComplianceLogSaved person_count ppe_worn_count violations_count
        status frame_snapshot_path result]).

(** [db_manager.save_violation_event]: the caller drops the result. *)
Definition save_violation_event (log_id : Z) (d : ViolationDetail) : M unit :=
  emit (ViolationEventSaved log_id (violation_type d) (location_box d)
          (v_confidence d) (severity d)).

(** [save_frame_snapshot]: nothing is written when snapshots are disabled;
    otherwise the relative path of the file, or [None] when the write
    fails. *)
Definition save_frame_snapshot (cfg : Config) : M (option string) :=
  if SAVE_VIOLATION_SNAPSHOT cfg
  then
    fun w =>
      let result := snapshot_outcome env (snapshot_calls w) in
      (result, count_snapshot w, [SnapshotSaved result])
  else ret None.

End Collaborators.

(** ** app/alerts/alert_logic.py *)

Definition nl : string := String (Ascii.ascii_of_nat 10) EmptyString.

(** [violation_summary[k] += 1] on a [defaultdict(int)]: the entry keeps its
    place, a new key goes last (dictionaries iterate in insertion order). *)
Fixpoint bump (k : string) (summary : list (string * nat)) : list (string * nat) :=
  match summary with
  | [] => [(k, 1)]
  | (k', c) :: rest =>
      if bool_decide (k' = k) then (k', c + 1) :: rest
      else (k', c) :: bump k rest
  end.

Definition summarize (violation_details : list ViolationDetail)
  : list (string * nat) :=
  fold_left (fun acc detail => bump (violation_type detail) acc)
    violation_details [].

Definition bullet (entry : string * nat) : string :=
  "- " +:+ pretty entry.2 +:+ "x " +:+ Str.replace entry.1 "no-" "missing ".

(** [AlertManager.format_alert_message]; [frame_time] is the already
    rendered timestamp. *)
Definition format_alert_message (violation_details : list ViolationDetail)
    (frame_time : string) : string :=
  match violation_details with
  | [] => "No violations detected."
  | _ =>
      let message_parts := ["InjuryShield ALERT at " +:+ frame_time +:+ ":"] in
      let message_parts :=
        message_parts ++ map bullet (summarize violation_details) in
      let message_parts := message_parts ++ ["Immediate action required."] in
      Str.join nl message_parts
  end.

(** [self.last_alert_time[violation_type]]: reading a missing key of the
    [defaultdict(float)] stores and returns 0. *)
Definition last_alert_time_getitem (v_type : string) : M Z :=
  fun w =>
    let am := alert_manager w in
    match last_alert_time am !! v_type with
    | Some t => (t, w, [])
    | None =>
        (0%Z,
         with_alert_manager
           {| alert_cooldown_seconds := alert_cooldown_seconds am;
              last_alert_time := <[v_type := 0%Z]> (last_alert_time am) |} w,
         [])
    end.

Definition last_alert_time_setitem (v_type : string) (t : Z) : M unit :=
  fun w =>
    let am := alert_manager w in
    set_alert_manager
      {| alert_cooldown_seconds := alert_cooldown_seconds am;
         last_alert_time := <[v_type := t]> (last_alert_time am) |} w.

(** The local variables of one run of the generator that outlive an
    iteration. [snapshot_path] is [None] while the variable is unbound or
    holds [None]. *)
Record Locals := {
  last_frame_time : Z;
  last_log_time : Z;
  snapshot_path : option string
}.

Section Pipeline.

Variable env : Env.
Variable cfg : Config.

(** [AlertManager.should_send_alert] *)
Definition should_send_alert (v_type : string) : M bool :=
  let* current_time := time_time env in
  let* last := last_alert_time_getitem v_type in
  let time_since_last_alert := (current_time - last)%Z in
  fun w =>
    if (alert_cooldown_seconds (alert_manager w) <=? time_since_last_alert)%Z
    then (true, w, [CooldownChecked v_type current_time true])
    else (false, w, [CooldownChecked v_type current_time false]).

(** [AlertManager.record_alert_sent] *)
Definition record_alert_sent (v_type : string) : M unit :=
  let* t := time_time env in
  let* _ := last_alert_time_setitem v_type t in
  emit (AlertRecorded v_type t).

(** *** app/routes.py: the blocks of the loop body *)

(** "Snapshot Logic" *)
Definition snapshot_logic (violations_count : nat)
    (snapshot_path : option string) : M (option string) :=
  if SAVE_VIOLATION_SNAPSHOT cfg && (0 <? violations_count)%nat
  then
    let* n := get_consecutive in
    let* _ := set_consecutive (n + 1) in
    let* n := get_consecutive in
    if (SNAPSHOT_CONSECUTIVE_VIOLATIONS cfg <=? n)%nat
    then
      let* snapshot_path := save_frame_snapshot env cfg in
      let* _ := set_consecutive 0 in
      ret snapshot_path
    else ret snapshot_path
  else
    let* _ := set_consecutive 0 in
    ret snapshot_path.

(** [snapshot_path if 'snapshot_path' in locals() and snapshot_path else None] *)
Definition truthy_path (snapshot_path : option string) : option string :=
  match snapshot_path with
  | Some EmptyString => None
  | other => other
  end.

Fixpoint save_violation_events (log_id : Z)
    (violation_details : list ViolationDetail) : M unit :=
  match violation_details with
  | [] => ret tt
  | detail :: rest =>
      let* _ := save_violation_event log_id detail in
      save_violation_events log_id rest
  end.

(** "Logging": returns the new [last_log_time], or [None] when
    [current_app.app_context()] raises for want of an application
    context. *)
Definition logging (current_time last_log_time : Z)
    (person_count ppe_worn_count violations_count : nat)
    (status_message : string) (violation_details : list ViolationDetail)
    (snapshot_path : option string) : M (option Z) :=
  if (LOG_INTERVAL_SECONDS cfg <=? current_time - last_log_time)%Z
  then
    let* _ := emit (FlushStarted current_time last_log_time) in
    if app_context env
    then
      let* log_id :=
        save_compliance_log env person_count ppe_worn_count violations_count
          status_message (truthy_path snapshot_path) in
      let* _ :=
        match log_id with
        | Some id =>
            if (0 <? violations_count)%nat
            then save_violation_events id violation_details
            else ret tt
        | None =>
            emit (ErrorLogged
                    "Failed to save compliance log, skipping violation event logging for this interval.")
        end in
      ret (Some current_time)
    else ret None
  else ret (Some last_log_time).

(** The body of the alerting [for] loop. [datetime.datetime.utcnow()] is one
    more reading of the clock; its rendering heads the message. *)
Definition alert_one (detail : ViolationDetail) : M unit :=
  let v_type := violation_type detail in
  let* go := should_send_alert v_type in
  if go
  then
    let* utcnow := time_time env in
    let alert_message :=
      format_alert_message [detail] (strftime env utcnow) in
    let* _ := send_sms env alert_message in
    record_alert_sent v_type
  else ret tt.

Fixpoint alert_each (violation_details : list ViolationDetail) : M unit :=
  match violation_details with
  | [] => ret tt
  | detail :: rest =>
      let* _ := alert_one detail in
      alert_each rest
  end.

(** "SMS Alerting Logic" *)
Definition sms_alerting (violations_count : nat)
    (violation_details : list ViolationDetail) : M unit :=
  if (0 <? violations_count)%nat
  then alert_each violation_details
  else ret tt.

(** *** The driver loop *)

(** One frame as the loop sees it: what [global_detector.detect] does on
    it ([None]: it raises) and whether [cv2.imencode] succeeds. *)
Record Frame := {
  detect_outcome : option (list Detection);
  encode_ok : bool
}.

(** How an iteration ends: it goes on to the next frame, or an exception
    leaves the loop, raised by the detector or by the flush. *)
Inductive Flow :=
| Next (loc : Locals)
| Raised
| NoAppContext.

(** The body of [while True], entered with a frame in hand.
    [frame_interval] is the pacing period computed from the stream's
    frame rate. *)
Definition loop_body (frame_interval : Z) (frame : Frame) (loc : Locals)
  : M Flow :=
  match detect_outcome frame with
  | None => ret Raised
  | Some detections =>
      let '(person_count, ppe_worn_count, violations_count, status_message,
            violation_details) :=
        Routes.analyze_frame_for_ppe_status detections in
      let* snapshot_path :=
        snapshot_logic violations_count (snapshot_path loc) in
      let* current_time := time_time env in
      let* flushed :=
        logging current_time (last_log_time loc) person_count ppe_worn_count
          violations_count status_message violation_details snapshot_path in
      match flushed with
      | None => ret NoAppContext
      | Some last_log_time =>
          let* _ := sms_alerting violations_count violation_details in
          if encode_ok frame
          then
            let* _ := emit FrameYielded in
            let time_to_wait :=
              (frame_interval - (current_time - last_frame_time loc))%Z in
            let* _ :=
              if (0 <? time_to_wait)%Z then emit (Slept time_to_wait)
              else ret tt in
            let* last_frame_time := time_time env in
            ret (Next {| last_frame_time := last_frame_time;
                         last_log_time := last_log_time;
                         snapshot_path := snapshot_path |})
          else
            let* _ := emit (ErrorLogged "Failed to encode frame to JPEG.") in
            ret (Next {| last_frame_time := last_frame_time loc;
                         last_log_time := last_log_time;
                         snapshot_path := snapshot_path |})
      end
  end.

Inductive Ending :=
| EndOfStream
| DetectorError
| FlushError
| NoStream
| NoDetector.

(** The outcome of a run: the effects of each iteration that was entered,
    in order, the state left behind, and why the generator stopped. No
    exception leaves the generator: the handler around the loop logs it. *)
Record Run := {
  logs : list (list Event);
  final : World;
  ending : Ending
}.

(** [while True] over the frames the stream still holds; [read_frame]
    returns [None] after the last one. *)
Fixpoint frame_loop (frame_interval : Z) (frames : list Frame)
    (loc : Locals) (w : World) : Run :=
  match frames with
  | [] => {| logs := []; final := w; ending := EndOfStream |}
  | frame :: rest =>
      let r := loop_body frame_interval frame loc w in
      match r.1.1 with
      | Next loc' =>
          let run := frame_loop frame_interval rest loc' r.1.2 in
          {| logs := r.2 :: logs run; final := final run;
             ending := ending run |}
      | Raised =>
          {| logs := [r.2 ++ [ErrorLogged "Error during frame generation"]];
             final := r.1.2; ending := DetectorError |}
      | NoAppContext =>
          {| logs := [r.2 ++ [ErrorLogged "Error during frame generation"]];
             final := r.1.2; ending := FlushError |}
      end
  end.

(** [generate_frames]: [stream] is what [get_video_stream] returned
    ([None]: the source could not be opened), with its pacing period. *)
Definition generate_frames (stream : option (Z * list Frame))
    (global_detector_present : bool) (w : World) : Run :=
  match stream with
  | None =>
      {| logs := [[ErrorLogged "Cannot get video stream"; FrameYielded]];
         final := w; ending := NoStream |}
  | Some (frame_interval, frames) =>
      if global_detector_present
      then
        let r1 := time_time env w in
        let r2 := time_time env r1.1.2 in
        frame_loop frame_interval frames
          {| last_frame_time := r1.1.1; last_log_time := r2.1.1;
             snapshot_path := None |}
          r2.1.2
      else
        {| logs := [[ErrorLogged "PPE Detector not initialized"]];
           final := w; ending := NoDetector |}
  end.

End Pipeline.

(** ** app/alerts/sms_notifier.py *)

Module Notifier.

(** The four settings as [os.getenv] returns them: [None] or a string. *)
Record TwilioSettings := {
  TWILIO_ACCOUNT_SID : option string;
  TWILIO_AUTH_TOKEN : option string;
  TWILIO_PHONE_NUMBER : option string;
  ALERT_RECIPIENT_PHONE_NUMBER : option string
}.

(** Python truth of [None] or a string. *)
Definition truthy (o : option string) : bool :=
  match o with
  | Some (String _ _) => true
  | _ => false
  end.

(** The Twilio client, known by the credentials it was built with. *)
Record Client := {
  client_sid : option string;
  client_token : option string
}.

Record SMSNotifier := {
  account_sid : option string;
  auth_token : option string;
  twilio_phone_number : option string;
  recipient_phone_number : option string;
  client : option Client
}.

(** [SMSNotifier.__init__]; [client_constructs] says whether [Client(...)]
    returns rather than raises. *)
Definition init (settings : TwilioSettings) (client_constructs : bool)
  : SMSNotifier :=
  let sid := TWILIO_ACCOUNT_SID settings in
  let token := TWILIO_AUTH_TOKEN settings in
  let number := TWILIO_PHONE_NUMBER settings in
  let recipient := ALERT_RECIPIENT_PHONE_NUMBER settings in
  {| account_sid := sid; auth_token := token;
     twilio_phone_number := number; recipient_phone_number := recipient;
     client :=
       if negb (forallb truthy [sid; token; number; recipient])
       then None
       else if client_constructs
            then Some {| client_sid := sid; client_token := token |}
            else None |}.

(** One call of [client.messages.create]. *)
Record ApiCall := {
  to : option string;
  from_ : option string;
  body : string
}.

Inductive CreateOutcome :=
| Created (sid : string)
| TwilioRestException (msg : string)
| OtherException.

(** [SMSNotifier.send_sms]: the answer and the calls made to the API. *)
Definition send_sms (self : SMSNotifier) (message_body : string)
    (create : ApiCall -> CreateOutcome) : bool * list ApiCall :=
  match client self with
  | None => (false, [])
  | Some _ =>
      if negb (truthy (recipient_phone_number self)) then (false, [])
      else if negb (truthy (twilio_phone_number self)) then (false, [])
      else
        let call := {| to := recipient_phone_number self;
                       from_ := twilio_phone_number self;
                       body := message_body |} in
        match create call with
        | Created _ => (true, [call])
        | TwilioRestException _ => (false, [call])
        | OtherException => (false, [call])
        end
  end.

End Notifier.

(** ** app/routes.py: the cached video stream *)

Module StreamCache.

(** A video source: a path or URL, or a camera index. *)
Inductive Source :=
| Path (p : string)
| Camera (index : Z).

#[export] Instance source_eq_dec : EqDecision Source.
Proof. solve_decision. Defined.

(** The module globals [_current_video_stream] and [_stream_source]; a
    [VideoStream] object is known by the source it was built for. *)
Record Globals := {
  current_video_stream : option Source;
  stream_source : option Source
}.

Inductive StreamEvent :=
| Released (s : Source)
| Opened (s : Source) (ok : bool).

(** [get_video_stream(source)]; [opens] is what [VideoStream.open] answers
    if it gets called. *)
Definition get_video_stream (source : Source) (opens : bool) (g : Globals)
  : option Source * Globals * list StreamEvent :=
  if bool_decide (current_video_stream g = None)
     || bool_decide (stream_source g <> Some source)
  then
    let released :=
      match current_video_stream g with
      | Some old => [Released old]
      | None => []
      end in
    if opens
    then (Some source,
          {| current_video_stream := Some source;
             stream_source := Some source |},
          released ++ [Opened source true])
    else (None,
          {| current_video_stream := None; stream_source := None |},
          released ++ [Opened source false])
  else (current_video_stream g, g, []).

(** A series of requests, each with the answer [open] would give. *)
Fixpoint requests (reqs : list (Source * bool)) (g : Globals)
  : Globals * list StreamEvent :=
  match reqs with
  | [] => (g, [])
  | (source, opens) :: rest =>
      let r := get_video_stream source opens g in
      let r' := requests rest r.1.2 in
      (r'.1, r.2 ++ r'.2)
  end.

Definition no_stream : Globals :=
  {| current_video_stream := None; stream_source := None |}.

(** Streams opened with success and not yet released. *)
Fixpoint open_handles (evs : list StreamEvent) : Z :=
  match evs with
  | [] => 0
  | Opened _ true :: rest => (1 + open_handles rest)%Z
  | Released _ :: rest => (open_handles rest - 1)%Z
  | Opened _ false :: rest => open_handles rest
  end.

End StreamCache.

(** ** app/detection/detector.py: the detector *)

Module PPEDetector.

(** One row of the model's output: [boxes.xyxy], [boxes.conf],
    [boxes.cls]. *)
Record RawBox := {
  xyxy : list Z;
  conf : Q;
  cls : nat
}.

(** [conf < self.confidence_threshold] *)
Definition below (threshold : Q) (b : RawBox) : bool :=
  negb (Qle_bool threshold (conf b)).

(** The loop of [PPEDetector.detect]; [None] is the [IndexError] of
    [self.class_names[int(cls)]]. *)
Fixpoint detect_loop (class_names : list string) (confidence_threshold : Q)
    (results : list RawBox) (detections : list Detection)
  : option (list Detection) :=
  match results with
  | [] => Some detections
  | b :: rest =>
      if below confidence_threshold b
      then detect_loop class_names confidence_threshold rest detections
      else
        match class_names !! cls b with
        | None => None
        | Some name =>
            detect_loop class_names confidence_threshold rest
              (detections
               ++ [{| box := xyxy b; confidence := conf b;
                      class_id := cls b; class_name := name |}])
        end
  end.

Definition detect (class_names : list string) (confidence_threshold : Q)
    (results : list RawBox) : option (list Detection) :=
  detect_loop class_names confidence_threshold results [].

End PPEDetector.

(** ** Running the model on small inputs *)

Definition det (name : string) : Detection :=
  {| box := [10; 20; 30; 40]%Z; confidence := 9 # 10; class_id := 0;
     class_name := name |}.

Definition frame_of (names : list string) : Frame :=
  {| detect_outcome := Some (map det names); encode_ok := true |}.

Definition raising_frame : Frame :=
  {| detect_outcome := None; encode_ok := true |}.

(** A clock that advances two units per reading from 1000, a store and a
    gateway that always succeed, and an application context in place. *)
Definition steady_env : Env :=
  {| clock := fun n => (1000 + 2 * Z.of_nat n)%Z;
     sms_outcome := fun _ => true;
     compliance_log_outcome := fun n => Some (Z.of_nat n + 1)%Z;
     snapshot_outcome := fun _ => Some "snapshots/violation_snapshot.jpg";
     strftime := fun t => pretty t;
     app_context := true |}.

(** The same clock, store and gateway as the repository's own route runs
    the generator: without an application context. *)
Definition route_env : Env :=
  {| clock := clock steady_env;
     sms_outcome := sms_outcome steady_env;
     compliance_log_outcome := compliance_log_outcome steady_env;
     snapshot_outcome := snapshot_outcome steady_env;
     strftime := strftime steady_env;
     app_context := false |}.

(** ** Vocabulary of the statements *)

Definition is_violation (d : Detection) : bool :=
  Str.startswith (class_name d) "no-".

Definition res_persons (r : AnalysisResult) : nat := r.1.1.1.1.
Definition res_ppe_worn (r : AnalysisResult) : nat := r.1.1.1.2.
Definition res_violations (r : AnalysisResult) : nat := r.1.1.2.
Definition res_status (r : AnalysisResult) : string := r.1.2.
Definition res_details (r : AnalysisResult) : list ViolationDetail := r.2.

(** Which collaborator an effect goes to. *)
Inductive Channel := Snapshot | Store | Alert | Stream.

Definition channel (e : Event) : Channel :=
  match e with
  | SnapshotSaved _ => Snapshot
  | FlushStarted _ _ | ComplianceLogSaved _ _ _ _ _ _
  | ViolationEventSaved _ _ _ _ _ => Store
  | CooldownChecked _ _ _ | SmsSent _ _ | AlertRecorded _ _ => Alert
  | FrameYielded | Slept _ | ErrorLogged _ => Stream
  end.

Definition on_channel (c : Channel) (e : Event) : bool :=
  match c, channel e with
  | Snapshot, Snapshot | Store, Store | Alert, Alert | Stream, Stream => true
  | _, _ => false
  end.

(** The effects of an iteration that go to one collaborator. *)
Definition on (c : Channel) (evs : list Event) : list Event :=
  List.filter (on_channel c) evs.

(** The snapshot decision as a transition of the counter: the new count
    and whether a capture is requested. *)
Definition snapshot_step (cfg : Config) (violations_count counter : nat)
  : nat * bool :=
  if SAVE_VIOLATION_SNAPSHOT cfg && (0 <? violations_count)%nat
  then
    if (SNAPSHOT_CONSECUTIVE_VIOLATIONS cfg <=? counter + 1)%nat
    then (0, true)
    else (counter + 1, false)
  else (0, false).

(** Whether an iteration asked for a snapshot. *)
Definition capture_requested (evs : list Event) : bool :=
  match on Snapshot evs with
  | [] => false
  | _ :: _ => true
  end.

(** A frame on which the detector returns and the analysis counts at least
    one violation. *)
Definition violating (f : Frame) : Prop :=
  exists dets, detect_outcome f = Some dets
    /\ 0 < res_violations (Routes.analyze_frame_for_ppe_status dets).

(** Whether the flush of an iteration entered with [loc] in [w] is due and
    finds no application context. *)
Definition flush_blocked (env : Env) (cfg : Config) (loc : Locals)
    (w : World) : bool :=
  negb (app_context env)
  && (LOG_INTERVAL_SECONDS cfg
      <=? clock env (clock_reads w) - last_log_time loc)%Z.

(** The writes of one flush. *)
Definition violation_writes (log_id : Z) (details : list ViolationDetail)
  : list Event :=
  map (fun d => ViolationEventSaved log_id (violation_type d) (location_box d)
                  (v_confidence d) (severity d)) details.

Definition flush_events (current_time last_log_time : Z)
    (r : AnalysisResult) (path : option string) (result : option Z)
  : list Event :=
  FlushStarted current_time last_log_time
  :: ComplianceLogSaved (res_persons r) (res_ppe_worn r) (res_violations r)
       (res_status r) path result
  :: match result with
     | Some id =>
         if (0 <? res_violations r)%nat
         then violation_writes id (res_details r) else []
     | None =>
         [ErrorLogged
            "Failed to save compliance log, skipping violation event logging for this interval."]
     end.

Definition is_compliance_log (e : Event) : bool :=
  match e with
  | ComplianceLogSaved _ _ _ _ _ _ => true
  | _ => false
  end.

Definition is_violation_write (e : Event) : bool :=
  match e with
  | ViolationEventSaved _ _ _ _ _ => true
  | _ => false
  end.

(** The compliance-log inserts among the effects of an iteration. *)
Definition compliance_logs (evs : list Event) : list Event :=
  List.filter is_compliance_log evs.

(** The store side of a flush that wrote [details] under the id the
    compliance-log insert returned. *)
Definition flush_shape (current_time last_log_time : Z) (r : AnalysisResult)
    (path : option string) (result : option Z) : list Event :=
  FlushStarted current_time last_log_time
  :: ComplianceLogSaved (res_persons r) (res_ppe_worn r) (res_violations r)
       (res_status r) path result
  :: match result with
     | Some id => violation_writes id (res_details r)
     | None => []
     end.




(** The texts handed to the SMS gateway. *)
Definition sms_bodies (evs : list Event) : list string :=
  flat_map
    (fun e => match e with SmsSent body _ => [body] | _ => [] end) evs.

(** The last alert time of a type as the cooldown test reads it. *)
Definition last_of (w : World) (v_type : string) : Z :=
  default 0%Z (last_alert_time (alert_manager w) !! v_type).

Definition cooldown_of (w : World) : Z :=
  alert_cooldown_seconds (alert_manager w).

(** What reading a key of the [defaultdict] leaves behind. *)
Definition touch (v_type : string) (w : World) : World :=
  match last_alert_time (alert_manager w) !! v_type with
  | Some _ => w
  | None =>
      with_alert_manager
        {| alert_cooldown_seconds := cooldown_of w;
           last_alert_time := <[v_type := 0%Z]> (last_alert_time (alert_manager w)) |}
        w
  end.

Definition with_last (v_type : string) (t : Z) (w : World) : World :=
  with_alert_manager
    {| alert_cooldown_seconds := cooldown_of w;
       last_alert_time := <[v_type := t]> (last_alert_time (alert_manager w)) |}
    w.


(** One frame with two bare heads and a missing vest. *)
Definition crowded_frame : Frame := frame_of ["no-helmet"; "no-helmet"; "no-vest"].

(** A two-frame stream: a bare-headed worker, then an empty scene. With
    the steady clock the log interval elapses on the second frame. *)
Definition two_frames : list Frame := [frame_of ["no-helmet"]; frame_of []].

Definition two_frame_run : Run :=
  generate_frames steady_env app_config (Some (0%Z, two_frames)) true
    (initial_world app_config).

(** An empty scene, then a bare-headed worker on the frame where the
    interval elapses. *)
Definition late_violation : list Frame := [frame_of []; frame_of ["no-helmet"]].

(** The steady environment with a store that rejects every insert. *)
Definition failing_store_env : Env :=
  {| clock := clock steady_env;
     sms_outcome := sms_outcome steady_env;
     compliance_log_outcome := fun _ => None;
     snapshot_outcome := snapshot_outcome steady_env;
     strftime := strftime steady_env;
     app_context := true |}.

Definition run_of (env : Env) (frames : list Frame) : Run :=
  generate_frames env app_config (Some (0%Z, frames)) true
    (initial_world app_config).

(** The detections of a frame whose class passes a test, counted. *)
Definition count_class (test : string -> bool) (detections : list Detection)
  : nat :=
  length (List.filter (fun d => test (class_name d)) detections).

Definition is_person (c : string) : bool := bool_decide (c = "person").

(** What a violation detail says apart from its severity. *)
Definition detail_core (d : ViolationDetail) : string * list Z * Q :=
  (violation_type d, location_box d, v_confidence d).

(** How often a type occurs among violation details. *)
Definition occurrences (t : string) (details : list ViolationDetail) : nat :=
  length (List.filter (fun d => bool_decide (violation_type d = t)) details).

(** The frames handed to the caller among the effects of an iteration. *)
Definition yields (evs : list Event) : nat :=
  length
    (List.filter (fun e => match e with FrameYielded => true | _ => false end)
       evs).

(** The keys of the table of last alert times. *)
Definition alerted_types (w : World) : gset string :=
  dom (last_alert_time (alert_manager w)).

(** The k-th iteration of a run went through to its end: another
    iteration follows it, or the run ended at the end of the stream. *)
Definition completed (run : Run) (k : nat) : Prop :=
  S k < length (logs run)
  \/ (k < length (logs run) /\ ending run = EndOfStream).

(** The count a summary holds for a type; 0 when the type is absent. *)
Fixpoint held (t : string) (summary : list (string * nat)) : nat :=
  match summary with
  | [] => 0
  | (k, c) :: rest => if bool_decide (k = t) then c else held t rest
  end.

(** The snapshot path held after some effects, given the one held before:
    the answer to the latest capture among them, if any. *)
Fixpoint held_after (path : option string) (evs : list Event)
  : option string :=
  match evs with
  | [] => path
  | SnapshotSaved result :: rest => held_after result rest
  | _ :: rest => held_after path rest
  end.

(** The repository's settings with snapshot saving switched off. *)
Definition snapshots_off : Config :=
  {| SAVE_VIOLATION_SNAPSHOT := false;
     SNAPSHOT_CONSECUTIVE_VIOLATIONS := SNAPSHOT_CONSECUTIVE_VIOLATIONS app_config;
     LOG_INTERVAL_SECONDS := LOG_INTERVAL_SECONDS app_config;
     ALERT_COOLDOWN_SECONDS := ALERT_COOLDOWN_SECONDS app_config |}.

(** A row the detector keeps although its class id has no name. *)
Definition unnamed_class (class_names : list string) (threshold : Q)
    (b : PPEDetector.RawBox) : Prop :=
  PPEDetector.below threshold b = false
  /\ length class_names <= PPEDetector.cls b.

(** A frame as the detector turns the model's output into detections. *)
Definition frame_from (class_names : list string) (threshold : Q)
    (results : list PPEDetector.RawBox) : Frame :=
  {| detect_outcome := PPEDetector.detect class_names threshold results;
     encode_ok := true |}.

(** The two globals of the stream cache agree. *)
Definition cache_consistent (g : StreamCache.Globals) : Prop :=
  StreamCache.stream_source g = StreamCache.current_video_stream g.

(** Streams the cache holds open: one if a stream is cached. *)
Definition held_handles (g : StreamCache.Globals) : Z :=
  match StreamCache.current_video_stream g with
  | Some _ => 1%Z
  | None => 0%Z
  end.

(** The rows of the model's output at or above the threshold. *)
Definition kept (threshold : Q) (results : list PPEDetector.RawBox)
  : list PPEDetector.RawBox :=
  List.filter (fun b => negb (PPEDetector.below threshold b)) results.

Example analyze_smoke :
  Routes.analyze_frame_for_ppe_status
    [det "person"; det "no-helmet"; det "vest"; det "no-gloves"]
  = (1, 1, 2, "2 Violation(s) Detected",
     [Routes.make_detail (det "no-helmet"); Routes.make_detail (det "no-gloves")]).
Proof. vm_compute. reflexivity. Qed.

Example replace_smoke :
  Str.replace "no-techno-vest" "no-" "missing " = "missing techmissing vest".
Proof. reflexivity. Qed.


(** ** Facts about the string operations *)

Lemma append_cons (x : Ascii.ascii) (a b : string) :
  String x a +:+ b = String x (a +:+ b).
Proof. reflexivity. Qed.

Lemma append_nil (b : string) : EmptyString +:+ b = b.
Proof. reflexivity. Qed.

Lemma length_append (a b : string) :
  String.length (a +:+ b) = String.length a + String.length b.
Proof.
  induction a as [|x a IH]; [reflexivity|].
  rewrite append_cons. simpl. now rewrite IH.
Qed.

Lemma append_assoc (a b c : string) : (a +:+ b) +:+ c = a +:+ (b +:+ c).
Proof.
  induction a as [|x a IH]; [reflexivity|].
  rewrite !append_cons. now rewrite IH.
Qed.

Lemma last_char_append (a : string) (c : Ascii.ascii) (b : string) :
  Str.last_char (a +:+ String c b) = Str.last_char (String c b).
Proof.
  induction a as [|x a IH]; [reflexivity|].
  rewrite append_cons.
  destruct a as [|y a]; [exact IH|].
  rewrite append_cons in *. exact IH.
Qed.

Lemma prefix_append (p s : string) : String.prefix p (p +:+ s) = true.
Proof.
  induction p as [|c p IH]; [now destruct s|].
  rewrite append_cons. simpl.
  destruct (Ascii.ascii_dec c c); [exact IH | congruence].
Qed.

Lemma contains_here (s sub : string) :
  String.prefix sub s = true -> Str.contains s sub = true.
Proof. intros H. destruct s; cbn [Str.contains]; rewrite H; reflexivity. Qed.

Lemma contains_append (a sub b : string) :
  Str.contains (a +:+ sub +:+ b) sub = true.
Proof.
  induction a as [|c a IH].
  - rewrite append_nil. apply contains_here, prefix_append.
  - rewrite append_cons. cbn [Str.contains]. rewrite IH. apply orb_true_r.
Qed.

(** A violation status never reads like one of the two fixed messages. *)
Lemma violation_status_not_no_persons (n : nat) :
  pretty n +:+ " Violation(s) Detected" ≠ "No persons detected".
Proof.
  intros H. apply (f_equal String.length) in H.
  rewrite length_append in H. simpl in H. lia.
Qed.

Lemma violation_status_not_closed_by_paren (n : nat) (s : string) :
  Str.last_char s = Some ")"%char ->
  pretty n +:+ " Violation(s) Detected" ≠ s.
Proof.
  intros Hs H. rewrite <- H in Hs.
  change " Violation(s) Detected"
    with (" Violation(s) Detecte" +:+ String "d"%char EmptyString) in Hs.
  rewrite <- append_assoc, last_char_append in Hs. discriminate.
Qed.

(** ** The frame analysis *)

Lemma collect_violations_spec (detections : list Detection) (n : nat)
    (acc : list ViolationDetail) :
  Routes.collect_violations detections n acc
  = (n + length (List.filter is_violation detections),
     acc ++ map Routes.make_detail (List.filter is_violation detections)).
Proof.
  revert n acc. induction detections as [|d rest IH]; intros n acc.
  - simpl. now rewrite Nat.add_0_r, app_nil_r.
  - cbn [Routes.collect_violations List.filter].
    change (Str.startswith (class_name d) "no-") with (is_violation d).
    destruct (is_violation d).
    + rewrite IH. cbn [length map]. rewrite <- app_assoc. f_equal. lia.
    + apply IH.
Qed.

Lemma analyze_violations (detections : list Detection) :
  let r := Routes.analyze_frame_for_ppe_status detections in
  r.1.1.2 = length (List.filter is_violation detections) /\
  r.2 = map Routes.make_detail (List.filter is_violation detections).
Proof.
  unfold Routes.analyze_frame_for_ppe_status.
  destruct (Routes.count_step1 detections 0 0) as [p a].
  rewrite collect_violations_spec. simpl. auto.
Qed.

Lemma analyze_count_matches_details (detections : list Detection) :
  let r := Routes.analyze_frame_for_ppe_status detections in
  r.1.1.2 = length r.2.
Proof.
  destruct (analyze_violations detections) as [Hn Hd]. cbv zeta.
  rewrite Hn, Hd. now rewrite length_map.
Qed.

Lemma count_step1_spec (detections : list Detection) (p a : nat) :
  Routes.count_step1 detections p a
  = (p + count_class is_person detections,
     a + count_class Routes.is_worn_ppe detections).
Proof.
  revert p a. induction detections as [|d rest IH]; intros p a.
  - cbn. now rewrite !Nat.add_0_r.
  - cbn [Routes.count_step1]. unfold count_class in *.
    cbn [List.filter]. unfold is_person at 1.
    destruct (bool_decide (class_name d = "person")) eqn:Hp.
    + apply bool_decide_eq_true_1 in Hp. rewrite IH, Hp.
      cbn [length]. f_equal; lia.
    + destruct (Routes.is_worn_ppe (class_name d)); rewrite IH;
        cbn [length]; f_equal; lia.
Qed.

Lemma detector_scan_spec (detections : list Detection) (p a v : nat)
    (acc : list ViolationDetail) :
  Detector.scan detections p a v acc
  = (p + count_class is_person detections,
     a + count_class Routes.is_worn_ppe detections,
     v + length (List.filter is_violation detections),
     acc ++ map Detector.make_detail (List.filter is_violation detections)).
Proof.
  revert p a v acc. induction detections as [|d rest IH]; intros p a v acc.
  - cbn. now rewrite !Nat.add_0_r, app_nil_r.
  - cbn [Detector.scan]. cbv zeta. unfold count_class in *.
    cbn [List.filter].
    change (Str.startswith (class_name d) "no-") with (is_violation d).
    change (bool_decide (class_name d = "person"))
      with (is_person (class_name d)).
    destruct (is_person (class_name d)), (Routes.is_worn_ppe (class_name d)),
      (is_violation d); rewrite IH; cbn [length map];
      rewrite <- ?app_assoc;
      repeat (apply (f_equal2 pair)); try reflexivity; lia.
Qed.

Lemma status_of_cases (person_count violations_count : nat) :
  let s := Routes.status_of person_count violations_count in
  ((exists n : nat, s = pretty n +:+ " Violation(s) Detected") <-> 0 < violations_count) /\
  (s = "No persons detected" <-> violations_count = 0 /\ person_count = 0) /\
  (s = "Compliant (Persons detected, no violations)"
   <-> violations_count = 0 /\ 0 < person_count).
Proof.
  unfold Routes.status_of.
  destruct violations_count as [|v]; [destruct person_count as [|p]|]; cbn.
  - split; [split|split; split]; try (intros; lia); try discriminate;
      try (intros [? ?]; lia); auto.
    intros [n Hn]. symmetry in Hn.
    now apply violation_status_not_no_persons in Hn.
  - split; [split|split; split]; try (intros; lia); try discriminate;
      try (intros [? ?]; lia); auto with lia.
    intros [n Hn]. symmetry in Hn.
    now apply violation_status_not_closed_by_paren in Hn.
  - split; [split|split; split]; try (intros; lia); try (intros [? ?]; lia).
    + eauto.
    + intros Hs. now apply violation_status_not_no_persons in Hs.
    + intros Hs. now apply violation_status_not_closed_by_paren in Hs.
Qed.

Lemma detector_status_of_cases (person_count violations_count : nat) :
  let s := Detector.status_of person_count violations_count in
  ((exists n : nat, s = pretty n +:+ " Violation(s) Detected") <-> 0 < violations_count) /\
  (s = "No persons detected" <-> violations_count = 0 /\ person_count = 0) /\
  (s = "Compliant (All persons wearing detected PPE)"
   <-> violations_count = 0 /\ 0 < person_count).
Proof.
  unfold Detector.status_of.
  destruct violations_count as [|v]; [destruct person_count as [|p]|]; cbn.
  - split; [split|split; split]; try (intros; lia); try discriminate;
      try (intros [? ?]; lia); auto.
    intros [n Hn]. symmetry in Hn.
    now apply violation_status_not_no_persons in Hn.
  - split; [split|split; split]; try (intros; lia); try discriminate;
      try (intros [? ?]; lia); auto with lia.
    intros [n Hn]. symmetry in Hn.
    now apply violation_status_not_closed_by_paren in Hn.
  - split; [split|split; split]; try (intros; lia); try (intros [? ?]; lia).
    + eauto.
    + intros Hs. now apply violation_status_not_no_persons in Hs.
    + intros Hs. now apply violation_status_not_closed_by_paren in Hs.
Qed.

Lemma analyze_status (detections : list Detection) :
  let r := Routes.analyze_frame_for_ppe_status detections in
  res_status r = Routes.status_of (res_persons r) (res_violations r).
Proof.
  unfold Routes.analyze_frame_for_ppe_status.
  destruct (Routes.count_step1 detections 0 0) as [p a].
  destruct (Routes.collect_violations detections 0 []) as [v ds].
  reflexivity.
Qed.

Lemma detector_analyze_status (detections : list Detection) :
  let r := Detector.analyze_frame_for_ppe_status detections in
  res_status r = Detector.status_of (res_persons r) (res_violations r).
Proof.
  unfold Detector.analyze_frame_for_ppe_status.
  destruct (Detector.scan detections 0 0 0 []) as [[[p a] v] ds].
  reflexivity.
Qed.

(** C8. For every detection list the analysis returns, as violation
    count, the number of detections whose name starts with "no-" and, as
    person count, the number named "person"; its status is the violation
    message, carrying that count, exactly when some detection is a
    violation, the no-persons message exactly when none is a violation and
    none a person, and the compliant message exactly when none is a
    violation and at least one is a person. The function is total, and on
    the empty detection list it returns zero counts, no violation details
    and the no-persons status. The older copy in detector.py behaves the
    same with its own compliant message. *)
Theorem C8_status_trichotomy (detections : list Detection) :
  let r := Routes.analyze_frame_for_ppe_status detections in
  let r' := Detector.analyze_frame_for_ppe_status detections in
  let v := count_class (fun c => Str.startswith c "no-") detections in
  let p := count_class is_person detections in
  (res_violations r = v /\ res_persons r = p
   /\ res_status r
      = (if (0 <? v)%nat then pretty v +:+ " Violation(s) Detected"
         else if (p =? 0)%nat then "No persons detected"
         else "Compliant (Persons detected, no violations)")) /\
  (((exists n : nat, res_status r = pretty n +:+ " Violation(s) Detected")
    <-> 0 < v) /\
   (res_status r = "No persons detected" <-> v = 0 /\ p = 0) /\
   (res_status r = "Compliant (Persons detected, no violations)"
    <-> v = 0 /\ 0 < p)) /\
  (res_violations r' = v /\ res_persons r' = p
   /\ res_status r'
      = (if (0 <? v)%nat then pretty v +:+ " Violation(s) Detected"
         else if (p =? 0)%nat then "No persons detected"
         else "Compliant (All persons wearing detected PPE)")) /\
  (((exists n : nat, res_status r' = pretty n +:+ " Violation(s) Detected")
    <-> 0 < v) /\
   (res_status r' = "No persons detected" <-> v = 0 /\ p = 0) /\
   (res_status r' = "Compliant (All persons wearing detected PPE)"
    <-> v = 0 /\ 0 < p)) /\
  Routes.analyze_frame_for_ppe_status [] = (0, 0, 0, "No persons detected", []) /\
  Detector.analyze_frame_for_ppe_status [] = (0, 0, 0, "No persons detected", []).
Proof.
  cbv zeta.
  assert (Hr : res_violations (Routes.analyze_frame_for_ppe_status detections)
               = count_class (fun c => Str.startswith c "no-") detections
               /\ res_persons (Routes.analyze_frame_for_ppe_status detections)
                  = count_class is_person detections).
  { unfold Routes.analyze_frame_for_ppe_status.
    rewrite count_step1_spec, collect_violations_spec. split; reflexivity. }
  assert (Hr' : res_violations (Detector.analyze_frame_for_ppe_status detections)
                = count_class (fun c => Str.startswith c "no-") detections
                /\ res_persons (Detector.analyze_frame_for_ppe_status detections)
                   = count_class is_person detections).
  { unfold Detector.analyze_frame_for_ppe_status.
    rewrite detector_scan_spec. split; reflexivity. }
  destruct Hr as [Hv Hp]. destruct Hr' as [Hv' Hp'].
  pose proof (analyze_status detections) as Hs.
  pose proof (detector_analyze_status detections) as Hs'.
  pose proof (status_of_cases
                (count_class is_person detections)
                (count_class (fun c => Str.startswith c "no-") detections))
    as Hc.
  pose proof (detector_status_of_cases
                (count_class is_person detections)
                (count_class (fun c => Str.startswith c "no-") detections))
    as Hc'.
  cbv zeta in Hs, Hs', Hc, Hc'. rewrite Hv, Hp in Hs. rewrite Hv', Hp' in Hs'.
  rewrite Hs, Hs'.
  split; [|split; [exact Hc|split; [|split; [exact Hc'|split; reflexivity]]]].
  - split; [exact Hv|]. split; [exact Hp|].
    unfold Routes.status_of.
    destruct (count_class (fun c => Str.startswith c "no-") detections);
      [|reflexivity].
    destruct (count_class is_person detections); reflexivity.
  - split; [exact Hv'|]. split; [exact Hp'|].
    unfold Detector.status_of.
    destruct (count_class (fun c => Str.startswith c "no-") detections);
      [|reflexivity].
    destruct (count_class is_person detections); reflexivity.
Qed.

(** C2, as stated, fails: in the analysis the pipeline runs, a violation
    type outside the helmet category gets severity 2, not 1; and in the
    older copy, where every severity is 1, a no-helmet event does not
    outrank a no-gloves event. *)
Lemma C2_default_severity_counterexample :
  map severity
    (res_details (Routes.analyze_frame_for_ppe_status [det "no-boots"])) = [2]
  /\ ~ (Forall (fun d => severity d = 1)
          (res_details (Routes.analyze_frame_for_ppe_status [det "no-boots"])))
  /\ map severity
       (res_details
          (Detector.analyze_frame_for_ppe_status [det "no-helmet"; det "no-gloves"]))
     = [1; 1].
Proof.
  split; [reflexivity|]. split; [|reflexivity].
  intros H. apply Forall_inv in H. discriminate H.
Qed.

(** C2, amended. Every detection whose class name starts with "no-" yields
    exactly one violation detail, in detection order, carrying its class
    name, box and confidence; its severity is 3 when the class name contains
    "helmet" and 2 otherwise, so a no-helmet event (3) outranks a no-gloves
    event (2). *)
Theorem C2_violation_details (detections : list Detection) :
  let r := Routes.analyze_frame_for_ppe_status detections in
  res_details r = map Routes.make_detail (List.filter is_violation detections) /\
  res_violations r = length (List.filter is_violation detections) /\
  Forall (fun d => severity d = if Str.contains (violation_type d) "helmet"
                                then 3 else 2) (res_details r) /\
  (forall b1 c1 i1 b2 c2 i2,
     severity (Routes.make_detail
                 {| box := b2; confidence := c2; class_id := i2;
                    class_name := "no-gloves" |})
     < severity (Routes.make_detail
                   {| box := b1; confidence := c1; class_id := i1;
                      class_name := "no-helmet" |})).
Proof.
  cbv zeta. destruct (analyze_violations detections) as [Hn Hd].
  unfold res_details, res_violations. rewrite Hn, Hd.
  repeat split.
  - apply Forall_forall. intros d Hin.
    apply list_elem_of_In, in_map_iff in Hin.
    destruct Hin as [x [<- _]]. reflexivity.
  - intros. cbn. lia.
Qed.

(** ** The blocks of the loop body in closed form *)

Section Blocks.

Variable env : Env.
Variable cfg : Config.

Lemma snapshot_logic_run (v : nat) (sp : option string) (w : World) :
  snapshot_logic env cfg v sp w
  = if (snapshot_step cfg v (consecutive_violation_frames w)).2
    then (snapshot_outcome env (snapshot_calls w),
          with_consecutive 0
            (count_snapshot
               (with_consecutive (consecutive_violation_frames w + 1) w)),
          [SnapshotSaved (snapshot_outcome env (snapshot_calls w))])
    else (sp,
          with_consecutive
            (snapshot_step cfg v (consecutive_violation_frames w)).1 w,
          []).
Proof.
  unfold snapshot_logic, snapshot_step, save_frame_snapshot.
  destruct (SAVE_VIOLATION_SNAPSHOT cfg) eqn:Hs; cbn [andb];
    [destruct (0 <? v)%nat|]; try reflexivity.
  unfold bind, get_consecutive, set_consecutive, ret. cbn.
  destruct (SNAPSHOT_CONSECUTIVE_VIOLATIONS cfg
            <=? consecutive_violation_frames w + 1)%nat; reflexivity.
Qed.

Lemma save_violation_events_run (id : Z) (ds : list ViolationDetail)
    (w : World) :
  save_violation_events id ds w = (tt, w, violation_writes id ds).
Proof.
  induction ds as [|d ds IH]; [reflexivity|].
  cbn [save_violation_events]. unfold bind, save_violation_event, emit.
  cbn [fst snd]. rewrite IH. reflexivity.
Qed.

Lemma logging_run (ct llt : Z) (r : AnalysisResult) (sp : option string)
    (w : World) :
  logging env cfg ct llt (res_persons r) (res_ppe_worn r) (res_violations r)
    (res_status r) (res_details r) sp w
  = if (LOG_INTERVAL_SECONDS cfg <=? ct - llt)%Z
    then
      if app_context env
      then (Some ct, count_log w,
            flush_events ct llt r (truthy_path sp)
              (compliance_log_outcome env (log_calls w)))
      else (None, w, [FlushStarted ct llt])
    else (Some llt, w, []).
Proof.
  unfold logging, flush_events.
  destruct (LOG_INTERVAL_SECONDS cfg <=? ct - llt)%Z; [|reflexivity].
  destruct (app_context env); [|reflexivity].
  unfold bind, emit, save_compliance_log, ret. cbn [fst snd].
  destruct (compliance_log_outcome env (log_calls w)) as [id|];
    [destruct (0 <? res_violations r)%nat|];
    rewrite ?save_violation_events_run; cbn [fst snd app];
    rewrite ?app_nil_r; reflexivity.
Qed.

Lemma last_of_touch (v_type t : string) (w : World) :
  last_of (touch v_type w) t = last_of w t.
Proof.
  unfold touch, last_of.
  destruct (last_alert_time (alert_manager w) !! v_type) eqn:Hl;
    [reflexivity|]. cbn.
  destruct (decide (v_type = t)) as [<-|Hne].
  - now rewrite lookup_insert_eq, Hl.
  - now rewrite lookup_insert_ne.
Qed.

Lemma last_of_with_last (v_type t : string) (x : Z) (w : World) :
  last_of (with_last v_type x w) t
  = if decide (v_type = t) then x else last_of w t.
Proof.
  unfold with_last, last_of. cbn. rewrite lookup_insert.
  destruct (decide (v_type = t)); reflexivity.
Qed.

Lemma touch_fields (v_type : string) (w : World) :
  cooldown_of (touch v_type w) = cooldown_of w
  /\ clock_reads (touch v_type w) = clock_reads w
  /\ sms_calls (touch v_type w) = sms_calls w
  /\ log_calls (touch v_type w) = log_calls w
  /\ snapshot_calls (touch v_type w) = snapshot_calls w
  /\ consecutive_violation_frames (touch v_type w)
     = consecutive_violation_frames w.
Proof.
  unfold touch.
  destruct (last_alert_time (alert_manager w) !! v_type); cbn; auto 10.
Qed.

Lemma should_send_alert_run (v_type : string) (w : World) :
  should_send_alert env v_type w
  = (let now := clock env (clock_reads w) in
     let go := (cooldown_of w <=? now - last_of w v_type)%Z in
     (go, touch v_type (tick w), [CooldownChecked v_type now go])).
Proof.
  unfold should_send_alert, bind, time_time, last_alert_time_getitem,
    touch, last_of, cooldown_of.
  cbn [fst snd tick alert_manager clock_reads].
  destruct (last_alert_time (alert_manager w) !! v_type) as [t0|];
    cbn [fst snd default from_option id with_alert_manager alert_manager
         alert_cooldown_seconds app];
    destruct (_ <=? _)%Z; reflexivity.
Qed.

Lemma record_alert_sent_run (v_type : string) (w : World) :
  record_alert_sent env v_type w
  = (tt, with_last v_type (clock env (clock_reads w)) (tick w),
     [AlertRecorded v_type (clock env (clock_reads w))]).
Proof. reflexivity. Qed.

Lemma alert_one_run (d : ViolationDetail) (w : World) :
  alert_one env d w
  = (let v_type := violation_type d in
     let now := clock env (clock_reads w) in
     if (cooldown_of w <=? now - last_of w v_type)%Z
     then
       (tt,
        with_last v_type (clock env (S (S (clock_reads w))))
          (tick (count_sms (tick (touch v_type (tick w))))),
        [CooldownChecked v_type now true;
         SmsSent (format_alert_message [d]
                    (strftime env (clock env (S (clock_reads w)))))
           (sms_outcome env (sms_calls w));
         AlertRecorded v_type (clock env (S (S (clock_reads w))))])
     else (tt, touch v_type (tick w), [CooldownChecked v_type now false])).
Proof.
  unfold alert_one, bind. rewrite should_send_alert_run. cbv zeta.
  destruct (cooldown_of w <=? _)%Z; cbn [fst snd]; [|reflexivity].
  destruct (touch_fields (violation_type d) (tick w))
    as (_ & Hc & Hs & _).
  unfold time_time, send_sms. cbn [fst snd].
  rewrite record_alert_sent_run. cbn [fst snd app clock_reads tick count_sms sms_calls].
  rewrite Hc, Hs. reflexivity.
Qed.

End Blocks.

(** ** What each block touches *)

Section Frames.

Variable env : Env.
Variable cfg : Config.

Lemma on_app (c : Channel) (a b : list Event) :
  on c (a ++ b) = on c a ++ on c b.
Proof. apply List.filter_app. Qed.

Lemma on_same (c : Channel) (evs : list Event) :
  Forall (fun e => channel e = c) evs -> on c evs = evs.
Proof.
  induction 1 as [|e evs He _ IH]; [reflexivity|].
  unfold on in *. cbn [List.filter]. unfold on_channel at 1.
  rewrite He, IH. now destruct c.
Qed.

Lemma on_other (c c' : Channel) (evs : list Event) :
  c <> c' -> Forall (fun e => channel e = c') evs -> on c evs = [].
Proof.
  intros Hne. induction 1 as [|e evs He _ IH]; [reflexivity|].
  unfold on in *. cbn [List.filter]. unfold on_channel at 1.
  rewrite He, IH. now destruct c, c'.
Qed.

Lemma on_absent (c : Channel) (evs : list Event) :
  Forall (fun e => channel e <> c) evs -> on c evs = [].
Proof.
  induction 1 as [|e evs He _ IH]; [reflexivity|].
  unfold on in *. cbn [List.filter]. rewrite IH.
  unfold on_channel. destruct c, (channel e); congruence.
Qed.

Lemma snapshot_logic_channel (v : nat) (sp : option string) (w : World) :
  Forall (fun e => channel e = Snapshot) (snapshot_logic env cfg v sp w).2.
Proof.
  rewrite snapshot_logic_run.
  destruct (snapshot_step _ _ _).2; cbn; auto.
Qed.

Lemma flush_events_channel ct llt r path result :
  on Store (flush_events ct llt r path result)
  = FlushStarted ct llt
    :: ComplianceLogSaved (res_persons r) (res_ppe_worn r)
         (res_violations r) (res_status r) path result
    :: match result with
       | Some id =>
           if (0 <? res_violations r)%nat
           then violation_writes id (res_details r) else []
       | None => []
       end.
Proof.
  unfold flush_events, on. cbn [List.filter on_channel channel].
  do 2 f_equal.
  destruct result as [id|]; [|reflexivity].
  destruct (0 <? res_violations r)%nat; [|reflexivity].
  apply on_same. unfold violation_writes.
  apply Forall_forall. intros e He.
  apply list_elem_of_In, in_map_iff in He. now destruct He as [d [<- _]].
Qed.

Lemma flush_events_stream ct llt r path result :
  Forall (fun e => channel e = Store \/ channel e = Stream)
    (flush_events ct llt r path result).
Proof.
  unfold flush_events.
  constructor; [now left|]. constructor; [now left|].
  destruct result as [id|]; [|constructor; [now right | constructor]].
  destruct (0 <? res_violations r)%nat; [|constructor].
  unfold violation_writes. apply Forall_forall. intros e He.
  apply list_elem_of_In, in_map_iff in He. destruct He as [d [<- _]].
  now left.
Qed.

Lemma alert_one_channel (d : ViolationDetail) (w : World) :
  Forall (fun e => channel e = Alert) (alert_one env d w).2.
Proof.
  rewrite alert_one_run. cbv zeta.
  destruct (_ <=? _)%Z; cbn; repeat constructor.
Qed.

(** The alerting code leaves the snapshot counter, the store and the
    cooldown setting alone. *)
Lemma alert_one_fields (d : ViolationDetail) (w : World) :
  let w' := (alert_one env d w).1.2 in
  cooldown_of w' = cooldown_of w
  /\ log_calls w' = log_calls w
  /\ snapshot_calls w' = snapshot_calls w
  /\ consecutive_violation_frames w' = consecutive_violation_frames w.
Proof.
  cbv zeta. rewrite alert_one_run. cbv zeta.
  destruct (touch_fields (violation_type d) (tick w))
    as (Hc & _ & _ & Hl & Hs & Hn).
  destruct (_ <=? _)%Z; cbn [fst snd]; [|auto].
  unfold with_last, cooldown_of in *. cbn. auto.
Qed.

Lemma alert_each_channel (ds : list ViolationDetail) (w : World) :
  Forall (fun e => channel e = Alert) (alert_each env ds w).2.
Proof.
  revert w. induction ds as [|d ds IH]; intros w; [constructor|].
  cbn [alert_each]. unfold bind. cbn [snd].
  apply Forall_app. split; [apply alert_one_channel | apply IH].
Qed.

Lemma alert_each_fields (ds : list ViolationDetail) (w : World) :
  let w' := (alert_each env ds w).1.2 in
  cooldown_of w' = cooldown_of w
  /\ log_calls w' = log_calls w
  /\ snapshot_calls w' = snapshot_calls w
  /\ consecutive_violation_frames w' = consecutive_violation_frames w.
Proof.
  revert w. induction ds as [|d ds IH]; intros w; [cbn; auto|].
  cbn [alert_each]. unfold bind. cbn [fst snd].
  destruct (IH (alert_one env d w).1.2) as (H1 & H2 & H3 & H4).
  destruct (alert_one_fields d w) as (G1 & G2 & G3 & G4).
  cbv zeta in *. repeat split; congruence.
Qed.

Lemma sms_alerting_channel (v : nat) (ds : list ViolationDetail) (w : World) :
  Forall (fun e => channel e = Alert) (sms_alerting env v ds w).2.
Proof.
  unfold sms_alerting. destruct (0 <? v)%nat;
    [apply alert_each_channel | constructor].
Qed.

Lemma sms_alerting_fields (v : nat) (ds : list ViolationDetail) (w : World) :
  let w' := (sms_alerting env v ds w).1.2 in
  cooldown_of w' = cooldown_of w
  /\ log_calls w' = log_calls w
  /\ snapshot_calls w' = snapshot_calls w
  /\ consecutive_violation_frames w' = consecutive_violation_frames w.
Proof.
  unfold sms_alerting. destruct (0 <? v)%nat;
    [apply alert_each_fields | cbn; auto].
Qed.

End Frames.

Lemma flush_events_shape ct llt (dets : list Detection) path result :
  let r := Routes.analyze_frame_for_ppe_status dets in
  on Store (flush_events ct llt r path result)
  = flush_shape ct llt r path result.
Proof.
  cbv zeta. rewrite flush_events_channel. unfold flush_shape.
  do 2 f_equal. destruct result as [id|]; [|reflexivity].
  destruct (0 <? _)%nat eqn:Hv; [reflexivity|].
  apply Nat.ltb_ge in Hv.
  pose proof (analyze_count_matches_details dets) as Hlen. cbv zeta in Hlen.
  unfold res_violations, res_details in Hv |- *.
  destruct (Routes.analyze_frame_for_ppe_status dets).2; [reflexivity|].
  cbn [length] in Hlen. lia.
Qed.

(** ** One iteration *)

Section Iteration.

Variable env : Env.
Variable cfg : Config.

Lemma snapshot_logic_fields (v : nat) (sp : option string) (w : World) :
  let w' := (snapshot_logic env cfg v sp w).1.2 in
  alert_manager w' = alert_manager w
  /\ clock_reads w' = clock_reads w
  /\ log_calls w' = log_calls w
  /\ consecutive_violation_frames w'
     = (snapshot_step cfg v (consecutive_violation_frames w)).1.
Proof.
  cbv zeta. rewrite snapshot_logic_run. unfold snapshot_step.
  destruct (SAVE_VIOLATION_SNAPSHOT cfg && (0 <? v)%nat); [|cbn; auto].
  destruct (_ <=? _)%nat; cbn; auto.
Qed.

Lemma logging_fields ct llt (r : AnalysisResult) sp (w : World) :
  let w' :=
    (logging env cfg ct llt (res_persons r) (res_ppe_worn r)
       (res_violations r) (res_status r) (res_details r) sp w).1.2 in
  alert_manager w' = alert_manager w
  /\ consecutive_violation_frames w' = consecutive_violation_frames w.
Proof.
  cbv zeta. rewrite logging_run.
  destruct (_ <=? _)%Z; [destruct (app_context env)|]; cbn; auto.
Qed.

(** Whether the logging block raises is settled by the clock reading and
    the window start the iteration is entered with. *)
Lemma logging_blocked ct llt (r : AnalysisResult) sp (w : World) :
  (logging env cfg ct llt (res_persons r) (res_ppe_worn r)
     (res_violations r) (res_status r) (res_details r) sp w).1.1 = None
  <-> negb (app_context env) && (LOG_INTERVAL_SECONDS cfg <=? ct - llt)%Z
      = true.
Proof.
  rewrite logging_run.
  destruct (_ <=? _)%Z; destruct (app_context env); cbn; split;
    intros H; try discriminate; reflexivity.
Qed.

(** An iteration whose detector call returns and whose flush, if due, finds
    an application context is the three blocks in sequence, followed by the
    delivery of the frame. *)
Lemma loop_body_some (fi : Z) (f : Frame) (loc : Locals) (w : World)
    (dets : list Detection) :
  detect_outcome f = Some dets ->
  flush_blocked env cfg loc w = false ->
  let r := Routes.analyze_frame_for_ppe_status dets in
  let s1 := snapshot_logic env cfg (res_violations r) (snapshot_path loc) w in
  let ct := clock env (clock_reads s1.1.2) in
  let s2 :=
    logging env cfg ct (last_log_time loc) (res_persons r) (res_ppe_worn r)
      (res_violations r) (res_status r) (res_details r) s1.1.1
      (tick s1.1.2) in
  let s3 := sms_alerting env (res_violations r) (res_details r) s2.1.2 in
  exists loc' w' tail,
    loop_body env cfg fi f loc w
    = (Next loc', w', s1.2 ++ s2.2 ++ s3.2 ++ tail)
    /\ s2.1.1 = Some (last_log_time loc')
    /\ snapshot_path loc' = s1.1.1
    /\ Forall (fun e => channel e = Stream) tail
    /\ (w' = s3.1.2 \/ w' = tick s3.1.2).
Proof.
  intros Hd Hb. cbv zeta.
  assert (Hsome : exists llt',
             (logging env cfg
                (clock env
                   (clock_reads
                      (snapshot_logic env cfg
                         (res_violations (Routes.analyze_frame_for_ppe_status dets))
                         (snapshot_path loc) w).1.2))
                (last_log_time loc)
                (res_persons (Routes.analyze_frame_for_ppe_status dets))
                (res_ppe_worn (Routes.analyze_frame_for_ppe_status dets))
                (res_violations (Routes.analyze_frame_for_ppe_status dets))
                (res_status (Routes.analyze_frame_for_ppe_status dets))
                (res_details (Routes.analyze_frame_for_ppe_status dets))
                (snapshot_logic env cfg
                   (res_violations (Routes.analyze_frame_for_ppe_status dets))
                   (snapshot_path loc) w).1.1
                (tick
                   (snapshot_logic env cfg
                      (res_violations (Routes.analyze_frame_for_ppe_status dets))
                      (snapshot_path loc) w).1.2)).1.1 = Some llt').
  { destruct (logging _ _ _ _ _ _ _ _ _ _ _).1.1 as [llt'|] eqn:Hl; [eauto|].
    apply logging_blocked in Hl.
    destruct (snapshot_logic_fields
                (res_violations (Routes.analyze_frame_for_ppe_status dets))
                (snapshot_path loc) w) as (_ & Hc & _).
    cbv zeta in Hc. rewrite Hc in Hl. unfold flush_blocked in Hb. congruence. }
  destruct Hsome as (llt' & Hsome). revert Hsome.
  unfold loop_body. rewrite Hd.
  destruct (Routes.analyze_frame_for_ppe_status dets)
    as [[[[p a] v] s] ds].
  unfold res_violations, res_persons, res_ppe_worn, res_status, res_details.
  cbn [fst snd]. unfold bind. cbv zeta.
  unfold time_time at 1. cbn [fst snd app]. intros Hsome.
  unfold time_time at 1. cbn [fst snd app].
  destruct (encode_ok f).
  - unfold emit, ret, time_time. cbn [fst snd app].
    destruct (0 <? _)%Z; cbn [fst snd app]; rewrite !Hsome;
      cbn [fst snd app];
      do 3 eexists; (split; [reflexivity|]);
      repeat split; auto; repeat constructor.
  - unfold emit, ret, time_time. cbn [fst snd app]. rewrite !Hsome.
    cbn [fst snd app].
    do 3 eexists. split; [reflexivity|].
    repeat split; auto; repeat constructor.
Qed.

(** An iteration whose flush is due and finds no application context ends
    after the snapshot logic: the attempt is logged and nothing else
    happens. *)
Lemma loop_body_blocked (fi : Z) (f : Frame) (loc : Locals) (w : World)
    (dets : list Detection) :
  detect_outcome f = Some dets ->
  flush_blocked env cfg loc w = true ->
  let r := Routes.analyze_frame_for_ppe_status dets in
  let s1 := snapshot_logic env cfg (res_violations r) (snapshot_path loc) w in
  loop_body env cfg fi f loc w
  = (NoAppContext, tick s1.1.2,
     s1.2 ++ [FlushStarted (clock env (clock_reads w)) (last_log_time loc)]).
Proof.
  intros Hd Hb. cbv zeta. unfold loop_body. rewrite Hd.
  destruct (Routes.analyze_frame_for_ppe_status dets)
    as [[[[p a] v] s] ds].
  unfold res_violations. cbn [fst snd]. unfold bind. cbv zeta.
  unfold time_time. cbn [fst snd app].
  destruct (snapshot_logic_fields v (snapshot_path loc) w) as (_ & Hc & _).
  cbv zeta in Hc.
  pose proof (logging_run env cfg
                (clock env (clock_reads w)) (last_log_time loc)
                (p, a, v, s, ds)
                (snapshot_logic env cfg v (snapshot_path loc) w).1.1
                (tick (snapshot_logic env cfg v (snapshot_path loc) w).1.2))
    as Hlog.
  unfold res_persons, res_ppe_worn, res_violations, res_status, res_details
    in Hlog. cbn [fst snd] in Hlog.
  unfold flush_blocked in Hb. apply andb_true_iff in Hb as [Hctx Hdue].
  apply negb_true_iff in Hctx. rewrite Hdue, Hctx in Hlog.
  rewrite !Hc, !Hlog. cbn [fst snd app]. unfold ret. cbn [fst snd].
  rewrite ?app_nil_r. reflexivity.
Qed.

(** The snapshot side of an iteration: the request, if any, and the
    counter it leaves. *)
Lemma loop_body_snapshot (fi : Z) (f : Frame) (loc : Locals) (w : World)
    (dets : list Detection) :
  detect_outcome f = Some dets ->
  let v := res_violations (Routes.analyze_frame_for_ppe_status dets) in
  let step := snapshot_step cfg v (consecutive_violation_frames w) in
  let run := loop_body env cfg fi f loc w in
  on Snapshot run.2
  = (if step.2
     then [SnapshotSaved (snapshot_outcome env (snapshot_calls w))]
     else [])
  /\ consecutive_violation_frames run.1.2 = step.1
  /\ (if flush_blocked env cfg loc w then run.1.1 = NoAppContext
      else exists loc', run.1.1 = Next loc').
Proof.
  intros Hd. cbv zeta.
  destruct (flush_blocked env cfg loc w) eqn:Hb.
  { rewrite (loop_body_blocked fi f loc w dets Hd Hb). cbn [fst snd].
    set (r := Routes.analyze_frame_for_ppe_status dets) in *.
    split; [|split; [|reflexivity]].
    - rewrite on_app.
      rewrite (on_same Snapshot) by apply snapshot_logic_channel.
      cbn [on List.filter on_channel channel]. rewrite app_nil_r.
      rewrite snapshot_logic_run.
      destruct (snapshot_step _ _ _).2; reflexivity.
    - cbn [tick consecutive_violation_frames].
      now destruct (snapshot_logic_fields (res_violations r) (snapshot_path loc) w)
        as (_ & _ & _ & ->). }
  destruct (loop_body_some fi f loc w dets Hd Hb)
    as (loc' & w' & tail & Hrun & _ & _ & Htail & Hw').
  cbv zeta in *. rewrite Hrun. cbn [fst snd].
  set (r := Routes.analyze_frame_for_ppe_status dets) in *.
  set (s1 := snapshot_logic env cfg (res_violations r) (snapshot_path loc) w) in *.
  set (s2 := logging _ _ _ _ _ _ _ _ _ _ _) in *.
  set (s3 := sms_alerting _ _ _ _) in *.
  split; [|split; [|eauto]].
  - rewrite !on_app.
    rewrite (on_same Snapshot s1.2) by apply snapshot_logic_channel.
    rewrite (on_other Snapshot Alert s3.2)
      by (discriminate || apply sms_alerting_channel).
    rewrite (on_other Snapshot Stream tail) by (discriminate || assumption).
    assert (Hs2 : on Snapshot s2.2 = []).
    { subst s2. rewrite logging_run.
      destruct (_ <=? _)%Z; [destruct (app_context env)|]; try reflexivity.
      cbn [snd]. apply on_absent.
      eapply Forall_impl; [apply flush_events_stream|].
      intros e [He|He]; rewrite He; discriminate. }
    rewrite Hs2, !app_nil_r. subst s1. rewrite snapshot_logic_run.
    destruct (snapshot_step _ _ _).2; reflexivity.
  - assert (Hc : consecutive_violation_frames w'
                 = consecutive_violation_frames s3.1.2)
      by (destruct Hw' as [->| ->]; reflexivity).
    rewrite Hc. subst s3.
    destruct (sms_alerting_fields env (res_violations r) (res_details r) s2.1.2)
      as (_ & _ & _ & ->).
    subst s2.
    destruct (logging_fields
                (clock env (clock_reads s1.1.2)) (last_log_time loc) r
                s1.1.1 (tick s1.1.2)) as (_ & ->).
    cbn [tick consecutive_violation_frames]. subst s1.
    now destruct (snapshot_logic_fields (res_violations r) (snapshot_path loc) w)
      as (_ & _ & _ & ->).
Qed.

(** The alert side of an iteration is the alerting block run on the
    frame's own violation details; nothing before or after it talks to
    the gateway. *)
Lemma loop_body_alert_split (fi : Z) (f : Frame) (loc : Locals) (w : World)
    (dets : list Detection) :
  detect_outcome f = Some dets ->
  let r := Routes.analyze_frame_for_ppe_status dets in
  exists pre alerts post,
    (loop_body env cfg fi f loc w).2 = pre ++ alerts ++ post
    /\ Forall (fun e => channel e <> Alert) pre
    /\ Forall (fun e => channel e <> Alert) post
    /\ (alerts = []
        \/ exists w3,
             alerts = (sms_alerting env (res_violations r) (res_details r) w3).2).
Proof.
  intros Hd. cbv zeta.
  pose proof (snapshot_logic_channel env cfg
                (res_violations (Routes.analyze_frame_for_ppe_status dets))
                (snapshot_path loc) w) as Hc1.
  destruct (flush_blocked env cfg loc w) eqn:Hb.
  { rewrite (loop_body_blocked fi f loc w dets Hd Hb). cbn [snd].
    eexists _, [], []. rewrite app_nil_r.
    split; [reflexivity|]. split; [|split; [constructor|now left]].
    apply Forall_app. split.
    - eapply Forall_impl; [exact Hc1|]. intros e He. rewrite He. discriminate.
    - repeat constructor. discriminate. }
  destruct (loop_body_some fi f loc w dets Hd Hb)
    as (loc' & w' & tail & Hrun & _ & _ & Htail & _).
  cbv zeta in *. rewrite Hrun. cbn [snd].
  set (r := Routes.analyze_frame_for_ppe_status dets) in *.
  set (s1 := snapshot_logic env cfg (res_violations r) (snapshot_path loc) w) in *.
  pose proof (logging_run env cfg (clock env (clock_reads s1.1.2))
                (last_log_time loc) r s1.1.1 (tick s1.1.2)) as Hlog.
  set (s2 := logging _ _ _ _ _ _ _ _ _ _ _) in *.
  exists (s1.2 ++ s2.2), (sms_alerting env (res_violations r) (res_details r)
                            s2.1.2).2, tail.
  rewrite <- app_assoc.
  split; [reflexivity|]. split; [|split; [|right; eauto]].
  - apply Forall_app. split.
    + eapply Forall_impl; [exact Hc1|]. intros e He. rewrite He. discriminate.
    + rewrite Hlog.
      destruct (_ <=? _)%Z; [destruct (app_context env)|]; cbn [snd];
        [| repeat constructor; discriminate | constructor].
      eapply Forall_impl; [apply flush_events_stream|].
      intros e [He|He]; rewrite He; discriminate.
  - eapply Forall_impl; [exact Htail|]. intros e He. rewrite He. discriminate.
Qed.

Lemma loop_body_raises (fi : Z) (f : Frame) (loc : Locals) (w : World) :
  detect_outcome f = None ->
  loop_body env cfg fi f loc w = (Raised, w, []).
Proof. intros Hd. unfold loop_body. now rewrite Hd. Qed.

(** The error the handler logs goes to none of the collaborators. *)
Lemma on_error_logged (c : Channel) (evs : list Event) (m : string) :
  c <> Stream -> on c (evs ++ [ErrorLogged m]) = on c evs.
Proof.
  intros Hc. rewrite on_app. cbn [on List.filter on_channel channel].
  destruct c; try contradiction; now rewrite app_nil_r.
Qed.

Lemma capture_requested_error (evs : list Event) (m : string) :
  capture_requested (evs ++ [ErrorLogged m]) = capture_requested evs.
Proof. unfold capture_requested. now rewrite on_error_logged. Qed.

Lemma next_not_blocked (fi : Z) (f : Frame) (loc loc' : Locals) (w : World)
    (dets : list Detection) :
  detect_outcome f = Some dets ->
  (loop_body env cfg fi f loc w).1.1 = Next loc' ->
  flush_blocked env cfg loc w = false.
Proof.
  intros Hd Hn. destruct (flush_blocked env cfg loc w) eqn:Hb; [|reflexivity].
  rewrite (loop_body_blocked fi f loc w dets Hd Hb) in Hn. discriminate.
Qed.

End Iteration.

(** ** The snapshot trigger *)

Section SnapshotTrigger.

Variable env : Env.
Variable cfg : Config.

Local Abbreviation N := (SNAPSHOT_CONSECUTIVE_VIOLATIONS cfg).

Lemma snapshot_step_fires (v c : nat) :
  (snapshot_step cfg v c).2 = true ->
  (snapshot_step cfg v c).1 = 0 /\ N <= c + 1 /\ 0 < v.
Proof.
  unfold snapshot_step.
  destruct (SAVE_VIOLATION_SNAPSHOT cfg); cbn [andb]; [|discriminate].
  destruct (0 <? v)%nat eqn:Hv; [|discriminate].
  destruct (_ <=? _)%nat eqn:Hn; [|discriminate].
  apply Nat.ltb_lt in Hv. apply Nat.leb_le in Hn. auto.
Qed.

Lemma snapshot_step_bound (v c : nat) : (snapshot_step cfg v c).1 <= c + 1.
Proof.
  unfold snapshot_step.
  destruct (_ && _); [destruct (_ <=? _)%nat|]; cbn; lia.
Qed.

Lemma snapshot_step_violation (v c : nat) :
  SAVE_VIOLATION_SNAPSHOT cfg = true -> 0 < v ->
  snapshot_step cfg v c = if (N <=? c + 1)%nat then (0, true) else (c + 1, false).
Proof.
  intros Hs Hv. unfold snapshot_step. rewrite Hs.
  apply Nat.ltb_lt in Hv. now rewrite Hv.
Qed.

Lemma snapshot_step_clean (c : nat) : snapshot_step cfg 0 c = (0, false).
Proof. unfold snapshot_step. now rewrite andb_false_r. Qed.

Lemma loop_body_capture (fi : Z) (f : Frame) (loc : Locals) (w : World)
    (dets : list Detection) :
  detect_outcome f = Some dets ->
  capture_requested (loop_body env cfg fi f loc w).2
  = (snapshot_step cfg
       (res_violations (Routes.analyze_frame_for_ppe_status dets))
       (consecutive_violation_frames w)).2.
Proof.
  intros Hd. destruct (loop_body_snapshot env cfg fi f loc w dets Hd) as (Hon & _).
  cbv zeta in Hon. unfold capture_requested. rewrite Hon.
  now destruct (snapshot_step _ _ _).2.
Qed.

Lemma frame_loop_cons_next (fi : Z) (f : Frame) (rest : list Frame)
    (loc loc' : Locals) (w : World) :
  (loop_body env cfg fi f loc w).1.1 = Next loc' ->
  frame_loop env cfg fi (f :: rest) loc w
  = let r := loop_body env cfg fi f loc w in
    let run := frame_loop env cfg fi rest loc' r.1.2 in
    {| logs := r.2 :: logs run; final := final run; ending := ending run |}.
Proof. intros H. cbn [frame_loop]. cbv zeta. now rewrite H. Qed.

Lemma frame_loop_cons_raised (fi : Z) (f : Frame) (rest : list Frame)
    (loc : Locals) (w : World) :
  detect_outcome f = None ->
  frame_loop env cfg fi (f :: rest) loc w
  = {| logs := [[ErrorLogged "Error during frame generation"]];
       final := w; ending := DetectorError |}.
Proof.
  intros H. cbn [frame_loop]. cbv zeta.
  now rewrite (loop_body_raises env cfg fi f loc w H).
Qed.

Lemma frame_loop_cons_blocked (fi : Z) (f : Frame) (rest : list Frame)
    (loc : Locals) (w : World) (dets : list Detection) :
  detect_outcome f = Some dets ->
  flush_blocked env cfg loc w = true ->
  frame_loop env cfg fi (f :: rest) loc w
  = let r := loop_body env cfg fi f loc w in
    {| logs := [r.2 ++ [ErrorLogged "Error during frame generation"]];
       final := r.1.2; ending := FlushError |}.
Proof.
  intros Hd Hb. cbn [frame_loop]. cbv zeta.
  now rewrite (loop_body_blocked env cfg fi f loc w dets Hd Hb).
Qed.

(** The first iteration of a run goes on to the next frame, or the
    detector raises, or the flush is due and finds no application
    context. *)
Lemma frame_loop_cases (fi : Z) (f : Frame) (rest : list Frame)
    (loc : Locals) (w : World) :
  (exists dets loc',
      detect_outcome f = Some dets
      /\ (loop_body env cfg fi f loc w).1.1 = Next loc'
      /\ frame_loop env cfg fi (f :: rest) loc w
         = let r := loop_body env cfg fi f loc w in
           let run := frame_loop env cfg fi rest loc' r.1.2 in
           {| logs := r.2 :: logs run; final := final run;
              ending := ending run |})
  \/ (detect_outcome f = None
      /\ frame_loop env cfg fi (f :: rest) loc w
         = {| logs := [[ErrorLogged "Error during frame generation"]];
              final := w; ending := DetectorError |})
  \/ (exists dets,
        detect_outcome f = Some dets
        /\ flush_blocked env cfg loc w = true
        /\ frame_loop env cfg fi (f :: rest) loc w
           = let r := loop_body env cfg fi f loc w in
             {| logs := [r.2 ++ [ErrorLogged "Error during frame generation"]];
                final := r.1.2; ending := FlushError |}).
Proof.
  destruct (detect_outcome f) as [dets|] eqn:Hd.
  - destruct (loop_body_snapshot env cfg fi f loc w dets Hd)
      as (_ & _ & Hflow).
    destruct (flush_blocked env cfg loc w) eqn:Hb.
    + right. right. exists dets. split; [reflexivity|]. split; [reflexivity|].
      now apply (frame_loop_cons_blocked fi f rest loc w dets).
    + left. destruct Hflow as (loc' & Hnext).
      exists dets, loc'. split; [reflexivity|]. split; [assumption|].
      now apply frame_loop_cons_next.
  - right. left. split; [reflexivity|]. now apply frame_loop_cons_raised.
Qed.

(** N violating frames from a counter that is N frames short of the
    threshold: only the last one asks for a snapshot. *)
Lemma streak_fires_at_threshold (fi : Z) (frames : list Frame) :
  SAVE_VIOLATION_SNAPSHOT cfg = true ->
  Forall violating frames ->
  forall (loc : Locals) (w : World),
    consecutive_violation_frames w + length frames = N ->
    let run := frame_loop env cfg fi frames loc w in
    (forall k evs, logs run !! k = Some evs ->
       capture_requested evs = (k + 1 =? length frames)%nat)
    /\ (ending run = EndOfStream ->
        length (logs run) = length frames
        /\ consecutive_violation_frames (final run)
           = match frames with [] => consecutive_violation_frames w | _ => 0 end).
Proof.
  intros Hs. induction 1 as [|f rest [dets [Hd Hv]] _ IH]; intros loc w Hc.
  - cbn. split; auto. intros k evs Hk. destruct k; discriminate.
  - pose proof (loop_body_capture fi f loc w dets Hd) as Hcap.
    destruct (loop_body_snapshot env cfg fi f loc w dets Hd)
      as (_ & Hcnt & _).
    cbv zeta in Hcnt.
    rewrite (snapshot_step_violation _ _ Hs Hv) in Hcnt, Hcap.
    cbn [length] in Hc.
    destruct (frame_loop_cases fi f rest loc w)
      as [(dets' & loc' & Hd' & Hnext & Hrun)|[(Hd' & _)|(dets' & Hd' & Hb & Hrun)]];
      [| congruence |]; rewrite Hrun; cbv zeta; cbn [logs final ending length].
    + destruct (N <=? consecutive_violation_frames w + 1)%nat eqn:Hn.
      * apply Nat.leb_le in Hn. assert (rest = []) as ->
          by (destruct rest; [reflexivity | cbn [length] in Hc; lia]).
        cbn [frame_loop logs final ending length fst snd] in *.
        split; [|auto].
        intros [|k] evs Hk; cbn in Hk; [|destruct k; discriminate].
        injection Hk as <-. exact Hcap.
      * apply Nat.leb_gt in Hn. cbn [fst snd] in *.
        destruct (IH loc' (loop_body env cfg fi f loc w).1.2) as (Hk & Hend);
          [lia|]. cbv zeta in *.
        split.
        -- intros [|k] evs Hlk; cbn in Hlk.
           ++ injection Hlk as <-. rewrite Hcap. symmetry.
              apply Nat.eqb_neq. lia.
           ++ rewrite (Hk k evs Hlk). reflexivity.
        -- intros He. destruct (Hend He) as (Hl & Hf). split; [now rewrite Hl|].
           rewrite Hf. destruct rest; [cbn [length] in Hc; lia | reflexivity].
    + split; [|discriminate].
      intros [|k] evs Hk; cbn in Hk; [|destruct k; discriminate].
      injection Hk as <-. rewrite capture_requested_error, Hcap.
      destruct (N <=? consecutive_violation_frames w + 1)%nat eqn:Hn; cbn [snd].
      * apply Nat.leb_le in Hn. symmetry. apply Nat.eqb_eq. lia.
      * apply Nat.leb_gt in Hn. symmetry. apply Nat.eqb_neq. lia.
Qed.

(** A request at iteration [k] needs the counter to have reached the
    threshold by then. *)
Lemma capture_needs_streak (fi : Z) (frames : list Frame) :
  forall (loc : Locals) (w : World) (k : nat) (evs : list Event),
    logs (frame_loop env cfg fi frames loc w) !! k = Some evs ->
    capture_requested evs = true ->
    N <= consecutive_violation_frames w + k + 1.
Proof.
  induction frames as [|f rest IH]; intros loc w k evs Hk Hcap.
  - destruct k; discriminate.
  - destruct (frame_loop_cases fi f rest loc w)
      as [(dets & loc' & Hd & Hnext & Hrun)|[(Hd & Hrun)|(dets & Hd & Hb & Hrun)]];
      rewrite Hrun in Hk; cbv zeta in Hk; cbn [logs] in Hk.
    + destruct (loop_body_snapshot env cfg fi f loc w dets Hd) as (_ & Hcnt & _).
      cbv zeta in Hcnt. destruct k as [|k]; cbn in Hk.
      * injection Hk as <-. rewrite (loop_body_capture fi f loc w dets Hd) in Hcap.
        apply snapshot_step_fires in Hcap. lia.
      * apply IH in Hk; [|assumption]. rewrite Hcnt in Hk.
        pose proof (snapshot_step_bound
                      (res_violations (Routes.analyze_frame_for_ppe_status dets))
                      (consecutive_violation_frames w)). lia.
    + destruct k as [|[|k]]; cbn in Hk; try discriminate.
      injection Hk as <-. discriminate.
    + destruct k as [|[|k]]; cbn in Hk; try discriminate.
      injection Hk as <-. rewrite capture_requested_error in Hcap.
      rewrite (loop_body_capture fi f loc w dets Hd) in Hcap.
      apply snapshot_step_fires in Hcap. lia.
Qed.

(** Two requests are at least a threshold of frames apart. *)
Lemma captures_spaced (fi : Z) (frames : list Frame) :
  forall (loc : Locals) (w : World) (i j : nat) (evi evj : list Event),
    logs (frame_loop env cfg fi frames loc w) !! i = Some evi ->
    logs (frame_loop env cfg fi frames loc w) !! j = Some evj ->
    i < j ->
    capture_requested evi = true -> capture_requested evj = true ->
    N <= j - i.
Proof.
  induction frames as [|f rest IH]; intros loc w i j evi evj Hi Hj Hij Ci Cj.
  - destruct i; discriminate.
  - destruct (frame_loop_cases fi f rest loc w)
      as [(dets & loc' & Hd & Hnext & Hrun)|[(Hd & Hrun)|(dets & Hd & Hb & Hrun)]];
      rewrite Hrun in Hi, Hj; cbv zeta in Hi, Hj; cbn [logs] in Hi, Hj.
    + destruct (loop_body_snapshot env cfg fi f loc w dets Hd) as (_ & Hcnt & _).
      cbv zeta in Hcnt. destruct j as [|j]; [lia|]. cbn in Hj.
      destruct i as [|i]; cbn in Hi.
      * injection Hi as <-. rewrite (loop_body_capture fi f loc w dets Hd) in Ci.
        apply snapshot_step_fires in Ci. destruct Ci as (Hz & _ & _).
        apply capture_needs_streak in Hj; [|assumption].
        rewrite Hcnt, Hz in Hj. lia.
      * specialize (IH _ _ _ _ _ _ Hi Hj). cbn. apply IH; auto. lia.
    + destruct j as [|[|j]]; cbn in Hj; try discriminate. lia.
    + destruct j as [|[|j]]; cbn in Hj; try discriminate. lia.
Qed.

Lemma generate_frames_unfold (fi : Z) (frames : list Frame) (w : World) :
  generate_frames env cfg (Some (fi, frames)) true w
  = frame_loop env cfg fi frames
      {| last_frame_time := clock env (clock_reads w);
         last_log_time := clock env (S (clock_reads w));
         snapshot_path := None |}
      (tick (tick w)).
Proof. reflexivity. Qed.

End SnapshotTrigger.

(** C3. With snapshots enabled, a zero counter and threshold N, a run over
    N frames that each show a violation asks for a snapshot on the N-th
    frame and on no earlier one, and, when it gets to the end of the N
    frames, it has made N iterations and ends with the counter at 0. A frame
    without violations asks for nothing and leaves the counter at 0. An
    iteration that asks for a snapshot leaves the counter at 0 whatever the
    image writer answers. In any run, two requests are at least N frames
    apart. *)
Theorem C3_snapshot_trigger (env : Env) (cfg : Config) (fi : Z) :
  let N := SNAPSHOT_CONSECUTIVE_VIOLATIONS cfg in
  (forall (frames : list Frame) (w : World),
      SAVE_VIOLATION_SNAPSHOT cfg = true ->
      consecutive_violation_frames w = 0 ->
      length frames = N ->
      Forall violating frames ->
      let run := generate_frames env cfg (Some (fi, frames)) true w in
      (forall k evs, logs run !! k = Some evs ->
         capture_requested evs = (k + 1 =? N)%nat)
      /\ (ending run = EndOfStream ->
          length (logs run) = N
          /\ consecutive_violation_frames (final run) = 0))
  /\ (forall (f : Frame) (loc : Locals) (w : World) (dets : list Detection),
        detect_outcome f = Some dets ->
        res_violations (Routes.analyze_frame_for_ppe_status dets) = 0 ->
        let r := loop_body env cfg fi f loc w in
        capture_requested r.2 = false
        /\ consecutive_violation_frames r.1.2 = 0)
  /\ (forall (f : Frame) (loc : Locals) (w : World) (dets : list Detection),
        detect_outcome f = Some dets ->
        let r := loop_body env cfg fi f loc w in
        capture_requested r.2 = true ->
        on Snapshot r.2
        = [SnapshotSaved (snapshot_outcome env (snapshot_calls w))]
        /\ consecutive_violation_frames r.1.2 = 0)
  /\ (forall (frames : list Frame) (w : World) (i j : nat)
             (evi evj : list Event),
        let run := generate_frames env cfg (Some (fi, frames)) true w in
        logs run !! i = Some evi -> logs run !! j = Some evj -> i < j ->
        capture_requested evi = true -> capture_requested evj = true ->
        N <= j - i).
Proof.
  cbv zeta. split; [|split; [|split]].
  - intros frames w Hs Hc Hl Hv. rewrite generate_frames_unfold.
    destruct (streak_fires_at_threshold env cfg fi frames Hs Hv
                {| last_frame_time := clock env (clock_reads w);
                   last_log_time := clock env (S (clock_reads w));
                   snapshot_path := None |} (tick (tick w)))
      as (H1 & H2).
    { cbn [tick consecutive_violation_frames]. lia. }
    cbv zeta in *. rewrite <- Hl. split; [exact H1|].
    intros He. destruct (H2 He) as (H3 & H4). split; [exact H3|].
    rewrite H4. destruct frames; [exact Hc | reflexivity].
  - intros f loc w dets Hd Hz.
    destruct (loop_body_snapshot env cfg fi f loc w dets Hd) as (_ & Hcnt & _).
    cbv zeta in Hcnt. rewrite (loop_body_capture env cfg fi f loc w dets Hd), Hcnt.
    rewrite Hz, snapshot_step_clean. auto.
  - intros f loc w dets Hd Hcap.
    destruct (loop_body_snapshot env cfg fi f loc w dets Hd) as (Hon & Hcnt & _).
    cbv zeta in Hon, Hcnt.
    rewrite (loop_body_capture env cfg fi f loc w dets Hd) in Hcap.
    rewrite Hon, Hcnt, Hcap. split; [reflexivity|].
    now apply snapshot_step_fires in Hcap.
  - intros frames w i j evi evj. rewrite generate_frames_unfold.
    apply captures_spaced.
Qed.

Lemma C3_snapshot_trigger_witness :
  let frames := repeat (frame_of ["no-helmet"]) 5 in
  let run :=
    generate_frames steady_env app_config (Some (0%Z, frames)) true
      (initial_world app_config) in
  (forall k evs, logs run !! k = Some evs ->
     capture_requested evs = (k + 1 =? 5)%nat)
  /\ length (logs run) = 5
  /\ consecutive_violation_frames (final run) = 0.
Proof.
  destruct (proj1 (C3_snapshot_trigger steady_env app_config 0%Z)
              (repeat (frame_of ["no-helmet"]) 5) (initial_world app_config))
    as (Hk & Hend).
  - reflexivity.
  - reflexivity.
  - reflexivity.
  - repeat constructor;
      (exists (map det ["no-helmet"]); split; [reflexivity | vm_compute; lia]).
  - split; [exact Hk|]. apply Hend. vm_compute. reflexivity.
Defined.

(** ** Periodic logging *)

Section Recorder.

Variable env : Env.
Variable cfg : Config.

Local Abbreviation interval := (LOG_INTERVAL_SECONDS cfg).

(** The store side of an iteration: nothing before the interval has
    elapsed; once it has, one flush of this frame's analysis, or the bare
    attempt when there is no application context. *)
Lemma loop_body_store (fi : Z) (f : Frame) (loc : Locals) (w : World)
    (dets : list Detection) :
  detect_outcome f = Some dets ->
  let r := Routes.analyze_frame_for_ppe_status dets in
  let ct := clock env (clock_reads w) in
  let llt := last_log_time loc in
  let path :=
    truthy_path
      (snapshot_logic env cfg (res_violations r) (snapshot_path loc) w).1.1 in
  let run := loop_body env cfg fi f loc w in
  on Store run.2
  = (if (interval <=? ct - llt)%Z
     then
       if app_context env
       then on Store (flush_events ct llt r path
                        (compliance_log_outcome env (log_calls w)))
       else [FlushStarted ct llt]
     else []).
Proof.
  intros Hd. cbv zeta.
  destruct (flush_blocked env cfg loc w) eqn:Hb.
  { rewrite (loop_body_blocked env cfg fi f loc w dets Hd Hb). cbn [snd].
    unfold flush_blocked in Hb. apply andb_true_iff in Hb as [Hctx Hdue].
    apply negb_true_iff in Hctx. rewrite Hdue, Hctx.
    rewrite on_app.
    rewrite (on_other Store Snapshot)
      by (discriminate || apply snapshot_logic_channel).
    reflexivity. }
  destruct (loop_body_some env cfg fi f loc w dets Hd Hb)
    as (loc' & w' & tail & Hrun & Hllt & _ & Htail & _).
  cbv zeta in *. rewrite Hrun. cbn [fst snd].
  set (r := Routes.analyze_frame_for_ppe_status dets) in *.
  destruct (snapshot_logic_fields env cfg (res_violations r) (snapshot_path loc) w)
    as (_ & Hclk & Hlog & _). cbv zeta in Hclk, Hlog.
  pose proof (snapshot_logic_channel env cfg (res_violations r)
                (snapshot_path loc) w) as Hs1.
  set (s1 := snapshot_logic env cfg (res_violations r) (snapshot_path loc) w) in *.
  rewrite Hclk in *.
  pose proof (logging_run env cfg (clock env (clock_reads w))
                (last_log_time loc) r s1.1.1 (tick s1.1.2)) as Hlogrun.
  set (s2 := logging _ _ _ _ _ _ _ _ _ _ _) in *.
  pose proof (sms_alerting_channel env (res_violations r) (res_details r)
                s2.1.2) as Hs3.
  set (s3 := sms_alerting _ _ _ _) in *.
  rewrite !on_app.
  rewrite (on_other Store Snapshot s1.2) by (discriminate || assumption).
  rewrite (on_other Store Alert s3.2) by (discriminate || assumption).
  rewrite (on_other Store Stream tail) by (discriminate || assumption).
  rewrite app_nil_r. cbn [app]. rewrite Hlogrun.
  destruct (interval <=? _)%Z; [|reflexivity].
  destruct (app_context env); [|reflexivity].
  cbn [snd tick log_calls]. now rewrite Hlog.
Qed.

(** The window an iteration hands on starts at the current time when it
    flushed, and where it started otherwise. *)
Lemma loop_body_window (fi : Z) (f : Frame) (loc loc' : Locals) (w : World)
    (dets : list Detection) :
  detect_outcome f = Some dets ->
  (loop_body env cfg fi f loc w).1.1 = Next loc' ->
  last_log_time loc'
  = if (interval <=? clock env (clock_reads w) - last_log_time loc)%Z
    then clock env (clock_reads w) else last_log_time loc.
Proof.
  intros Hd Hn.
  pose proof (next_not_blocked env cfg fi f loc loc' w dets Hd Hn) as Hb.
  destruct (loop_body_some env cfg fi f loc w dets Hd Hb)
    as (loc'' & w' & tail & Hrun & Hllt & _).
  cbv zeta in *. rewrite Hrun in Hn. cbn [fst] in Hn. injection Hn as ->.
  destruct (snapshot_logic_fields env cfg
              (res_violations (Routes.analyze_frame_for_ppe_status dets))
              (snapshot_path loc) w) as (_ & Hclk & _). cbv zeta in Hclk.
  rewrite Hclk, logging_run in Hllt.
  destruct (interval <=? _)%Z; [destruct (app_context env)|];
    cbn [fst] in Hllt; congruence.
Qed.

(** In a run, the store side of the k-th iteration is empty, or the bare
    attempt of a flush that found no application context, or the flush of
    the k-th frame's analysis. *)
Lemma run_store (fi : Z) (frames : list Frame) :
  forall (loc : Locals) (w : World) (k : nat) (f : Frame) (evs : list Event),
    frames !! k = Some f ->
    logs (frame_loop env cfg fi frames loc w) !! k = Some evs ->
    on Store evs = []
    \/ (exists ct llt,
          app_context env = false
          /\ (interval <= ct - llt)%Z
          /\ on Store evs = [FlushStarted ct llt])
    \/ exists dets ct llt path result,
         detect_outcome f = Some dets
         /\ app_context env = true
         /\ (interval <= ct - llt)%Z
         /\ on Store evs
            = on Store (flush_events ct llt
                          (Routes.analyze_frame_for_ppe_status dets)
                          path result).
Proof.
  assert (Hone : forall f0 loc w dets,
             detect_outcome f0 = Some dets ->
             on Store (loop_body env cfg fi f0 loc w).2 = []
             \/ (exists ct llt,
                   app_context env = false
                   /\ (interval <= ct - llt)%Z
                   /\ on Store (loop_body env cfg fi f0 loc w).2
                      = [FlushStarted ct llt])
             \/ exists dets ct llt path result,
                  detect_outcome f0 = Some dets
                  /\ app_context env = true
                  /\ (interval <= ct - llt)%Z
                  /\ on Store (loop_body env cfg fi f0 loc w).2
                     = on Store (flush_events ct llt
                                   (Routes.analyze_frame_for_ppe_status dets)
                                   path result)).
  { intros f0 loc w dets Hd.
    pose proof (loop_body_store fi f0 loc w dets Hd) as Hon.
    cbv zeta in Hon. rewrite Hon.
    destruct (interval <=? _)%Z eqn:Hi; [|now left].
    apply Z.leb_le in Hi. right.
    destruct (app_context env) eqn:Hctx; [right|left]; eauto 10. }
  induction frames as [|f0 rest IH]; intros loc w k f evs Hf Hk.
  - destruct k; discriminate.
  - destruct (frame_loop_cases env cfg fi f0 rest loc w)
      as [(dets & loc' & Hd & Hnext & Hrun)|[(Hd & Hrun)|(dets & Hd & Hb & Hrun)]];
      rewrite Hrun in Hk; cbv zeta in Hk; cbn [logs] in Hk.
    + destruct k as [|k]; cbn in Hf, Hk.
      * injection Hf as <-. injection Hk as <-. now apply (Hone f0 loc w dets).
      * eapply IH; eassumption.
    + destruct k as [|[|k]]; cbn in Hk; try discriminate.
      injection Hk as <-. now left.
    + destruct k as [|[|k]]; cbn in Hf, Hk; try discriminate.
      injection Hf as <-. injection Hk as <-.
      rewrite on_error_logged by discriminate.
      now apply (Hone f0 loc w dets).
Qed.

Lemma run_store_shape (fi : Z) (frames : list Frame) (loc : Locals)
    (w : World) (k : nat) (f : Frame) (evs : list Event) :
  frames !! k = Some f ->
  logs (frame_loop env cfg fi frames loc w) !! k = Some evs ->
  on Store evs = []
  \/ (exists ct llt,
        app_context env = false
        /\ (interval <= ct - llt)%Z
        /\ on Store evs = [FlushStarted ct llt])
  \/ exists dets ct llt path result,
       detect_outcome f = Some dets
       /\ app_context env = true
       /\ (interval <= ct - llt)%Z
       /\ on Store evs
          = flush_shape ct llt (Routes.analyze_frame_for_ppe_status dets)
              path result.
Proof.
  intros Hf Hk.
  destruct (run_store fi frames loc w k f evs Hf Hk)
    as [Hnil|[Hblocked|(dets & ct & llt & path & result & Hd & Hctx & Hi & Hon)]];
    [now left | now right; left |].
  right. right. exists dets, ct, llt, path, result.
  rewrite Hon, flush_events_shape. auto.
Qed.

Lemma in_on_store (e : Event) (evs : list Event) :
  In e evs -> channel e = Store -> In e (on Store evs).
Proof.
  intros Hin Hc. apply filter_In. split; [assumption|].
  unfold on_channel. now rewrite Hc.
Qed.

Lemma compliance_logs_on_store (evs : list Event) :
  compliance_logs evs = compliance_logs (on Store evs).
Proof.
  unfold compliance_logs, on.
  induction evs as [|e evs IH]; [reflexivity|].
  cbn [List.filter]. destruct e; cbn; rewrite IH; reflexivity.
Qed.

Lemma compliance_logs_flush_shape ct llt r path result :
  compliance_logs (flush_shape ct llt r path result)
  = [ComplianceLogSaved (res_persons r) (res_ppe_worn r) (res_violations r)
       (res_status r) path result].
Proof.
  unfold flush_shape, compliance_logs. cbn [List.filter is_compliance_log].
  f_equal. destruct result as [id|]; [|reflexivity].
  unfold violation_writes. induction (res_details r); [reflexivity|].
  cbn. assumption.
Qed.

Lemma in_violation_writes (e : Event) (id : Z) (ds : list ViolationDetail) :
  In e (violation_writes id ds) ->
  exists d, In d ds
    /\ e = ViolationEventSaved id (violation_type d) (location_box d)
             (v_confidence d) (severity d).
Proof.
  unfold violation_writes. intros H. apply in_map_iff in H.
  destruct H as [d [<- Hd]]. eauto.
Qed.

Lemma flush_started_in_iteration (fi : Z) (f : Frame) (loc : Locals)
    (w : World) (dets : list Detection) (ct llt : Z) :
  detect_outcome f = Some dets ->
  In (FlushStarted ct llt) (loop_body env cfg fi f loc w).2 ->
  ct = clock env (clock_reads w) /\ llt = last_log_time loc
  /\ (interval <= ct - llt)%Z.
Proof.
  intros Hd Hin. apply in_on_store in Hin; [|reflexivity].
  pose proof (loop_body_store fi f loc w dets Hd) as Hon.
  cbv zeta in Hon. rewrite Hon in Hin.
  destruct (interval <=? _)%Z eqn:Hi; [|destruct Hin].
  apply Z.leb_le in Hi.
  destruct (app_context env).
  - rewrite flush_events_shape in Hin. unfold flush_shape in Hin.
    cbn [In] in Hin.
    destruct Hin as [Hin|[Hin|Hin]]; [|discriminate|].
    + injection Hin as <- <-. auto.
    + destruct (compliance_log_outcome _ _); [|destruct Hin].
      apply in_violation_writes in Hin. destruct Hin as (d & _ & Heq).
      discriminate.
  - destruct Hin as [Hin|[]]. injection Hin as <- <-. auto.
Qed.

Lemma in_error_logged (e : Event) (evs : list Event) (m : string) :
  In e (evs ++ [ErrorLogged m]) -> e <> ErrorLogged m -> In e evs.
Proof.
  intros Hin Hne. apply in_app_or in Hin. destruct Hin as [Hin|[Hin|[]]];
    [assumption | congruence].
Qed.

(** A flush lies at least an interval after the start of the window the
    run was entered with. *)
Lemma flush_after_window (fi : Z) (frames : list Frame) :
  (0 <= interval)%Z ->
  forall (loc : Locals) (w : World) (k : nat) (evs : list Event) (ct llt : Z),
    logs (frame_loop env cfg fi frames loc w) !! k = Some evs ->
    In (FlushStarted ct llt) evs ->
    (interval <= ct - last_log_time loc)%Z.
Proof.
  intros H0. induction frames as [|f rest IH]; intros loc w k evs ct llt Hk Hin.
  - destruct k; discriminate.
  - destruct (frame_loop_cases env cfg fi f rest loc w)
      as [(dets & loc' & Hd & Hnext & Hrun)|[(Hd & Hrun)|(dets & Hd & Hb & Hrun)]];
      rewrite Hrun in Hk; cbv zeta in Hk; cbn [logs] in Hk.
    + destruct k as [|k]; cbn in Hk.
      * injection Hk as <-.
        apply (flush_started_in_iteration fi f loc w dets) in Hin; auto.
        destruct Hin as (_ & -> & Hi). exact Hi.
      * apply IH with (ct := ct) (llt := llt) in Hk; [|assumption].
        rewrite (loop_body_window fi f loc loc' w dets Hd Hnext) in Hk.
        destruct (interval <=? _)%Z eqn:Hi; [|exact Hk].
        apply Z.leb_le in Hi. lia.
    + destruct k as [|[|k]]; cbn in Hk; try discriminate.
      injection Hk as <-. destruct Hin as [Hin|[]]. discriminate.
    + destruct k as [|[|k]]; cbn in Hk; try discriminate.
      injection Hk as <-. apply in_error_logged in Hin; [|discriminate].
      apply (flush_started_in_iteration fi f loc w dets) in Hin; auto.
      destruct Hin as (_ & -> & Hi). exact Hi.
Qed.

(** Two flushes of a run are at least an interval apart. *)
Lemma flushes_spaced (fi : Z) (frames : list Frame) :
  (0 <= interval)%Z ->
  forall (loc : Locals) (w : World) (i j : nat) (evi evj : list Event)
         (cti llti ctj lltj : Z),
    logs (frame_loop env cfg fi frames loc w) !! i = Some evi ->
    logs (frame_loop env cfg fi frames loc w) !! j = Some evj ->
    i < j ->
    In (FlushStarted cti llti) evi -> In (FlushStarted ctj lltj) evj ->
    (interval <= ctj - cti)%Z.
Proof.
  intros H0. induction frames as [|f rest IH];
    intros loc w i j evi evj cti llti ctj lltj Hi Hj Hij Ini Inj.
  - destruct i; discriminate.
  - destruct (frame_loop_cases env cfg fi f rest loc w)
      as [(dets & loc' & Hd & Hnext & Hrun)|[(Hd & Hrun)|(dets & Hd & Hb & Hrun)]];
      rewrite Hrun in Hi, Hj; cbv zeta in Hi, Hj; cbn [logs] in Hi, Hj.
    + destruct j as [|j]; [lia|]. cbn in Hj.
      destruct i as [|i]; cbn in Hi.
      * injection Hi as <-.
        apply (flush_started_in_iteration fi f loc w dets) in Ini; auto.
        destruct Ini as (-> & -> & Hc).
        apply (flush_after_window fi rest H0) with (ct := ctj) (llt := lltj)
          in Hj; [|assumption].
        rewrite (loop_body_window fi f loc loc' w dets Hd Hnext) in Hj.
        apply Z.leb_le in Hc. now rewrite Hc in Hj.
      * eapply (IH _ _ i j); eauto. lia.
    + destruct j as [|[|j]]; cbn in Hj; try discriminate. lia.
    + destruct j as [|[|j]]; cbn in Hj; try discriminate. lia.
Qed.

End Recorder.

(** C5, as stated, fails: the bare-headed worker of the first frame yields
    a violation event inside the interval, the flush happens on the next
    frame, and that flush writes the compliance log and no violation
    event. Without an application context the same flush writes nothing at
    all: the attempt is the only trace it leaves. *)
Lemma C5_earlier_events_dropped_counterexample :
  (exists dets, detect_outcome (frame_of ["no-helmet"]) = Some dets
     /\ res_details (Routes.analyze_frame_for_ppe_status dets)
        = [Routes.make_detail (det "no-helmet")])
  /\ map (on Store) (logs two_frame_run)
     = [[];
        [FlushStarted 1014 1002;
         ComplianceLogSaved 0 0 0 "No persons detected" None (Some 1%Z)]]
  /\ ~ (exists e, In e (concat (logs two_frame_run))
                  /\ is_violation_write e = true)
  /\ map (on Store) (logs (run_of route_env two_frames))
     = [[]; [FlushStarted 1014 1002]].
Proof.
  split; [eexists; split; reflexivity|].
  split; [vm_compute; reflexivity|].
  split; [|vm_compute; reflexivity].
  intros [e [Hin He]]. vm_compute in Hin.
  repeat (destruct Hin as [<-|Hin]; [discriminate He|]). exact Hin.
Qed.

(** C5, amended. When the interval has elapsed since the start of the
    window and the flush finds its application context, the iteration makes
    exactly one compliance-log insert, carrying the counts and status of the
    frame being processed, followed, when that insert returned an id, by one
    violation-event insert for every violation detail of that frame and of
    no earlier one, in order, each with that detail's type, box, confidence
    and severity; when the interval has not elapsed the iteration writes
    nothing. In a run, the store side of every iteration is empty, or the
    bare attempt of a flush without application context, or such a flush of
    that iteration's own frame. *)
Theorem C5_flush_writes (env : Env) (cfg : Config) (fi : Z) :
  let interval := LOG_INTERVAL_SECONDS cfg in
  (forall (f : Frame) (loc : Locals) (w : World) (dets : list Detection),
      detect_outcome f = Some dets ->
      let r := Routes.analyze_frame_for_ppe_status dets in
      let ct := clock env (clock_reads w) in
      let llt := last_log_time loc in
      let path :=
        truthy_path
          (snapshot_logic env cfg (res_violations r) (snapshot_path loc) w).1.1 in
      let result := compliance_log_outcome env (log_calls w) in
      let evs := (loop_body env cfg fi f loc w).2 in
      (app_context env = true ->
       (interval <= ct - llt)%Z ->
       on Store evs
       = FlushStarted ct llt
         :: ComplianceLogSaved (res_persons r) (res_ppe_worn r)
              (res_violations r) (res_status r) path result
         :: match result with
            | Some id =>
                map (fun d =>
                       ViolationEventSaved id (violation_type d)
                         (location_box d) (v_confidence d) (severity d))
                  (res_details r)
            | None => []
            end)
      /\ ((ct - llt < interval)%Z -> on Store evs = []))
  /\ (forall (frames : list Frame) (w : World) (k : nat) (f : Frame)
             (evs : list Event),
        let run := generate_frames env cfg (Some (fi, frames)) true w in
        frames !! k = Some f ->
        logs run !! k = Some evs ->
        on Store evs = []
        \/ (exists ct llt,
              app_context env = false
              /\ (interval <= ct - llt)%Z
              /\ on Store evs = [FlushStarted ct llt])
        \/ exists dets ct llt path result,
             detect_outcome f = Some dets
             /\ app_context env = true
             /\ (interval <= ct - llt)%Z
             /\ let r := Routes.analyze_frame_for_ppe_status dets in
                on Store evs
                = FlushStarted ct llt
                  :: ComplianceLogSaved (res_persons r) (res_ppe_worn r)
                       (res_violations r) (res_status r) path result
                  :: match result with
                     | Some id =>
                         map (fun d =>
                                ViolationEventSaved id (violation_type d)
                                  (location_box d) (v_confidence d)
                                  (severity d))
                           (res_details r)
                     | None => []
                     end).
Proof.
  cbv zeta. split.
  - intros f loc w dets Hd.
    pose proof (loop_body_store env cfg fi f loc w dets Hd) as Hon.
    cbv zeta in Hon. split.
    + intros Hctx Hi. apply Z.leb_le in Hi. rewrite Hi, Hctx in Hon.
      rewrite Hon, flush_events_shape. reflexivity.
    + intros Hi. apply Z.leb_gt in Hi. now rewrite Hi in Hon.
  - intros frames w k f evs. rewrite generate_frames_unfold. intros Hf Hk.
    exact (run_store_shape env cfg fi frames _ _ k f evs Hf Hk).
Qed.

Lemma C5_flush_writes_witness :
  let loc :=
    {| last_frame_time := 1000; last_log_time := 1000;
       snapshot_path := None |} in
  let w := tick (tick (tick (initial_world app_config))) in
  on Store
    (loop_body steady_env app_config 0%Z
       (frame_of ["no-helmet"; "person"; "no-vest"]) loc w).2
  = [FlushStarted 1006 1000;
     ComplianceLogSaved 1 0 2 "2 Violation(s) Detected" None (Some 1%Z);
     ViolationEventSaved 1 "no-helmet" [10; 20; 30; 40]%Z (9 # 10) 3;
     ViolationEventSaved 1 "no-vest" [10; 20; 30; 40]%Z (9 # 10) 2]
  /\ on Store
       (loop_body steady_env app_config 0%Z
          (frame_of ["no-helmet"; "person"; "no-vest"]) loc
          (initial_world app_config)).2
     = [].
Proof.
  split.
  - apply (proj1 (C5_flush_writes steady_env app_config 0%Z)
             (frame_of ["no-helmet"; "person"; "no-vest"])
             {| last_frame_time := 1000; last_log_time := 1000;
                snapshot_path := None |}
             (tick (tick (tick (initial_world app_config))))
             (map det ["no-helmet"; "person"; "no-vest"]) eq_refl).
    + reflexivity.
    + vm_compute. discriminate.
  - apply (proj1 (C5_flush_writes steady_env app_config 0%Z)
             (frame_of ["no-helmet"; "person"; "no-vest"])
             {| last_frame_time := 1000; last_log_time := 1000;
                snapshot_path := None |}
             (initial_world app_config)
             (map det ["no-helmet"; "person"; "no-vest"]) eq_refl).
    vm_compute. reflexivity.
Defined.

(** C6. In a run, a compliance-log insert made during the k-th iteration
    carries the person, worn-PPE and violation counts and the status of the
    k-th frame's own analysis -- the last frame observed -- whatever the
    earlier frames of the interval showed; and it is the only such insert of
    that iteration. *)
Theorem C6_last_frame_wins (env : Env) (cfg : Config) (fi : Z)
    (frames : list Frame) (w : World) (k : nat) (f : Frame)
    (evs : list Event) (p a v : nat) (s : string) (path : option string)
    (result : option Z) :
  let run := generate_frames env cfg (Some (fi, frames)) true w in
  frames !! k = Some f ->
  logs run !! k = Some evs ->
  In (ComplianceLogSaved p a v s path result) evs ->
  (exists dets,
      detect_outcome f = Some dets
      /\ let r := Routes.analyze_frame_for_ppe_status dets in
         p = res_persons r /\ a = res_ppe_worn r
         /\ v = res_violations r /\ s = res_status r)
  /\ compliance_logs evs = [ComplianceLogSaved p a v s path result].
Proof.
  cbv zeta. rewrite generate_frames_unfold. intros Hf Hk Hin.
  apply in_on_store in Hin; [|reflexivity].
  rewrite compliance_logs_on_store.
  destruct (run_store_shape env cfg fi frames _ _ k f evs Hf Hk)
    as [Hnil|[(ct & llt & _ & _ & Hon)
             |(dets & ct & llt & path' & result' & Hd & _ & _ & Hon)]].
  - rewrite Hnil in Hin. destruct Hin.
  - rewrite Hon in Hin. destruct Hin as [Hin|[]]. discriminate.
  - rewrite Hon in *. rewrite compliance_logs_flush_shape.
    unfold flush_shape in Hin. cbn [In] in Hin.
    destruct Hin as [Hin|[Hin|Hin]]; [discriminate| |].
    + injection Hin as <- <- <- <- <- <-. split; [|reflexivity].
      exists dets. auto.
    + destruct result' as [id|]; [|destruct Hin].
      apply in_violation_writes in Hin. destruct Hin as (d & _ & Hd'). discriminate.
Qed.

Lemma C6_last_frame_wins_witness :
  (exists dets,
      detect_outcome (frame_of []) = Some dets
      /\ let r := Routes.analyze_frame_for_ppe_status dets in
         0 = res_persons r /\ 0 = res_ppe_worn r
         /\ 0 = res_violations r /\ "No persons detected" = res_status r)
  /\ compliance_logs (default [] (logs two_frame_run !! 1))
     = [ComplianceLogSaved 0 0 0 "No persons detected" None (Some 1%Z)].
Proof.
  apply (C6_last_frame_wins steady_env app_config 0%Z two_frames
           (initial_world app_config) 1 (frame_of [])).
  - reflexivity.
  - vm_compute. reflexivity.
  - vm_compute. right. left. reflexivity.
Defined.

(** C10. In a run, every violation-event insert of an iteration comes after
    a compliance-log insert of the same iteration that returned an id, and
    carries that id; and when the compliance-log insert of an iteration
    returned no id, that iteration makes no violation-event insert. *)
Theorem C10_violation_writes_follow_log (env : Env) (cfg : Config) (fi : Z)
    (frames : list Frame) (w : World) (k : nat) (f : Frame)
    (evs : list Event) :
  let run := generate_frames env cfg (Some (fi, frames)) true w in
  frames !! k = Some f ->
  logs run !! k = Some evs ->
  (forall id t b c sev,
      In (ViolationEventSaved id t b c sev) evs ->
      exists ct llt p a v s path rest,
        on Store evs
        = FlushStarted ct llt
          :: ComplianceLogSaved p a v s path (Some id) :: rest
        /\ In (ViolationEventSaved id t b c sev) rest)
  /\ (forall p a v s path,
        In (ComplianceLogSaved p a v s path None) evs ->
        forall e, In e evs -> is_violation_write e = false).
Proof.
  cbv zeta. rewrite generate_frames_unfold. intros Hf Hk.
  destruct (run_store_shape env cfg fi frames _ _ k f evs Hf Hk)
    as [Hnil|[(ct & llt & _ & _ & Hon)
             |(dets & ct & llt & path' & result' & Hd & _ & _ & Hon)]].
  - split.
    + intros id t b c sev Hin. apply in_on_store in Hin; [|reflexivity].
      rewrite Hnil in Hin. destruct Hin.
    + intros p a v s path Hin. apply in_on_store in Hin; [|reflexivity].
      rewrite Hnil in Hin. destruct Hin.
  - split.
    + intros id t b c sev Hin. apply in_on_store in Hin; [|reflexivity].
      rewrite Hon in Hin. destruct Hin as [Hin|[]]. discriminate.
    + intros p a v s path Hin. apply in_on_store in Hin; [|reflexivity].
      rewrite Hon in Hin. destruct Hin as [Hin|[]]. discriminate.
  - unfold flush_shape in Hon. split.
    + intros id t b c sev Hin. apply in_on_store in Hin; [|reflexivity].
      rewrite Hon in Hin. cbn [In] in Hin.
      destruct Hin as [Hin|[Hin|Hin]]; [discriminate|discriminate|].
      destruct result' as [id'|]; [|destruct Hin].
      pose proof Hin as Hin'. apply in_violation_writes in Hin'.
      destruct Hin' as (d & _ & Heq). injection Heq as <- _ _ _ _.
      rewrite Hon. eauto 12.
    + intros p a v s path Hin e He.
      apply in_on_store in Hin; [|reflexivity].
      rewrite Hon in Hin. cbn [In] in Hin.
      destruct Hin as [Hin|[Hin|Hin]]; [discriminate| |].
      * injection Hin as _ _ _ _ _ Hr. subst result'.
        destruct (is_violation_write e) eqn:Hv; [|reflexivity].
        assert (In e (on Store evs)) as Hs
          by (apply in_on_store; [assumption | now destruct e]).
        rewrite Hon in Hs. cbn [In] in Hs.
        destruct Hs as [<-|[<-|[]]]; discriminate.
      * destruct result' as [id'|]; [|destruct Hin].
        apply in_violation_writes in Hin. destruct Hin as (d & _ & Heq).
        discriminate.
Qed.

Lemma C10_violation_writes_follow_log_witness :
  (exists ct llt p a v s path rest,
      on Store (default [] (logs (run_of steady_env late_violation) !! 1))
      = FlushStarted ct llt
        :: ComplianceLogSaved p a v s path (Some 1%Z) :: rest
      /\ In (ViolationEventSaved 1 "no-helmet" [10; 20; 30; 40]%Z (9 # 10) 3)
           rest)
  /\ (forall e,
        In e (default [] (logs (run_of failing_store_env late_violation) !! 1)) ->
        is_violation_write e = false).
Proof.
  split.
  - apply (C10_violation_writes_follow_log steady_env app_config 0%Z
             late_violation (initial_world app_config) 1
             (frame_of ["no-helmet"])
             (default [] (logs (run_of steady_env late_violation) !! 1))).
    + reflexivity.
    + vm_compute. reflexivity.
    + vm_compute. right. right. left. reflexivity.
  - apply (C10_violation_writes_follow_log failing_store_env app_config 0%Z
             late_violation (initial_world app_config) 1
             (frame_of ["no-helmet"])
             (default [] (logs (run_of failing_store_env late_violation) !! 1)))
      with (p := 0) (a := 0) (v := 1) (s := "1 Violation(s) Detected")
           (path := None).
    + reflexivity.
    + vm_compute. reflexivity.
    + vm_compute. right. left. reflexivity.
Defined.

(** C7 on the repository's own route. [video_feed] passes the generator
    to [Response] without [stream_with_context], so its body runs without an
    application context. On a stream of three frames whose second is
    processed once the interval has elapsed, the flush raises before any
    insert: nothing is written, the window is not restarted, the error is
    logged and the stream ends, so the third frame is never read. With an
    application context the same stream is flushed on the second frame, the
    window restarts there, and the third frame is flushed an interval
    later. *)
Theorem C7_window_lost_without_context :
  let frames := [frame_of []; frame_of ["no-helmet"]; frame_of []] in
  let run := run_of route_env frames in
  logs run
  = [[FrameYielded];
     [FlushStarted 1008 1002; ErrorLogged "Error during frame generation"]]
  /\ ending run = FlushError
  /\ log_calls (final run) = 0
  /\ logs run !! 2 = None
  /\ map (on Store) (logs (run_of steady_env frames))
     = [[];
        [FlushStarted 1008 1002;
         ComplianceLogSaved 0 0 1 "1 Violation(s) Detected" None (Some 1%Z);
         ViolationEventSaved 1 "no-helmet" [10; 20; 30; 40]%Z (9 # 10) 3];
        [FlushStarted 1018 1008;
         ComplianceLogSaved 0 0 0 "No persons detected" None (Some 2%Z)]].
Proof. vm_compute. repeat split; reflexivity. Qed.

(** X18. With an application context in place, an iteration flushes exactly
    when the interval has elapsed since the start of the window; it then
    makes a single compliance-log insert and the next window starts at the
    current time, whatever the store answers -- an id or none. Otherwise
    the window start is kept and nothing is written. With a non-negative
    interval, two flush attempts of a run are at least an interval apart,
    with or without an application context. *)
Theorem X18_flush_rotates_window (env : Env) (cfg : Config) (fi : Z) :
  let interval := LOG_INTERVAL_SECONDS cfg in
  (app_context env = true ->
   forall (f : Frame) (loc : Locals) (w : World) (dets : list Detection),
      detect_outcome f = Some dets ->
      let ct := clock env (clock_reads w) in
      let run := loop_body env cfg fi f loc w in
      exists loc',
        run.1.1 = Next loc'
        /\ ((interval <= ct - last_log_time loc)%Z ->
            last_log_time loc' = ct
            /\ exists p a v s path,
                 compliance_logs run.2
                 = [ComplianceLogSaved p a v s path
                      (compliance_log_outcome env (log_calls w))])
        /\ ((ct - last_log_time loc < interval)%Z ->
            last_log_time loc' = last_log_time loc
            /\ on Store run.2 = []))
  /\ ((0 <= interval)%Z ->
      forall (frames : list Frame) (w : World) (i j : nat)
             (evi evj : list Event) (cti llti ctj lltj : Z),
        let run := generate_frames env cfg (Some (fi, frames)) true w in
        logs run !! i = Some evi -> logs run !! j = Some evj -> i < j ->
        In (FlushStarted cti llti) evi -> In (FlushStarted ctj lltj) evj ->
        (interval <= ctj - cti)%Z).
Proof.
  cbv zeta. split.
  - intros Hctx f loc w dets Hd.
    pose proof (loop_body_store env cfg fi f loc w dets Hd) as Hon.
    cbv zeta in Hon. rewrite Hctx in Hon.
    assert (Hb : flush_blocked env cfg loc w = false)
      by (unfold flush_blocked; now rewrite Hctx).
    destruct (loop_body_snapshot env cfg fi f loc w dets Hd) as (_ & _ & Hflow).
    rewrite Hb in Hflow. destruct Hflow as (loc' & Hn).
    pose proof (loop_body_window env cfg fi f loc loc' w dets Hd Hn) as Hl.
    exists loc'. split; [assumption|]. split.
    + intros Hi. apply Z.leb_le in Hi. rewrite Hi in Hon, Hl.
      split; [assumption|].
      rewrite compliance_logs_on_store, Hon, flush_events_shape,
        compliance_logs_flush_shape. do 5 eexists. reflexivity.
    + intros Hi. apply Z.leb_gt in Hi. rewrite Hi in Hon, Hl. auto.
  - intros H0 frames w i j evi evj cti llti ctj lltj.
    rewrite generate_frames_unfold. now apply flushes_spaced.
Qed.

Lemma X18_flush_rotates_window_witness :
  (exists loc',
      (loop_body failing_store_env app_config 0%Z (frame_of ["no-helmet"])
         {| last_frame_time := 0; last_log_time := 1000; snapshot_path := None |}
         (tick (tick (tick (initial_world app_config))))).1.1 = Next loc'
      /\ last_log_time loc' = 1006%Z)
  /\ (forall (frames : list Frame) (w : World) (i j : nat)
             (evi evj : list Event) (cti llti ctj lltj : Z),
        let run := generate_frames steady_env app_config (Some (0%Z, frames)) true w in
        logs run !! i = Some evi -> logs run !! j = Some evj -> i < j ->
        In (FlushStarted cti llti) evi -> In (FlushStarted ctj lltj) evj ->
        (5 <= ctj - cti)%Z).
Proof.
  split.
  - destruct (proj1 (X18_flush_rotates_window failing_store_env app_config 0%Z)
                eq_refl
                (frame_of ["no-helmet"])
                {| last_frame_time := 0; last_log_time := 1000;
                   snapshot_path := None |}
                (tick (tick (tick (initial_world app_config))))
                (map det ["no-helmet"]) eq_refl)
      as (loc' & Hn & Hflush & _).
    exists loc'. split; [exact Hn|]. apply Hflush. vm_compute. discriminate.
  - apply (proj2 (X18_flush_rotates_window steady_env app_config 0%Z)).
    vm_compute. discriminate.
Defined.

(** ** Alert dispatch *)




Section Dispatcher.

Variable env : Env.
Variable cfg : Config.
Variable v_type : string.

Hypothesis clock_monotone : forall n, (clock env n <= clock env (S n))%Z.







End Dispatcher.

(** ** Alert texts *)

Lemma format_single (d : ViolationDetail) (ts : string) :
  format_alert_message [d] ts
  = ("InjuryShield ALERT at " +:+ ts +:+ ":") +:+ nl
    +:+ "- 1x " +:+ Str.replace (violation_type d) "no-" "missing " +:+ nl
    +:+ "Immediate action required.".
Proof. reflexivity. Qed.

Lemma single_helmet_text (d : ViolationDetail) (ts : string) :
  violation_type d = "no-helmet" ->
  Str.contains (format_alert_message [d] ts) "1x missing helmet" = true.
Proof.
  intros Hty. rewrite format_single, Hty.
  replace (("InjuryShield ALERT at " +:+ ts +:+ ":") +:+ nl
           +:+ "- 1x " +:+ Str.replace "no-helmet" "no-" "missing " +:+ nl
           +:+ "Immediate action required.")
    with (("InjuryShield ALERT at " +:+ ts +:+ ":" +:+ nl +:+ "- ")
          +:+ "1x missing helmet" +:+ (nl +:+ "Immediate action required.")).
  - apply contains_append.
  - rewrite !append_assoc. reflexivity.
Qed.

Lemma sms_absent (body : string) (ok : bool) (evs : list Event) :
  Forall (fun e => channel e <> Alert) evs -> ~ In (SmsSent body ok) evs.
Proof.
  intros Hall Hin. rewrite Forall_forall in Hall.
  apply list_elem_of_In, Hall in Hin. now apply Hin.
Qed.

Section Messages.

Variable env : Env.
Variable cfg : Config.

Lemma alert_each_bodies (ds : list ViolationDetail) :
  forall (w : World) (body : string) (ok : bool),
    In (SmsSent body ok) (alert_each env ds w).2 ->
    exists d n, In d ds
      /\ body = format_alert_message [d] (strftime env (clock env n)).
Proof.
  induction ds as [|d ds IH]; intros w body ok Hin; [destruct Hin|].
  cbn [alert_each] in Hin. unfold bind in Hin. cbn [snd] in Hin.
  apply in_app_or in Hin. destruct Hin as [Hin|Hin].
  - rewrite alert_one_run in Hin. cbv zeta in Hin.
    destruct (_ <=? _)%Z; cbn [snd In] in Hin.
    + destruct Hin as [Hin|[Hin|[Hin|[]]]]; try discriminate.
      injection Hin as <- _. exists d. eexists. split; [now left | reflexivity].
    + destruct Hin as [Hin|[]]. discriminate.
  - apply IH in Hin. destruct Hin as (d' & ts & Hd' & ->).
    exists d', ts. split; [now right | reflexivity].
Qed.

Lemma loop_body_bodies (fi : Z) (f : Frame) (loc : Locals) (w : World)
    (dets : list Detection) (body : string) (ok : bool) :
  detect_outcome f = Some dets ->
  In (SmsSent body ok) (loop_body env cfg fi f loc w).2 ->
  exists d n,
    In d (res_details (Routes.analyze_frame_for_ppe_status dets))
    /\ body = format_alert_message [d] (strftime env (clock env n)).
Proof.
  intros Hd Hin.
  destruct (loop_body_alert_split env cfg fi f loc w dets Hd)
    as (pre & alerts & post & Hev & Hpre & Hpost & Halerts).
  cbv zeta in Halerts. rewrite Hev in Hin.
  apply in_app_or in Hin. destruct Hin as [Hin|Hin];
    [now apply sms_absent in Hin|].
  apply in_app_or in Hin. destruct Hin as [Hin|Hin];
    [|now apply sms_absent in Hin].
  destruct Halerts as [->|(w3 & ->)]; [destruct Hin|].
  unfold sms_alerting in Hin.
  destruct (0 <? _)%nat; [|destruct Hin].
  now apply alert_each_bodies in Hin.
Qed.

(** In a run, a text sent during the k-th iteration was formatted from a
    single violation detail of the k-th frame. *)
Lemma run_bodies (fi : Z) (frames : list Frame) :
  forall (loc : Locals) (w : World) (k : nat) (f : Frame)
         (evs : list Event) (body : string) (ok : bool),
    frames !! k = Some f ->
    logs (frame_loop env cfg fi frames loc w) !! k = Some evs ->
    In (SmsSent body ok) evs ->
    exists dets d n,
      detect_outcome f = Some dets
      /\ In d (res_details (Routes.analyze_frame_for_ppe_status dets))
      /\ body = format_alert_message [d] (strftime env (clock env n)).
Proof.
  induction frames as [|f0 rest IH]; intros loc w k f evs body ok Hf Hk Hin.
  - destruct k; discriminate.
  - destruct (frame_loop_cases env cfg fi f0 rest loc w)
      as [(dets & loc' & Hd & Hnext & Hrun)|[(Hd & Hrun)|(dets & Hd & Hb & Hrun)]];
      rewrite Hrun in Hk; cbv zeta in Hk; cbn [logs] in Hk.
    + destruct k as [|k]; cbn in Hf, Hk.
      * injection Hf as <-. injection Hk as <-.
        destruct (loop_body_bodies fi f0 loc w dets body ok Hd Hin)
          as (d & n & Hd' & ->).
        exists dets, d, n. auto.
      * eapply IH; eassumption.
    + destruct k as [|[|k]]; cbn in Hk; try discriminate.
      injection Hk as <-. destruct Hin as [Hin|[]]. discriminate.
    + destruct k as [|[|k]]; cbn in Hf, Hk; try discriminate.
      injection Hf as <-. injection Hk as <-.
      apply in_error_logged in Hin; [|discriminate].
      destruct (loop_body_bodies fi f0 loc w dets body ok Hd Hin)
        as (d & n & Hd' & ->).
      exists dets, d, n. auto.
Qed.






End Messages.

(** C9, as stated, fails: a frame with two no-helmet events and one no-vest
    event leads to two texts, one per type that has cooled down, each
    formatted from a single event. Neither carries the count 2 that the
    batch holds for no-helmet, and the first does not mention the vest. *)
Lemma C9_batch_not_aggregated_counterexample :
  let evs := default [] (logs (run_of steady_env [crowded_frame]) !! 0) in
  let batch :=
    res_details
      (Routes.analyze_frame_for_ppe_status
         (map det ["no-helmet"; "no-helmet"; "no-vest"])) in
  sms_bodies evs
  = [format_alert_message [Routes.make_detail (det "no-helmet")] "1008";
     format_alert_message [Routes.make_detail (det "no-vest")] "1016"]
  /\ Forall (fun b => Str.contains b "2x missing helmet" = false)
       (sms_bodies evs)
  /\ Str.contains (format_alert_message batch "1008") "2x missing helmet" = true
  /\ Str.contains (format_alert_message batch "1008") "1x missing vest" = true
  /\ Str.contains
       (format_alert_message [Routes.make_detail (det "no-helmet")] "1008")
       "missing vest" = false.
Proof. vm_compute. repeat split; repeat constructor. Qed.

(** C9, amended. In a run, every text handed to the gateway during the k-th
    iteration is built from one violation detail of the k-th frame: a header
    line with the rendered time of a clock reading, the single bullet
    "- 1x" followed by the detail's type with every "no-" replaced by
    "missing ", and the closing line; for a no-helmet detail the text
    contains "1x missing helmet". *)
Theorem C9_alert_text (env : Env) (cfg : Config) (fi : Z)
    (frames : list Frame) (w : World) (k : nat) (f : Frame)
    (evs : list Event) (body : string) (ok : bool) :
  let run := generate_frames env cfg (Some (fi, frames)) true w in
  frames !! k = Some f ->
  logs run !! k = Some evs ->
  In (SmsSent body ok) evs ->
  exists dets d n,
    detect_outcome f = Some dets
    /\ In d (res_details (Routes.analyze_frame_for_ppe_status dets))
    /\ body
       = ("InjuryShield ALERT at " +:+ strftime env (clock env n) +:+ ":")
         +:+ nl +:+ "- 1x "
         +:+ Str.replace (violation_type d) "no-" "missing " +:+ nl
         +:+ "Immediate action required."
    /\ (violation_type d = "no-helmet" ->
        Str.contains body "1x missing helmet" = true).
Proof.
  cbv zeta. rewrite generate_frames_unfold. intros Hf Hk Hin.
  destruct (run_bodies env cfg fi frames _ _ k f evs body ok Hf Hk Hin)
    as (dets & d & n & Hd & Hin' & ->).
  exists dets, d, n. repeat split; auto.
  intros Hty. now apply single_helmet_text.
Qed.

Lemma C9_alert_text_witness :
  exists dets d n,
    detect_outcome (frame_of ["no-helmet"]) = Some dets
    /\ In d (res_details (Routes.analyze_frame_for_ppe_status dets))
    /\ format_alert_message [Routes.make_detail (det "no-helmet")] "1008"
       = ("InjuryShield ALERT at " +:+ strftime steady_env (clock steady_env n)
          +:+ ":")
         +:+ nl +:+ "- 1x "
         +:+ Str.replace (violation_type d) "no-" "missing " +:+ nl
         +:+ "Immediate action required."
    /\ (violation_type d = "no-helmet" ->
        Str.contains
          (format_alert_message [Routes.make_detail (det "no-helmet")] "1008")
          "1x missing helmet" = true).
Proof.
  apply (C9_alert_text steady_env app_config 0%Z two_frames
           (initial_world app_config) 0 (frame_of ["no-helmet"])
           (default [] (logs two_frame_run !! 0))
           (format_alert_message [Routes.make_detail (det "no-helmet")] "1008")
           true).
  - reflexivity.
  - vm_compute. reflexivity.
  - vm_compute. right. left. reflexivity.
Defined.

(** ** A detector exception *)

Lemma frame_loop_stops_at_raise (env : Env) (cfg : Config) (fi : Z)
    (f : Frame) (post : list Frame) (pre : list Frame) :
  detect_outcome f = None ->
  forall (loc : Locals) (w : World),
    let run := frame_loop env cfg fi (pre ++ f :: post) loc w in
    let before := frame_loop env cfg fi pre loc w in
    ending before = EndOfStream ->
    logs run = logs before ++ [[ErrorLogged "Error during frame generation"]]
    /\ final run = final before
    /\ ending run = DetectorError
    /\ length (logs before) = length pre.
Proof.
  intros Hf. induction pre as [|g pre IH]; intros loc w; cbv zeta.
  - intros _. cbn [app].
    rewrite (frame_loop_cons_raised env cfg fi f post loc w Hf).
    cbn. auto.
  - cbn [app].
    destruct (frame_loop_cases env cfg fi g pre loc w)
      as [(dets & loc' & Hd & Hnext & Hrun)|[(Hd & Hrun)|(dets & Hd & Hb & Hrun)]];
      rewrite Hrun; cbv zeta; cbn [ending]; [|discriminate|discriminate].
    intros Hend.
    rewrite (frame_loop_cons_next env cfg fi g (pre ++ f :: post) loc loc' w
               Hnext).
    cbv zeta. cbn [logs final ending length].
    destruct (IH loc' (loop_body env cfg fi g loc w).1.2 Hend)
      as (Hl & Hfin & He & Hlen).
    rewrite Hl, Hfin, He, Hlen. auto.
Qed.

(** C1, as stated, fails: when the detector raises on the first of two
    frames, the run ends there. The second frame gets no iteration, whereas
    a run that saw an empty detection list on the first frame goes on to
    process the second. *)
Lemma C1_stream_terminated_counterexample :
  let run := run_of steady_env [raising_frame; frame_of ["no-helmet"]] in
  let claimed := run_of steady_env [frame_of []; frame_of ["no-helmet"]] in
  logs run = [[ErrorLogged "Error during frame generation"]]
  /\ ending run = DetectorError
  /\ logs run !! 1 = None
  /\ length (logs claimed) = 2
  /\ ending claimed = EndOfStream
  /\ logs run <> logs claimed.
Proof.
  vm_compute. repeat split; try reflexivity. discriminate.
Qed.

(** C1, amended. When the detector raises on a frame the loop gets to --
    the run over the frames before it went through to their end -- the
    handler around the loop logs the error and the generator ends there
    without an exception reaching its caller: the run is the run over the
    frames before it followed by the logged error, the frame is not
    analysed, and no later frame is read, whatever the stream still
    holds. *)
Theorem C1_detector_error_ends_stream (env : Env) (cfg : Config) (fi : Z)
    (pre : list Frame) (f : Frame) (post : list Frame) (w : World) :
  detect_outcome f = None ->
  Forall (fun g => detect_outcome g <> None) pre ->
  let run := generate_frames env cfg (Some (fi, pre ++ f :: post)) true w in
  let before := generate_frames env cfg (Some (fi, pre)) true w in
  ending before = EndOfStream ->
  logs run = logs before ++ [[ErrorLogged "Error during frame generation"]]
  /\ final run = final before
  /\ ending run = DetectorError
  /\ length (logs run) = S (length pre).
Proof.
  intros Hf Hpre. cbv zeta. rewrite !generate_frames_unfold. intros Hend.
  destruct (frame_loop_stops_at_raise env cfg fi f post pre Hf
              {| last_frame_time := clock env (clock_reads w);
                 last_log_time := clock env (S (clock_reads w));
                 snapshot_path := None |} (tick (tick w)) Hend)
    as (Hl & Hfin & He & Hlen).
  repeat split; try assumption.
  rewrite Hl, length_app, Hlen. cbn [length]. lia.
Qed.

Lemma C1_detector_error_ends_stream_witness :
  let run :=
    generate_frames steady_env app_config
      (Some (0%Z, [frame_of ["no-helmet"]] ++ raising_frame :: [frame_of []]))
      true (initial_world app_config) in
  let before :=
    generate_frames steady_env app_config
      (Some (0%Z, [frame_of ["no-helmet"]])) true (initial_world app_config) in
  logs run = logs before ++ [[ErrorLogged "Error during frame generation"]]
  /\ final run = final before
  /\ ending run = DetectorError
  /\ length (logs run) = 2.
Proof.
  apply (C1_detector_error_ends_stream steady_env app_config 0%Z
           [frame_of ["no-helmet"]] raising_frame [frame_of []]
           (initial_world app_config)).
  - reflexivity.
  - repeat constructor. discriminate.
  - vm_compute. reflexivity.
Defined.



(** * Further properties of the code *)

(** ** Frame analysis: what is counted *)

Lemma one_category (d : Detection) :
  (if is_person (class_name d) then 1 else 0)
  + (if Routes.is_worn_ppe (class_name d) then 1 else 0)
  + (if is_violation d then 1 else 0) <= 1.
Proof.
  unfold is_person, is_violation.
  destruct (bool_decide (class_name d = "person")) eqn:Hp.
  - apply bool_decide_eq_true_1 in Hp. rewrite Hp. vm_compute. lia.
  - destruct (Routes.is_worn_ppe (class_name d)) eqn:Hw.
    + unfold Routes.is_worn_ppe in Hw. apply bool_decide_eq_true_1 in Hw.
      apply list_elem_of_In in Hw. cbn [In] in Hw.
      destruct Hw as [<-|[<-|[<-|[]]]]; vm_compute; lia.
    + destruct (Str.startswith (class_name d) "no-"); lia.
Qed.

Lemma categories_bounded (detections : list Detection) :
  count_class is_person detections
  + count_class Routes.is_worn_ppe detections
  + length (List.filter is_violation detections) <= length detections.
Proof.
  unfold count_class. induction detections as [|d rest IH]; [reflexivity|].
  cbn [List.filter length]. pose proof (one_category d) as H1.
  destruct (is_person (class_name d)), (Routes.is_worn_ppe (class_name d)),
    (is_violation d); cbn [length] in *; lia.
Qed.

(** X1. The analysis counts the detections named "person", those named
    helmet, vest or gloves, and those whose name starts with "no-"; no
    detection is counted twice, so the three counts never add up to more
    than the number of detections. *)
Theorem X1_analysis_counts (detections : list Detection) :
  let r := Routes.analyze_frame_for_ppe_status detections in
  res_persons r = count_class is_person detections
  /\ res_ppe_worn r = count_class Routes.is_worn_ppe detections
  /\ res_violations r = count_class (fun c => Str.startswith c "no-") detections
  /\ res_persons r + res_ppe_worn r + res_violations r <= length detections.
Proof.
  cbv zeta. pose proof (categories_bounded detections) as Hb.
  unfold Routes.analyze_frame_for_ppe_status.
  rewrite count_step1_spec, collect_violations_spec.
  unfold res_persons, res_ppe_worn, res_violations. cbn [fst snd].
  repeat split; try reflexivity. lia.
Qed.

(** X2. Analysing two detection lists joined together gives the sums of
    the three counts and the violation details of the first list followed
    by those of the second. *)
Theorem X2_analysis_of_joined_lists (a b : list Detection) :
  let r := Routes.analyze_frame_for_ppe_status (a ++ b) in
  let ra := Routes.analyze_frame_for_ppe_status a in
  let rb := Routes.analyze_frame_for_ppe_status b in
  res_persons r = res_persons ra + res_persons rb
  /\ res_ppe_worn r = res_ppe_worn ra + res_ppe_worn rb
  /\ res_violations r = res_violations ra + res_violations rb
  /\ res_details r = res_details ra ++ res_details rb.
Proof.
  cbv zeta. unfold Routes.analyze_frame_for_ppe_status.
  rewrite !count_step1_spec, !collect_violations_spec.
  unfold res_persons, res_ppe_worn, res_violations, res_details, count_class.
  cbn [fst snd]. rewrite !List.filter_app, !length_app, map_app.
  repeat split; lia.
Qed.

(** X3. The copy of the analysis kept in detector.py and the one in
    routes.py return the same three counts and, detail by detail, the same
    violation type, box and confidence. They differ in two places: the
    older copy sets every severity to 1, and on a frame with persons and no
    violation it reports "Compliant (All persons wearing detected PPE)"
    where routes.py reports "Compliant (Persons detected, no violations)";
    on every other frame the two status messages are the same. *)
Theorem X3_analysis_copies_agree (detections : list Detection) :
  let r := Routes.analyze_frame_for_ppe_status detections in
  let r' := Detector.analyze_frame_for_ppe_status detections in
  res_persons r' = res_persons r
  /\ res_ppe_worn r' = res_ppe_worn r
  /\ res_violations r' = res_violations r
  /\ map detail_core (res_details r') = map detail_core (res_details r)
  /\ Forall (fun d => severity d = 1) (res_details r')
  /\ res_status r'
     = (if (res_violations r =? 0)%nat && (0 <? res_persons r)%nat
        then "Compliant (All persons wearing detected PPE)"
        else res_status r)
  /\ (res_status r' <> res_status r
      <-> res_violations r = 0 /\ 0 < res_persons r).
Proof.
  cbv zeta.
  assert (Hcounts :
            res_persons (Detector.analyze_frame_for_ppe_status detections)
            = res_persons (Routes.analyze_frame_for_ppe_status detections)
            /\ res_ppe_worn (Detector.analyze_frame_for_ppe_status detections)
               = res_ppe_worn (Routes.analyze_frame_for_ppe_status detections)
            /\ res_violations (Detector.analyze_frame_for_ppe_status detections)
               = res_violations (Routes.analyze_frame_for_ppe_status detections)
            /\ map detail_core
                 (res_details (Detector.analyze_frame_for_ppe_status detections))
               = map detail_core
                   (res_details (Routes.analyze_frame_for_ppe_status detections))
            /\ Forall (fun d => severity d = 1)
                 (res_details (Detector.analyze_frame_for_ppe_status detections))).
  { unfold Routes.analyze_frame_for_ppe_status,
      Detector.analyze_frame_for_ppe_status.
    rewrite count_step1_spec, collect_violations_spec, detector_scan_spec.
    unfold res_persons, res_ppe_worn, res_violations, res_details.
    cbn [fst snd app]. repeat split.
    - rewrite !map_map. reflexivity.
    - apply Forall_forall. intros d Hin.
      apply list_elem_of_In, in_map_iff in Hin.
      now destruct Hin as [x [<- _]]. }
  destruct Hcounts as (Hp & Ha & Hv & Hd & Hsev).
  repeat (split; [assumption|]).
  rewrite detector_analyze_status, analyze_status, Hp, Hv.
  unfold Detector.status_of, Routes.status_of.
  destruct (res_violations (Routes.analyze_frame_for_ppe_status detections))
    as [|v];
    [destruct (res_persons (Routes.analyze_frame_for_ppe_status detections))
       as [|p]|]; cbn.
  - split; [reflexivity|]. split; [congruence | lia].
  - split; [reflexivity|]. split; [intros _; split; lia | discriminate].
  - split; [reflexivity|]. split; [congruence | lia].
Qed.

(** ** The aggregation behind an alert text *)

Lemma bump_keys (k : string) (summary : list (string * nat)) :
  map fst (bump k summary)
  = if decide (k ∈ map fst summary)
    then map fst summary else map fst summary ++ [k].
Proof.
  induction summary as [|[k' c] rest IH].
  - cbn. destruct (decide (k ∈ [])) as [H|_]; [|reflexivity].
    now apply elem_of_nil in H.
  - cbn [bump map fst].
    destruct (bool_decide (k' = k)) eqn:Hk.
    + apply bool_decide_eq_true_1 in Hk. subst k'.
      destruct (decide (k ∈ k :: map fst rest)) as [_|H]; [reflexivity|].
      contradiction H. apply list_elem_of_here.
    + apply bool_decide_eq_false_1 in Hk. cbn [map fst]. rewrite IH.
      destruct (decide (k ∈ map fst rest)) as [Hin|Hin];
        destruct (decide (k ∈ k' :: map fst rest)) as [Hin'|Hin'];
        try reflexivity.
      * contradiction Hin'. now apply list_elem_of_further.
      * apply elem_of_cons in Hin'. destruct Hin' as [->|?]; contradiction.
Qed.

Lemma bump_nodup (k : string) (summary : list (string * nat)) :
  NoDup (map fst summary) -> NoDup (map fst (bump k summary)).
Proof.
  intros Hnd. rewrite bump_keys.
  destruct (decide (k ∈ map fst summary)) as [Hin|Hin]; [assumption|].
  apply NoDup_app. repeat split; [assumption| |apply NoDup_singleton].
  intros x Hx Hx'. apply list_elem_of_singleton in Hx'. now subst x.
Qed.

Lemma held_bump (t k : string) (summary : list (string * nat)) :
  held t (bump k summary)
  = held t summary + (if bool_decide (k = t) then 1 else 0).
Proof.
  induction summary as [|[k' c] rest IH].
  - cbn. destruct (bool_decide (k = t)); reflexivity.
  - cbn [bump]. destruct (bool_decide (k' = k)) eqn:Hk.
    + apply bool_decide_eq_true_1 in Hk. subst k'. cbn [held].
      destruct (bool_decide (k = t)); lia.
    + apply bool_decide_eq_false_1 in Hk. cbn [held]. rewrite IH.
      destruct (bool_decide (k' = t)) eqn:Hk'; [|reflexivity].
      apply bool_decide_eq_true_1 in Hk'. subst k'.
      rewrite bool_decide_eq_false_2 by congruence. lia.
Qed.

Lemma bump_positive (k : string) (summary : list (string * nat)) :
  Forall (fun e => 0 < e.2) summary ->
  Forall (fun e => 0 < e.2) (bump k summary).
Proof.
  induction 1 as [|[k' c] rest Hc Hrest IH]; cbn [bump].
  - repeat constructor.
  - destruct (bool_decide (k' = k)); constructor; cbn in *; auto; lia.
Qed.

Lemma summarize_from (details : list ViolationDetail) :
  forall acc : list (string * nat),
    NoDup (map fst acc) -> Forall (fun e => 0 < e.2) acc ->
    let s := fold_left (fun acc detail => bump (violation_type detail) acc)
               details acc in
    NoDup (map fst s)
    /\ Forall (fun e => 0 < e.2) s
    /\ forall t, held t s = held t acc + occurrences t details.
Proof.
  induction details as [|d rest IH]; intros acc Hnd Hpos; cbv zeta.
  - cbn. repeat split; auto.
  - cbn [fold_left].
    destruct (IH (bump (violation_type d) acc)) as (H1 & H2 & H3);
      [now apply bump_nodup | now apply bump_positive |].
    cbv zeta in *. repeat split; auto.
    intros t. rewrite H3, held_bump. unfold occurrences.
    cbn [List.filter]. destruct (bool_decide (violation_type d = t));
      cbn [length]; lia.
Qed.

Lemma held_of_entry (t : string) (c : nat) (summary : list (string * nat)) :
  NoDup (map fst summary) -> In (t, c) summary -> held t summary = c.
Proof.
  induction summary as [|[k c'] rest IH]; intros Hnd Hin; [destruct Hin|].
  cbn [map fst] in Hnd. apply NoDup_cons in Hnd as [Hk Hnd].
  cbn [held]. destruct Hin as [Heq|Hin].
  - injection Heq as -> ->. now rewrite bool_decide_eq_true_2.
  - rewrite bool_decide_eq_false_2; [now apply IH|].
    intros ->. apply Hk. apply list_elem_of_In, in_map_iff.
    now exists (t, c).
Qed.

Lemma entry_of_held (t : string) (summary : list (string * nat)) :
  0 < held t summary -> In (t, held t summary) summary.
Proof.
  induction summary as [|[k c] rest IH]; cbn [held]; [lia|].
  destruct (bool_decide (k = t)) eqn:Hk.
  - apply bool_decide_eq_true_1 in Hk. subst k. now left.
  - intros H. right. now apply IH.
Qed.

(** X4. The summary behind an alert text has one entry per violation type
    that occurs among the details, and the entry holds the number of
    details of that type. For an empty list of details the text is the
    fixed sentence "No violations detected.". *)
Theorem X4_alert_summary (details : list ViolationDetail) :
  NoDup (map fst (summarize details))
  /\ (forall t c,
        In (t, c) (summarize details)
        <-> c = occurrences t details /\ 0 < c)
  /\ (forall ts, format_alert_message [] ts = "No violations detected.").
Proof.
  destruct (summarize_from details []) as (Hnd & Hpos & Hheld);
    [constructor | constructor |].
  cbv zeta in *. fold (summarize details) in *.
  split; [assumption|]. split; [|reflexivity].
  intros t c. split.
  - intros Hin. pose proof (held_of_entry t c _ Hnd Hin) as Hc.
    rewrite Hheld in Hc. cbn [held] in Hc. split; [lia|].
    rewrite Forall_forall in Hpos.
    apply list_elem_of_In, Hpos in Hin. exact Hin.
  - intros [-> Hc]. specialize (Hheld t). cbn [held] in Hheld.
    rewrite Nat.add_0_l in Hheld. rewrite <- Hheld in *.
    now apply entry_of_held.
Qed.

(** ** The label of a violation type *)

Lemma replace_go_absent (old new s : string) :
  Str.contains s old = false -> Str.replace_go old new 0 s = s.
Proof.
  induction s as [|c s IH]; [reflexivity|].
  cbn [Str.contains]. intros H. apply orb_false_elim in H as [Hp Hc].
  cbn [Str.replace_go]. rewrite Hp. f_equal. now apply IH.
Qed.

(** X5. A type in which "no-" does not occur is its own label; and a
    violation type made of "no-" and a rest in which "no-" does not occur
    again is labelled "missing " followed by that rest. *)
Theorem X5_label_of_type (x : string) :
  Str.contains x "no-" = false ->
  Str.replace x "no-" "missing " = x
  /\ Str.replace ("no-" +:+ x) "no-" "missing " = "missing " +:+ x.
Proof.
  intros Habs. unfold Str.replace. split.
  - now apply replace_go_absent.
  - change ("no-" +:+ x) with (String "n" (String "o" (String "-" x))).
    cbn [Str.replace_go String.length Nat.sub].
    assert (Hp : String.prefix "no-" (String "n" (String "o" (String "-" x)))
                 = true) by (cbn; now destruct x).
    rewrite Hp. now rewrite replace_go_absent.
Qed.

Lemma X5_label_of_type_witness :
  Str.replace "helmet" "no-" "missing " = "helmet"
  /\ Str.replace ("no-" +:+ "helmet") "no-" "missing " = "missing " +:+ "helmet".
Proof. apply (X5_label_of_type "helmet"). reflexivity. Defined.

(** ** The table of last alert times *)

(** X6. An alert attempt for one violation type leaves the last alert time
    of every other type as it was, so types cool down independently; and a
    type that has no entry yet is measured from time 0: the attempt sends
    exactly when the clock reading is at least the cooldown. *)
Theorem X6_cooldown_per_type (env : Env) (d : ViolationDetail) (w : World) :
  let r := alert_one env d w in
  (forall t, t <> violation_type d -> last_of r.1.2 t = last_of w t)
  /\ (last_alert_time (alert_manager w) !! violation_type d = None ->
      length (sms_bodies r.2)
      = if (cooldown_of w <=? clock env (clock_reads w))%Z then 1 else 0).
Proof.
  cbv zeta. rewrite alert_one_run. cbv zeta. split.
  - intros t Ht. destruct (_ <=? _)%Z; cbn [fst snd].
    + rewrite last_of_with_last.
      destruct (decide (violation_type d = t)); [congruence|].
      change (last_of (tick (count_sms (tick (touch (violation_type d) (tick w))))) t)
        with (last_of (touch (violation_type d) (tick w)) t).
      now rewrite last_of_touch.
    + now rewrite last_of_touch.
  - intros Hnone. unfold last_of at 1. rewrite Hnone. cbn [default from_option].
    rewrite Z.sub_0_r. destruct (_ <=? _)%Z; reflexivity.
Qed.

Lemma X6_cooldown_per_type_witness :
  let d := Routes.make_detail (det "no-helmet") in
  let w := initial_world app_config in
  let r := alert_one steady_env d w in
  last_of r.1.2 "no-vest" = last_of w "no-vest"
  /\ length (sms_bodies r.2) = 1.
Proof.
  cbv zeta.
  destruct (X6_cooldown_per_type steady_env
              (Routes.make_detail (det "no-helmet"))
              (initial_world app_config)) as (H1 & H2).
  split.
  - apply H1. discriminate.
  - apply H2. reflexivity.
Defined.

Lemma touch_types (v_type : string) (w : World) :
  alerted_types (touch v_type w) = {[v_type]} ∪ alerted_types w.
Proof.
  unfold touch, alerted_types.
  destruct (last_alert_time (alert_manager w) !! v_type) eqn:Hl; cbn.
  - symmetry. apply subseteq_union_1_L, singleton_subseteq_l, elem_of_dom.
    eauto.
  - now rewrite dom_insert_L.
Qed.

Lemma with_last_types (v_type : string) (t : Z) (w : World) :
  alerted_types (with_last v_type t w) = {[v_type]} ∪ alerted_types w.
Proof. unfold with_last, alerted_types. cbn. now rewrite dom_insert_L. Qed.

Section AlertTable.

Variable env : Env.
Variable cfg : Config.

Lemma alert_one_types (d : ViolationDetail) (w : World) :
  alerted_types (alert_one env d w).1.2
  = {[violation_type d]} ∪ alerted_types w.
Proof.
  rewrite alert_one_run. cbv zeta. destruct (_ <=? _)%Z; cbn [fst snd].
  - rewrite with_last_types.
    change (alerted_types
              (tick (count_sms (tick (touch (violation_type d) (tick w))))))
      with (alerted_types (touch (violation_type d) (tick w))).
    rewrite touch_types. change (alerted_types (tick w)) with (alerted_types w).
    now rewrite (assoc_L (∪)), union_idemp_L.
  - rewrite touch_types. reflexivity.
Qed.

Lemma alert_each_types (ds : list ViolationDetail) :
  forall w : World,
    alerted_types (alert_each env ds w).1.2
    = list_to_set (map violation_type ds) ∪ alerted_types w.
Proof.
  induction ds as [|d ds IH]; intros w.
  - cbn. now rewrite union_empty_l_L.
  - cbn [alert_each]. unfold bind. cbn [fst snd]. rewrite IH, alert_one_types.
    cbn [map list_to_set].
    now rewrite !(assoc_L (∪)),
      (comm_L (∪) (list_to_set (map violation_type ds))).
Qed.

(** The table after an iteration that went through: the types of the
    frame's violation details have joined the keys. *)
Lemma loop_body_types (fi : Z) (f : Frame) (loc : Locals) (w : World)
    (dets : list Detection) :
  detect_outcome f = Some dets ->
  flush_blocked env cfg loc w = false ->
  alerted_types (loop_body env cfg fi f loc w).1.2
  = list_to_set
      (map violation_type
         (res_details (Routes.analyze_frame_for_ppe_status dets)))
    ∪ alerted_types w.
Proof.
  intros Hd Hb.
  destruct (loop_body_some env cfg fi f loc w dets Hd Hb)
    as (loc' & w' & tail & Hrun & _ & _ & _ & Hw').
  cbv zeta in *. rewrite Hrun. cbn [fst snd].
  set (r := Routes.analyze_frame_for_ppe_status dets) in *.
  destruct (snapshot_logic_fields env cfg (res_violations r)
              (snapshot_path loc) w) as (Ham1 & _).
  cbv zeta in Ham1.
  set (s1 := snapshot_logic env cfg (res_violations r) (snapshot_path loc) w) in *.
  destruct (logging_fields env cfg (clock env (clock_reads s1.1.2))
              (last_log_time loc) r s1.1.1 (tick s1.1.2)) as (Ham2 & _).
  cbv zeta in Ham2.
  set (s2 := logging _ _ _ _ _ _ _ _ _ _ _) in *.
  assert (Hin : alerted_types s2.1.2 = alerted_types w).
  { unfold alerted_types. rewrite Ham2. cbn [tick alert_manager].
    now rewrite Ham1. }
  assert (Hout : alerted_types w'
                 = alerted_types
                     (sms_alerting env (res_violations r) (res_details r)
                        s2.1.2).1.2)
    by (destruct Hw' as [->| ->]; reflexivity).
  rewrite Hout. unfold sms_alerting.
  destruct (0 <? res_violations r)%nat eqn:Hv.
  - now rewrite alert_each_types, Hin.
  - apply Nat.ltb_ge in Hv.
    pose proof (analyze_count_matches_details dets) as Hlen.
    cbv zeta in Hlen. fold r in Hlen. unfold res_violations, res_details in *.
    destruct r.2; [|cbn [length] in Hlen; lia].
    cbn. rewrite Hin. now rewrite union_empty_l_L.
Qed.

(** An iteration cut short by the flush leaves the table as it was. *)
Lemma loop_body_types_blocked (fi : Z) (f : Frame) (loc : Locals) (w : World)
    (dets : list Detection) :
  detect_outcome f = Some dets ->
  flush_blocked env cfg loc w = true ->
  alert_manager (loop_body env cfg fi f loc w).1.2 = alert_manager w.
Proof.
  intros Hd Hb. rewrite (loop_body_blocked env cfg fi f loc w dets Hd Hb).
  cbn [fst snd tick alert_manager].
  now destruct (snapshot_logic_fields env cfg
                  (res_violations (Routes.analyze_frame_for_ppe_status dets))
                  (snapshot_path loc) w) as (-> & _).
Qed.

Lemma frame_loop_types_grow (fi : Z) (frames : list Frame) :
  forall (loc : Locals) (w : World),
    alerted_types w ⊆ alerted_types (final (frame_loop env cfg fi frames loc w)).
Proof.
  induction frames as [|f rest IH]; intros loc w; [reflexivity|].
  destruct (frame_loop_cases env cfg fi f rest loc w)
    as [(dets & loc' & Hd & Hnext & Hrun)|[(Hd & Hrun)|(dets & Hd & Hb & Hrun)]];
    rewrite Hrun.
  - cbv zeta. cbn [final].
    etransitivity; [|apply IH].
    rewrite (loop_body_types fi f loc w dets Hd
               (next_not_blocked env cfg fi f loc loc' w dets Hd Hnext)).
    apply union_subseteq_r.
  - reflexivity.
  - cbv zeta. cbn [final]. unfold alerted_types.
    now rewrite (loop_body_types_blocked fi f loc w dets Hd Hb).
Qed.

Lemma frame_loop_types_recorded (fi : Z) (frames : list Frame) :
  forall (loc : Locals) (w : World) (k : nat) (f : Frame)
         (dets : list Detection) (d : ViolationDetail),
    frames !! k = Some f ->
    completed (frame_loop env cfg fi frames loc w) k ->
    detect_outcome f = Some dets ->
    In d (res_details (Routes.analyze_frame_for_ppe_status dets)) ->
    violation_type d
    ∈ alerted_types (final (frame_loop env cfg fi frames loc w)).
Proof.
  induction frames as [|f0 rest IH]; intros loc w k f dets d Hf Hk Hd Hin.
  - destruct k; discriminate.
  - unfold completed in Hk.
    destruct (frame_loop_cases env cfg fi f0 rest loc w)
      as [(dets0 & loc' & Hd0 & Hnext & Hrun)
         |[(Hd0 & Hrun)|(dets0 & Hd0 & Hb & Hrun)]];
      rewrite Hrun in *; cbv zeta in *; cbn [logs final ending length] in *.
    + destruct k as [|k]; cbn in Hf.
      * injection Hf as <-. assert (dets0 = dets) as -> by congruence.
        apply (frame_loop_types_grow fi rest loc').
        rewrite (loop_body_types fi f0 loc w dets Hd0
                   (next_not_blocked env cfg fi f0 loc loc' w dets Hd0 Hnext)).
        apply elem_of_union_l, elem_of_list_to_set, list_elem_of_In, in_map.
        exact Hin.
      * eapply IH; try eassumption. unfold completed.
        destruct Hk as [Hk|[Hk He]]; [left; lia | right; split; [lia|exact He]].
    + destruct Hk as [Hk|[_ He]]; [lia | discriminate].
    + destruct Hk as [Hk|[_ He]]; [lia | discriminate].
Qed.

End AlertTable.

(** X7. Over a run of the pipeline the table of last alert times only gains
    keys: every type that had an entry before the run has one after it, and
    so has every violation type of a frame whose iteration went through to
    its end. A frame whose iteration is cut short -- by a flush that finds
    no application context -- is analysed but not alerted on. *)
Theorem X7_alert_table_grows (env : Env) (cfg : Config) (fi : Z)
    (frames : list Frame) (w : World) :
  let run := generate_frames env cfg (Some (fi, frames)) true w in
  alerted_types w ⊆ alerted_types (final run)
  /\ (forall (k : nat) (f : Frame) (dets : list Detection)
             (d : ViolationDetail),
        frames !! k = Some f ->
        completed run k ->
        detect_outcome f = Some dets ->
        In d (res_details (Routes.analyze_frame_for_ppe_status dets)) ->
        violation_type d ∈ alerted_types (final run))
  /\ (forall (f : Frame) (loc : Locals) (w' : World) (dets : list Detection),
        detect_outcome f = Some dets ->
        flush_blocked env cfg loc w' = true ->
        alert_manager (loop_body env cfg fi f loc w').1.2 = alert_manager w').
Proof.
  cbv zeta. rewrite generate_frames_unfold. split; [|split].
  - change (alerted_types w) with (alerted_types (tick (tick w))).
    apply (frame_loop_types_grow env cfg fi frames).
  - intros k f dets d. apply frame_loop_types_recorded.
  - intros f loc w' dets. apply loop_body_types_blocked.
Qed.

Lemma X7_alert_table_grows_witness :
  "no-helmet" ∈ alerted_types (final two_frame_run).
Proof.
  apply (proj1 (proj2 (X7_alert_table_grows steady_env app_config 0%Z
                         two_frames (initial_world app_config)))
           0 (frame_of ["no-helmet"]) (map det ["no-helmet"])
           (Routes.make_detail (det "no-helmet"))).
  - reflexivity.
  - left. vm_compute. lia.
  - reflexivity.
  - left. reflexivity.
Defined.

(** ** More on the snapshot counter and the snapshot path *)

Lemma snapshot_step_below (cfg : Config) (v c : nat) :
  0 < SNAPSHOT_CONSECUTIVE_VIOLATIONS cfg ->
  (snapshot_step cfg v c).1 < SNAPSHOT_CONSECUTIVE_VIOLATIONS cfg.
Proof.
  intros HN. unfold snapshot_step.
  destruct (_ && _); [|exact HN].
  destruct (_ <=? _)%nat eqn:Hle; cbn [fst]; [exact HN|].
  apply Nat.leb_gt in Hle. exact Hle.
Qed.

Lemma snapshot_step_disabled (cfg : Config) (v c : nat) :
  SAVE_VIOLATION_SNAPSHOT cfg = false -> snapshot_step cfg v c = (0, false).
Proof. intros H. unfold snapshot_step. now rewrite H. Qed.

Section SnapshotPath.

Variable env : Env.
Variable cfg : Config.

(** The path the loop holds after an iteration, and the path a flush of
    that iteration stores: the answer of the image writer when a capture
    was asked for, the path held before otherwise. *)
Lemma loop_body_path (fi : Z) (f : Frame) (loc : Locals) (w : World)
    (dets : list Detection) :
  detect_outcome f = Some dets ->
  let r := Routes.analyze_frame_for_ppe_status dets in
  let run := loop_body env cfg fi f loc w in
  let held_path :=
    if capture_requested run.2
    then snapshot_outcome env (snapshot_calls w)
    else snapshot_path loc in
  (forall loc', run.1.1 = Next loc' -> snapshot_path loc' = held_path)
  /\ on Store run.2
     = (if (LOG_INTERVAL_SECONDS cfg
            <=? clock env (clock_reads w) - last_log_time loc)%Z
        then
          if app_context env
          then flush_shape (clock env (clock_reads w)) (last_log_time loc) r
                 (truthy_path held_path)
                 (compliance_log_outcome env (log_calls w))
          else [FlushStarted (clock env (clock_reads w)) (last_log_time loc)]
        else []).
Proof.
  intros Hd. cbv zeta.
  rewrite (loop_body_capture env cfg fi f loc w dets Hd).
  pose proof (loop_body_store env cfg fi f loc w dets Hd) as Hon.
  cbv zeta in Hon. rewrite Hon. split.
  - intros loc' Hn.
    pose proof (next_not_blocked env cfg fi f loc loc' w dets Hd Hn) as Hb.
    destruct (loop_body_some env cfg fi f loc w dets Hd Hb)
      as (loc'' & w' & tail & Hrun & _ & Hsp & _ & _).
    cbv zeta in *. rewrite Hrun in Hn. cbn [fst] in Hn. injection Hn as ->.
    rewrite Hsp, snapshot_logic_run.
    now destruct (snapshot_step cfg _ _).2.
  - rewrite snapshot_logic_run.
    destruct (snapshot_step cfg _ _).2; cbn [fst];
      (destruct (_ <=? _)%Z; [destruct (app_context env)|]; try reflexivity;
       apply flush_events_shape).
Qed.

Lemma frame_loop_disabled (fi : Z) (frames : list Frame) :
  SAVE_VIOLATION_SNAPSHOT cfg = false ->
  forall (loc : Locals) (w : World) (k : nat) (evs : list Event),
    snapshot_path loc = None ->
    logs (frame_loop env cfg fi frames loc w) !! k = Some evs ->
    capture_requested evs = false
    /\ forall p a v s path result,
         In (ComplianceLogSaved p a v s path result) evs -> path = None.
Proof.
  intros Hoff.
  assert (Hone : forall f loc w dets,
             detect_outcome f = Some dets ->
             snapshot_path loc = None ->
             capture_requested (loop_body env cfg fi f loc w).2 = false
             /\ (forall loc', (loop_body env cfg fi f loc w).1.1 = Next loc' ->
                             snapshot_path loc' = None)
             /\ forall p a v s path result,
                  In (ComplianceLogSaved p a v s path result)
                    (loop_body env cfg fi f loc w).2 -> path = None).
  { intros f loc w dets Hd Hnone.
    destruct (loop_body_path fi f loc w dets Hd) as (Hsp & Hon).
    cbv zeta in Hsp, Hon.
    assert (Hcap : capture_requested (loop_body env cfg fi f loc w).2 = false).
    { rewrite (loop_body_capture env cfg fi f loc w dets Hd).
      now rewrite snapshot_step_disabled. }
    rewrite Hcap, Hnone in Hsp, Hon. split; [assumption|]. split; [assumption|].
    intros p a v s path result Hin.
    apply in_on_store in Hin; [|reflexivity]. rewrite Hon in Hin.
    destruct (_ <=? _)%Z; [|destruct Hin].
    destruct (app_context env); [|destruct Hin as [Hin|[]]; discriminate].
    unfold flush_shape in Hin. cbn [In truthy_path] in Hin.
    destruct Hin as [Hin|[Hin|Hin]]; [discriminate| |].
    - now injection Hin as _ _ _ _ <- _.
    - destruct (compliance_log_outcome _ _); [|destruct Hin].
      apply in_violation_writes in Hin.
      destruct Hin as (d & _ & Heq). discriminate. }
  induction frames as [|f rest IH]; intros loc w k evs Hnone Hk.
  - destruct k; discriminate.
  - destruct (frame_loop_cases env cfg fi f rest loc w)
      as [(dets & loc' & Hd & Hnext & Hrun)|[(Hd & Hrun)|(dets & Hd & Hb & Hrun)]];
      rewrite Hrun in Hk; cbv zeta in Hk; cbn [logs] in Hk.
    + destruct (Hone f loc w dets Hd Hnone) as (Hcap & Hsp & Hlog).
      destruct k as [|k]; cbn in Hk.
      * injection Hk as <-. auto.
      * eapply IH; [|eassumption]. now apply Hsp.
    + destruct k as [|[|k]]; cbn in Hk; try discriminate.
      injection Hk as <-. split; [reflexivity|].
      intros p a v s path result [Hin|[]]. discriminate.
    + destruct k as [|[|k]]; cbn in Hk; try discriminate.
      injection Hk as <-.
      destruct (Hone f loc w dets Hd Hnone) as (Hcap & _ & Hlog).
      rewrite capture_requested_error. split; [assumption|].
      intros p a v s path result Hin.
      apply in_error_logged in Hin; [|discriminate]. eauto.
Qed.

Lemma frame_loop_counter_below (fi : Z) (frames : list Frame) :
  0 < SNAPSHOT_CONSECUTIVE_VIOLATIONS cfg ->
  forall (loc : Locals) (w : World),
    consecutive_violation_frames w < SNAPSHOT_CONSECUTIVE_VIOLATIONS cfg ->
    consecutive_violation_frames (final (frame_loop env cfg fi frames loc w))
    < SNAPSHOT_CONSECUTIVE_VIOLATIONS cfg.
Proof.
  intros HN. induction frames as [|f rest IH]; intros loc w Hw; [exact Hw|].
  destruct (frame_loop_cases env cfg fi f rest loc w)
    as [(dets & loc' & Hd & Hnext & Hrun)|[(Hd & Hrun)|(dets & Hd & Hb & Hrun)]];
    rewrite Hrun.
  - cbv zeta. cbn [final]. apply IH.
    destruct (loop_body_snapshot env cfg fi f loc w dets Hd) as (_ & -> & _).
    now apply snapshot_step_below.
  - exact Hw.
  - cbv zeta. cbn [final].
    destruct (loop_body_snapshot env cfg fi f loc w dets Hd) as (_ & -> & _).
    now apply snapshot_step_below.
Qed.

End SnapshotPath.

(** X8. With snapshot saving switched off, no iteration of a run asks for a
    snapshot and every compliance log the run writes has no snapshot
    path. *)
Theorem X8_snapshots_disabled (env : Env) (cfg : Config) (fi : Z)
    (frames : list Frame) (w : World) (k : nat) (evs : list Event) :
  let run := generate_frames env cfg (Some (fi, frames)) true w in
  SAVE_VIOLATION_SNAPSHOT cfg = false ->
  logs run !! k = Some evs ->
  capture_requested evs = false
  /\ forall p a v s path result,
       In (ComplianceLogSaved p a v s path result) evs -> path = None.
Proof.
  cbv zeta. rewrite generate_frames_unfold. intros Hoff Hk.
  eapply frame_loop_disabled; [exact Hoff | | exact Hk]. reflexivity.
Qed.

(** X9. With a positive threshold, a run that starts with the consecutive
    violation counter below the threshold leaves it below the threshold:
    between frames the counter never sits at the threshold. *)
Theorem X9_counter_stays_below_threshold (env : Env) (cfg : Config) (fi : Z)
    (frames : list Frame) (w : World) :
  let run := generate_frames env cfg (Some (fi, frames)) true w in
  0 < SNAPSHOT_CONSECUTIVE_VIOLATIONS cfg ->
  consecutive_violation_frames w < SNAPSHOT_CONSECUTIVE_VIOLATIONS cfg ->
  consecutive_violation_frames (final run)
  < SNAPSHOT_CONSECUTIVE_VIOLATIONS cfg.
Proof.
  cbv zeta. rewrite generate_frames_unfold. intros HN Hw.
  now apply frame_loop_counter_below.
Qed.

Lemma X9_counter_stays_below_threshold_witness :
  consecutive_violation_frames
    (final (generate_frames steady_env app_config
              (Some (0%Z, repeat (frame_of ["no-helmet"]) 7)) true
              (initial_world app_config))) < 5.
Proof.
  apply (X9_counter_stays_below_threshold steady_env app_config 0%Z
           (repeat (frame_of ["no-helmet"]) 7) (initial_world app_config)).
  - cbn. lia.
  - cbn. lia.
Defined.

Lemma X8_snapshots_disabled_witness :
  let evs :=
    default []
      (logs (generate_frames steady_env snapshots_off
               (Some (0%Z, late_violation)) true
               (initial_world snapshots_off)) !! 1) in
  capture_requested evs = false
  /\ forall p a v s path result,
       In (ComplianceLogSaved p a v s path result) evs -> path = None.
Proof.
  apply (X8_snapshots_disabled steady_env snapshots_off 0%Z late_violation
           (initial_world snapshots_off) 1).
  - reflexivity.
  - vm_compute. reflexivity.
Defined.

Lemma held_after_app (path : option string) (a b : list Event) :
  held_after path (a ++ b) = held_after (held_after path a) b.
Proof.
  revert path. induction a as [|e a IH]; intros path; [reflexivity|].
  destruct e; cbn [app held_after]; apply IH.
Qed.

Lemma held_after_absent (path : option string) (evs : list Event) :
  Forall (fun e => channel e <> Snapshot) evs -> held_after path evs = path.
Proof.
  induction 1 as [|e evs He _ IH]; [reflexivity|].
  destruct e; cbn [held_after]; try exact IH. now contradiction He.
Qed.

Section HeldPath.

Variable env : Env.
Variable cfg : Config.

Lemma held_after_on_snapshot (path : option string) (evs : list Event) :
  held_after path evs = held_after path (on Snapshot evs).
Proof.
  revert path. induction evs as [|e evs IH]; intros path; [reflexivity|].
  destruct e; cbn [held_after on List.filter on_channel channel]; apply IH.
Qed.

Lemma loop_body_held (fi : Z) (f : Frame) (loc : Locals) (w : World)
    (dets : list Detection) :
  detect_outcome f = Some dets ->
  held_after (snapshot_path loc) (loop_body env cfg fi f loc w).2
  = if capture_requested (loop_body env cfg fi f loc w).2
    then snapshot_outcome env (snapshot_calls w)
    else snapshot_path loc.
Proof.
  intros Hd. rewrite (loop_body_capture env cfg fi f loc w dets Hd).
  rewrite held_after_on_snapshot.
  destruct (loop_body_snapshot env cfg fi f loc w dets Hd) as (-> & _).
  now destruct (snapshot_step cfg _ _).2.
Qed.

(** In a run, a compliance log carries the path held once the effects of
    the run up to and including its own iteration are taken into account. *)
Lemma run_paths (fi : Z) (frames : list Frame) :
  forall (loc : Locals) (w : World) (k : nat) (evs : list Event)
         (p a v : nat) (s : string) (path : option string)
         (result : option Z),
    logs (frame_loop env cfg fi frames loc w) !! k = Some evs ->
    In (ComplianceLogSaved p a v s path result) evs ->
    path
    = truthy_path
        (held_after (snapshot_path loc)
           (concat (take (S k) (logs (frame_loop env cfg fi frames loc w))))).
Proof.
  assert (Hone : forall f loc w dets p a v s path result,
             detect_outcome f = Some dets ->
             In (ComplianceLogSaved p a v s path result)
               (loop_body env cfg fi f loc w).2 ->
             path
             = truthy_path
                 (held_after (snapshot_path loc)
                    (loop_body env cfg fi f loc w).2)).
  { intros f loc w dets p a v s path result Hd Hin.
    destruct (loop_body_path env cfg fi f loc w dets Hd) as (_ & Hon).
    cbv zeta in Hon.
    rewrite <- (loop_body_held fi f loc w dets Hd) in Hon.
    apply in_on_store in Hin; [|reflexivity]. rewrite Hon in Hin.
    destruct (_ <=? _)%Z; [|destruct Hin].
    destruct (app_context env); [|destruct Hin as [Hin|[]]; discriminate].
    unfold flush_shape in Hin. cbn [In] in Hin.
    destruct Hin as [Hin|[Hin|Hin]]; [discriminate| |].
    - now injection Hin as _ _ _ _ <- _.
    - destruct (compliance_log_outcome _ _); [|destruct Hin].
      apply in_violation_writes in Hin.
      destruct Hin as (d & _ & Heq). discriminate. }
  induction frames as [|f rest IH];
    intros loc w k evs p a v s path result Hk Hin.
  - destruct k; discriminate.
  - destruct (frame_loop_cases env cfg fi f rest loc w)
      as [(dets & loc' & Hd & Hnext & Hrun)|[(Hd & Hrun)|(dets & Hd & Hb & Hrun)]];
      rewrite Hrun in *; cbv zeta in *; cbn [logs] in *.
    + destruct (loop_body_path env cfg fi f loc w dets Hd) as (Hsp & _).
      cbv zeta in Hsp. specialize (Hsp loc' Hnext).
      rewrite <- (loop_body_held fi f loc w dets Hd) in Hsp.
      destruct k as [|k]; cbn [take concat] in *; cbn in Hk.
      * injection Hk as <-. rewrite app_nil_r. eapply Hone; eassumption.
      * rewrite held_after_app, <- Hsp. eapply IH; eassumption.
    + destruct k as [|[|k]]; cbn in Hk; try discriminate.
      injection Hk as <-. destruct Hin as [Hin|[]]. discriminate.
    + destruct k as [|[|k]]; cbn in Hk; try discriminate.
      injection Hk as <-. cbn [take concat]. rewrite app_nil_r.
      apply in_error_logged in Hin; [|discriminate].
      rewrite held_after_app. cbn [held_after]. eapply Hone; eassumption.
Qed.

End HeldPath.

(** X11. In a run, the snapshot path stored with a compliance log is the
    answer of the most recent capture attempt the run made up to and
    including that log's iteration (an empty path counts as none), and no
    path if the run has made no attempt yet. The path of a capture therefore
    stays attached to the logs of later intervals until the next capture. *)
Theorem X11_snapshot_path_persists (env : Env) (cfg : Config) (fi : Z)
    (frames : list Frame) (w : World) (k : nat) (evs : list Event)
    (p a v : nat) (s : string) (path : option string) (result : option Z) :
  let run := generate_frames env cfg (Some (fi, frames)) true w in
  logs run !! k = Some evs ->
  In (ComplianceLogSaved p a v s path result) evs ->
  path = truthy_path (held_after None (concat (take (S k) (logs run)))).
Proof.
  cbv zeta. rewrite generate_frames_unfold. intros Hk Hin.
  exact (run_paths env cfg fi frames
           {| last_frame_time := clock env (clock_reads w);
              last_log_time := clock env (S (clock_reads w));
              snapshot_path := None |}
           (tick (tick w)) k evs p a v s path result Hk Hin).
Qed.

Lemma X11_snapshot_path_persists_witness :
  let run := run_of steady_env (repeat (frame_of ["no-helmet"]) 6) in
  Some "snapshots/violation_snapshot.jpg"
  = truthy_path (held_after None (concat (take 6 (logs run)))).
Proof.
  apply (X11_snapshot_path_persists steady_env app_config 0%Z
           (repeat (frame_of ["no-helmet"]) 6) (initial_world app_config) 5
           (default [] (logs (run_of steady_env
                                (repeat (frame_of ["no-helmet"]) 6)) !! 5))
           0 0 1 "1 Violation(s) Detected"
           (Some "snapshots/violation_snapshot.jpg") (Some 5%Z)).
  - vm_compute. reflexivity.
  - vm_compute. right. left. reflexivity.
Defined.

(** ** Delivery of the frame *)

Lemma yields_app (a b : list Event) : yields (a ++ b) = yields a + yields b.
Proof. unfold yields. now rewrite List.filter_app, length_app. Qed.

Lemma yields_absent (evs : list Event) :
  Forall (fun e => e <> FrameYielded) evs -> yields evs = 0.
Proof.
  induction 1 as [|e evs He _ IH]; [reflexivity|].
  unfold yields in *. cbn [List.filter]. destruct e; try exact IH.
  now contradiction He.
Qed.

Section Delivery.

Variable env : Env.
Variable cfg : Config.

(** The end of an iteration that gets past the flush: the frame is handed
    over and the loop paces itself, or the encoding failure is logged and
    both are skipped. *)
Lemma loop_body_delivery (fi : Z) (f : Frame) (loc : Locals) (w : World)
    (dets : list Detection) :
  detect_outcome f = Some dets ->
  flush_blocked env cfg loc w = false ->
  let r := Routes.analyze_frame_for_ppe_status dets in
  let s1 := snapshot_logic env cfg (res_violations r) (snapshot_path loc) w in
  let ct := clock env (clock_reads s1.1.2) in
  let s2 :=
    logging env cfg ct (last_log_time loc) (res_persons r) (res_ppe_worn r)
      (res_violations r) (res_status r) (res_details r) s1.1.1
      (tick s1.1.2) in
  let s3 := sms_alerting env (res_violations r) (res_details r) s2.1.2 in
  let wait := (fi - (ct - last_frame_time loc))%Z in
  exists llt',
    s2.1.1 = Some llt'
    /\ loop_body env cfg fi f loc w
       = if encode_ok f
         then (Next {| last_frame_time := clock env (clock_reads s3.1.2);
                       last_log_time := llt'; snapshot_path := s1.1.1 |},
               tick s3.1.2,
               s1.2 ++ s2.2 ++ s3.2
               ++ FrameYielded :: (if (0 <? wait)%Z then [Slept wait] else []))
         else (Next {| last_frame_time := last_frame_time loc;
                       last_log_time := llt'; snapshot_path := s1.1.1 |},
               s3.1.2,
               s1.2 ++ s2.2 ++ s3.2
               ++ [ErrorLogged "Failed to encode frame to JPEG."]).
Proof.
  intros Hd Hb. cbv zeta.
  destruct (loop_body_some env cfg fi f loc w dets Hd Hb)
    as (loc' & w' & tail & _ & Hsome & _).
  cbv zeta in Hsome. exists (last_log_time loc'). split; [exact Hsome|].
  revert Hsome. unfold loop_body. rewrite Hd.
  destruct (Routes.analyze_frame_for_ppe_status dets)
    as [[[[p a] v] s] ds].
  unfold res_violations, res_persons, res_ppe_worn, res_status, res_details.
  cbn [fst snd]. unfold bind. cbv zeta. intros Hsome.
  destruct (encode_ok f).
  - unfold emit, ret, time_time. cbn [fst snd app].
    destruct (0 <? _)%Z; cbn [fst snd app]; rewrite !Hsome;
      cbn [fst snd app]; rewrite ?app_nil_r; reflexivity.
  - unfold emit, ret, time_time. cbn [fst snd app]. rewrite !Hsome.
    cbn [fst snd app]. rewrite ?app_nil_r. reflexivity.
Qed.

Lemma blocks_yield_nothing (fi : Z) (f : Frame) (loc : Locals) (w : World)
    (dets : list Detection) :
  let r := Routes.analyze_frame_for_ppe_status dets in
  let s1 := snapshot_logic env cfg (res_violations r) (snapshot_path loc) w in
  let ct := clock env (clock_reads s1.1.2) in
  let s2 :=
    logging env cfg ct (last_log_time loc) (res_persons r) (res_ppe_worn r)
      (res_violations r) (res_status r) (res_details r) s1.1.1
      (tick s1.1.2) in
  let s3 := sms_alerting env (res_violations r) (res_details r) s2.1.2 in
  yields (s1.2 ++ s2.2 ++ s3.2) = 0.
Proof.
  cbv zeta. apply yields_absent. repeat (apply Forall_app; split).
  - eapply Forall_impl; [apply snapshot_logic_channel|].
    intros e He Heq. subst e. discriminate He.
  - rewrite logging_run.
    destruct (_ <=? _)%Z; [destruct (app_context env)|]; cbn [snd];
      [| repeat constructor; discriminate | constructor].
    unfold flush_events. repeat (constructor; [discriminate|]).
    destruct (compliance_log_outcome _ _);
      [|repeat (constructor; [discriminate|]); constructor].
    destruct (0 <? _)%nat; [|constructor].
    unfold violation_writes. apply Forall_forall. intros e He.
    apply list_elem_of_In, in_map_iff in He. now destruct He as [d [<- _]].
  - eapply Forall_impl; [apply sms_alerting_channel|].
    intros e He Heq. subst e. discriminate He.
Qed.

End Delivery.

(** X10. In an iteration that gets as far as the JPEG encoding, a failure
    of the encoding changes nothing about what the iteration does to the
    snapshot counter, the store and the gateway, nor the window start and
    the snapshot path it hands on. What differs: after a failure the frame
    is not handed to the caller, the failure is logged, the loop does not
    pace itself and does not read the clock again, so it hands on the old
    time of the last frame, where a success hands on a fresh reading; in
    both cases the loop goes on to the next frame. *)
Theorem X10_encode_failure_skips_delivery_only (env : Env) (cfg : Config)
    (fi : Z) (f f' : Frame) (loc : Locals) (w : World)
    (dets : list Detection) :
  detect_outcome f = Some dets ->
  detect_outcome f' = Some dets ->
  encode_ok f = false ->
  encode_ok f' = true ->
  flush_blocked env cfg loc w = false ->
  let run := loop_body env cfg fi f loc w in
  let run' := loop_body env cfg fi f' loc w in
  on Snapshot run.2 = on Snapshot run'.2
  /\ on Store run.2 = on Store run'.2
  /\ on Alert run.2 = on Alert run'.2
  /\ run'.1.2 = tick run.1.2
  /\ (exists loc1 loc2,
        run.1.1 = Next loc1 /\ run'.1.1 = Next loc2
        /\ last_log_time loc1 = last_log_time loc2
        /\ snapshot_path loc1 = snapshot_path loc2
        /\ last_frame_time loc1 = last_frame_time loc
        /\ last_frame_time loc2 = clock env (clock_reads run.1.2))
  /\ yields run.2 = 0
  /\ yields run'.2 = 1
  /\ In (ErrorLogged "Failed to encode frame to JPEG.") run.2.
Proof.
  intros Hd Hd' He He' Hb. cbv zeta.
  pose proof (blocks_yield_nothing env cfg fi f loc w dets) as Hy.
  destruct (loop_body_delivery env cfg fi f loc w dets Hd Hb)
    as (llt1 & Hs1 & Hrun).
  destruct (loop_body_delivery env cfg fi f' loc w dets Hd' Hb)
    as (llt2 & Hs2 & Hrun').
  cbv zeta in *. rewrite Hrun, Hrun', He, He'. clear Hrun Hrun'.
  assert (llt2 = llt1) as -> by congruence.
  set (r := Routes.analyze_frame_for_ppe_status dets) in *.
  set (s1 := snapshot_logic env cfg (res_violations r) (snapshot_path loc) w) in *.
  set (s2 := logging _ _ _ _ _ _ _ _ _ _ _) in *.
  set (s3 := sms_alerting _ _ _ _) in *.
  set (wait := (fi - _)%Z).
  assert (Ht1 : Forall (fun e => channel e = Stream)
                  (FrameYielded :: (if (0 <? wait)%Z then [Slept wait] else [])))
    by (destruct (0 <? wait)%Z; repeat constructor).
  assert (Ht2 : Forall (fun e => channel e = Stream)
                  [ErrorLogged "Failed to encode frame to JPEG."])
    by repeat constructor.
  assert (Hon : forall c, c <> Stream ->
             on c (s1.2 ++ s2.2 ++ s3.2
                   ++ [ErrorLogged "Failed to encode frame to JPEG."])
             = on c (s1.2 ++ s2.2 ++ s3.2
                     ++ FrameYielded
                        :: (if (0 <? wait)%Z then [Slept wait] else []))).
  { intros c Hc. rewrite !on_app.
    now rewrite (on_other c Stream [ErrorLogged _]),
      (on_other c Stream (FrameYielded :: _)) by auto. }
  cbn [fst snd].
  split; [apply Hon; discriminate|].
  split; [apply Hon; discriminate|].
  split; [apply Hon; discriminate|].
  split; [reflexivity|].
  split; [do 2 eexists; repeat split|].
  rewrite !yields_app in Hy. rewrite !yields_app.
  split; [unfold yields at 4; cbn; lia|].
  split; [destruct (0 <? wait)%Z; unfold yields at 4; cbn; lia|].
  rewrite !in_app_iff. right. right. right. now left.
Qed.

Lemma X10_encode_failure_skips_delivery_only_witness :
  let f := {| detect_outcome := Some (map det ["no-helmet"]);
              encode_ok := false |} in
  let run := loop_body route_env app_config 0%Z f
               {| last_frame_time := 1000; last_log_time := 1000;
                  snapshot_path := None |}
               (initial_world app_config) in
  let run' := loop_body route_env app_config 0%Z (frame_of ["no-helmet"])
                {| last_frame_time := 1000; last_log_time := 1000;
                   snapshot_path := None |}
                (initial_world app_config) in
  on Alert run.2 = on Alert run'.2 /\ yields run.2 = 0 /\ yields run'.2 = 1.
Proof.
  cbv zeta.
  destruct (X10_encode_failure_skips_delivery_only route_env app_config 0%Z
              {| detect_outcome := Some (map det ["no-helmet"]);
                 encode_ok := false |}
              (frame_of ["no-helmet"])
              {| last_frame_time := 1000; last_log_time := 1000;
                 snapshot_path := None |}
              (initial_world app_config) (map det ["no-helmet"])
              eq_refl eq_refl eq_refl eq_refl eq_refl)
    as (_ & _ & H3 & _ & _ & H6 & H7 & _).
  auto.
Defined.

Section WholeStream.

Variable env : Env.
Variable cfg : Config.

(** A frame without violations leaves the gateway and the table of last
    alert times alone. *)
Lemma loop_body_quiet (fi : Z) (f : Frame) (loc : Locals) (w : World)
    (dets : list Detection) :
  detect_outcome f = Some dets ->
  res_violations (Routes.analyze_frame_for_ppe_status dets) = 0 ->
  on Alert (loop_body env cfg fi f loc w).2 = []
  /\ alert_manager (loop_body env cfg fi f loc w).1.2 = alert_manager w.
Proof.
  intros Hd Hz.
  destruct (flush_blocked env cfg loc w) eqn:Hb.
  { rewrite (loop_body_blocked env cfg fi f loc w dets Hd Hb). cbn [fst snd].
    split.
    - rewrite on_app.
      rewrite (on_other Alert Snapshot)
        by (discriminate || apply snapshot_logic_channel).
      reflexivity.
    - cbn [tick alert_manager].
      now destruct (snapshot_logic_fields env cfg
                      (res_violations (Routes.analyze_frame_for_ppe_status dets))
                      (snapshot_path loc) w) as (-> & _). }
  destruct (loop_body_some env cfg fi f loc w dets Hd Hb)
    as (loc' & w' & tail & Hrun & _ & _ & Htail & Hw').
  cbv zeta in *. rewrite Hrun. cbn [fst snd]. rewrite Hz in *.
  set (r := Routes.analyze_frame_for_ppe_status dets) in *.
  destruct (snapshot_logic_fields env cfg 0 (snapshot_path loc) w)
    as (Ham1 & _). cbv zeta in Ham1.
  pose proof (snapshot_logic_channel env cfg 0 (snapshot_path loc) w) as Hc1.
  set (s1 := snapshot_logic env cfg 0 (snapshot_path loc) w) in *.
  pose proof (logging_fields env cfg (clock env (clock_reads s1.1.2))
                (last_log_time loc) r s1.1.1 (tick s1.1.2)) as Hf2.
  pose proof (logging_run env cfg (clock env (clock_reads s1.1.2))
                (last_log_time loc) r s1.1.1 (tick s1.1.2)) as Hlog.
  cbv zeta in Hf2. fold r in Hz. rewrite Hz in Hf2, Hlog.
  destruct Hf2 as (Ham2 & _).
  set (s2 := logging _ _ _ _ _ _ _ _ _ _ _) in *.
  unfold sms_alerting in *. cbn [Nat.ltb Nat.leb] in *.
  change (ret tt s2.1.2) with (tt, s2.1.2, @nil Event) in *. cbn [fst snd] in *.
  split.
  - rewrite !on_app. cbn [on List.filter app].
    rewrite (on_other Alert Snapshot s1.2) by (discriminate || assumption).
    rewrite (on_other Alert Stream tail) by (discriminate || assumption).
    rewrite app_nil_r. cbn [app]. apply on_absent.
    rewrite Hlog.
    destruct (_ <=? _)%Z; [destruct (app_context env)|]; cbn [snd];
      [| repeat constructor; discriminate | constructor].
    eapply Forall_impl; [apply flush_events_stream|].
    intros e [He|He]; rewrite He; discriminate.
  - destruct Hw' as [->| ->]; cbn [tick alert_manager];
      rewrite Ham2; cbn [tick alert_manager]; exact Ham1.
Qed.

(** Without an application context a flush attempt is the last thing a
    run does. *)
Lemma attempt_ends_run (fi : Z) (frames : list Frame) :
  app_context env = false ->
  forall (loc : Locals) (w : World) (k : nat) (evs : list Event) (ct llt : Z),
    logs (frame_loop env cfg fi frames loc w) !! k = Some evs ->
    In (FlushStarted ct llt) evs ->
    length (logs (frame_loop env cfg fi frames loc w)) = S k
    /\ ending (frame_loop env cfg fi frames loc w) = FlushError.
Proof.
  intros Hctx. induction frames as [|f rest IH];
    intros loc w k evs ct llt Hk Hin.
  - destruct k; discriminate.
  - destruct (frame_loop_cases env cfg fi f rest loc w)
      as [(dets & loc' & Hd & Hnext & Hrun)|[(Hd & Hrun)|(dets & Hd & Hb & Hrun)]];
      rewrite Hrun in *; cbv zeta in *; cbn [logs ending length] in *.
    + destruct k as [|k]; cbn in Hk.
      * injection Hk as <-.
        apply (flush_started_in_iteration env cfg fi f loc w dets) in Hin;
          [|assumption].
        destruct Hin as (-> & -> & Hi).
        pose proof (next_not_blocked env cfg fi f loc loc' w dets Hd Hnext)
          as Hb.
        unfold flush_blocked in Hb. rewrite Hctx in Hb.
        apply Z.leb_le in Hi. rewrite Hi in Hb. discriminate.
      * destruct (IH _ _ _ _ _ _ Hk Hin) as (-> & ->). auto.
    + destruct k as [|[|k]]; cbn in Hk; try discriminate.
      injection Hk as <-. destruct Hin as [Hin|[]]. discriminate.
    + destruct k as [|[|k]]; cbn in Hk; try discriminate. auto.
Qed.

End WholeStream.

(** X12. Without an application context -- as on the repository's own
    route, which streams the generator without [stream_with_context] -- an
    iteration whose interval has elapsed stops at the flush: the attempt is
    logged, nothing is inserted, no alert is sent, the frame is not handed
    to the caller, and the error ends the stream. So in any such run no
    compliance log and no violation event is ever written, and an iteration
    that attempts a flush is the last one of the run. *)
Theorem X12_no_context_no_flush (env : Env) (cfg : Config) (fi : Z) :
  app_context env = false ->
  (forall (f : Frame) (loc : Locals) (w : World) (dets : list Detection),
      detect_outcome f = Some dets ->
      (LOG_INTERVAL_SECONDS cfg
       <= clock env (clock_reads w) - last_log_time loc)%Z ->
      let r := loop_body env cfg fi f loc w in
      r.1.1 = NoAppContext
      /\ on Store r.2
         = [FlushStarted (clock env (clock_reads w)) (last_log_time loc)]
      /\ on Alert r.2 = []
      /\ yields r.2 = 0
      /\ alert_manager r.1.2 = alert_manager w
      /\ log_calls r.1.2 = log_calls w)
  /\ (forall (frames : list Frame) (w : World) (k : nat) (f : Frame)
             (evs : list Event),
        let run := generate_frames env cfg (Some (fi, frames)) true w in
        frames !! k = Some f ->
        logs run !! k = Some evs ->
        compliance_logs evs = []
        /\ (forall e, In e evs -> is_violation_write e = false)
        /\ (forall ct llt,
              In (FlushStarted ct llt) evs ->
              length (logs run) = S k /\ ending run = FlushError)).
Proof.
  intros Hctx. split.
  - intros f loc w dets Hd Hi. cbv zeta.
    assert (Hb : flush_blocked env cfg loc w = true).
    { unfold flush_blocked. rewrite Hctx. apply Z.leb_le in Hi.
      now rewrite Hi. }
    rewrite (loop_body_blocked env cfg fi f loc w dets Hd Hb). cbn [fst snd].
    pose proof (snapshot_logic_channel env cfg
                  (res_violations (Routes.analyze_frame_for_ppe_status dets))
                  (snapshot_path loc) w) as Hc1.
    destruct (snapshot_logic_fields env cfg
                (res_violations (Routes.analyze_frame_for_ppe_status dets))
                (snapshot_path loc) w) as (Ham & _ & Hlog & _).
    cbv zeta in Ham, Hlog.
    split; [reflexivity|]. split; [|split; [|split; [|split]]].
    + rewrite on_app.
      now rewrite (on_other Store Snapshot) by (discriminate || assumption).
    + rewrite on_app.
      now rewrite (on_other Alert Snapshot) by (discriminate || assumption).
    + apply yields_absent. apply Forall_app. split.
      * eapply Forall_impl; [exact Hc1|]. intros e He Heq. subst e.
        discriminate He.
      * repeat constructor. discriminate.
    + exact Ham.
    + exact Hlog.
  - intros frames w k f evs. cbv zeta. rewrite generate_frames_unfold.
    intros Hf Hk. split; [|split].
    + rewrite compliance_logs_on_store.
      destruct (run_store_shape env cfg fi frames _ _ k f evs Hf Hk)
        as [->|[(ct & llt & _ & _ & ->)
               |(dets & ct & llt & path & result & _ & Hc & _)]];
        [reflexivity | reflexivity | congruence].
    + intros e He.
      destruct (is_violation_write e) eqn:Hv; [|reflexivity].
      assert (In e (on Store evs)) as Hs
        by (apply in_on_store; [assumption | now destruct e]).
      destruct (run_store_shape env cfg fi frames _ _ k f evs Hf Hk)
        as [Hnil|[(ct & llt & _ & _ & Hon)
                 |(dets & ct & llt & path & result & _ & Hc & _)]];
        [| | congruence].
      * rewrite Hnil in Hs. destruct Hs.
      * rewrite Hon in Hs. destruct Hs as [<-|[]]. discriminate.
    + intros ct llt Hin.
      exact (attempt_ends_run env cfg fi frames Hctx _ _ k evs ct llt Hk Hin).
Qed.

Lemma X12_no_context_no_flush_witness :
  let run := run_of route_env late_violation in
  compliance_logs (default [] (logs run !! 1)) = []
  /\ length (logs run) = 2
  /\ ending run = FlushError.
Proof.
  destruct (proj2 (X12_no_context_no_flush route_env app_config 0%Z eq_refl)
              late_violation (initial_world app_config) 1
              (frame_of ["no-helmet"])
              (default [] (logs (run_of route_env late_violation) !! 1)))
    as (H1 & _ & H3).
  - reflexivity.
  - vm_compute. reflexivity.
  - split; [exact H1|]. apply (H3 1008%Z 1002%Z). vm_compute. left. reflexivity.
Defined.

(** X13. An iteration on a frame in which the analysis finds no violation
    makes no cooldown test, sends nothing and leaves the alert manager --
    cooldown setting and table of last alert times -- exactly as it was. *)
Theorem X13_clean_frame_is_silent (env : Env) (cfg : Config) (fi : Z)
    (f : Frame) (loc : Locals) (w : World) (dets : list Detection) :
  detect_outcome f = Some dets ->
  res_violations (Routes.analyze_frame_for_ppe_status dets) = 0 ->
  let run := loop_body env cfg fi f loc w in
  on Alert run.2 = []
  /\ sms_bodies run.2 = []
  /\ alert_manager run.1.2 = alert_manager w.
Proof.
  intros Hd Hz. cbv zeta.
  destruct (loop_body_quiet env cfg fi f loc w dets Hd Hz) as (Hon & Ham).
  repeat split; try assumption.
  destruct (sms_bodies (loop_body env cfg fi f loc w).2) as [|b bs] eqn:Hb;
    [reflexivity|].
  assert (Hin : In b (sms_bodies (loop_body env cfg fi f loc w).2))
    by (rewrite Hb; now left).
  unfold sms_bodies in Hin. apply in_flat_map in Hin.
  destruct Hin as (e & He & Hbe).
  destruct e as [?|? ?|? ? ? ? ? ?|? ? ? ? ?|? ? ?|body ok|? ?| |?|?];
    cbn in Hbe; try contradiction.
  assert (Hina : In (SmsSent body ok)
                   (on Alert (loop_body env cfg fi f loc w).2))
    by (apply filter_In; split; [assumption | reflexivity]).
  rewrite Hon in Hina. destruct Hina.
Qed.

Lemma X13_clean_frame_is_silent_witness :
  let run := loop_body steady_env app_config 0%Z (frame_of ["person"; "helmet"])
               {| last_frame_time := 0; last_log_time := 0;
                  snapshot_path := None |}
               (initial_world app_config) in
  on Alert run.2 = []
  /\ sms_bodies run.2 = []
  /\ alert_manager run.1.2 = alert_manager (initial_world app_config).
Proof.
  apply (X13_clean_frame_is_silent steady_env app_config 0%Z
           (frame_of ["person"; "helmet"])
           {| last_frame_time := 0; last_log_time := 0; snapshot_path := None |}
           (initial_world app_config) (map det ["person"; "helmet"])).
  - reflexivity.
  - reflexivity.
Defined.

(** ** The SMS notifier *)

(** X14. A notifier set up by its constructor contacts Twilio exactly when
    all four settings are non-empty and the client could be built; it then
    makes one call, to the configured recipient from the configured number
    with the text unchanged, and answers true exactly when the call created
    a message. In every other case it answers false without a call, and it
    never raises. *)
Theorem X14_send_sms_after_init (settings : Notifier.TwilioSettings)
    (client_constructs : bool) (message_body : string)
    (create : Notifier.ApiCall -> Notifier.CreateOutcome) :
  let self := Notifier.init settings client_constructs in
  let call :=
    {| Notifier.to := Notifier.ALERT_RECIPIENT_PHONE_NUMBER settings;
       Notifier.from_ := Notifier.TWILIO_PHONE_NUMBER settings;
       Notifier.body := message_body |} in
  let configured :=
    Notifier.truthy (Notifier.TWILIO_ACCOUNT_SID settings)
    && Notifier.truthy (Notifier.TWILIO_AUTH_TOKEN settings)
    && Notifier.truthy (Notifier.TWILIO_PHONE_NUMBER settings)
    && Notifier.truthy (Notifier.ALERT_RECIPIENT_PHONE_NUMBER settings) in
  Notifier.send_sms self message_body create
  = if configured && client_constructs
    then (match create call with Notifier.Created _ => true | _ => false end,
          [call])
    else (false, []).
Proof.
  cbv zeta. unfold Notifier.send_sms, Notifier.init. cbn [forallb].
  cbn [Notifier.client Notifier.recipient_phone_number
       Notifier.twilio_phone_number].
  destruct (Notifier.truthy (Notifier.TWILIO_ACCOUNT_SID settings));
    destruct (Notifier.truthy (Notifier.TWILIO_AUTH_TOKEN settings));
    destruct (Notifier.truthy (Notifier.TWILIO_PHONE_NUMBER settings));
    destruct (Notifier.truthy (Notifier.ALERT_RECIPIENT_PHONE_NUMBER settings));
    destruct client_constructs; cbn; try reflexivity.
  destruct (create _); reflexivity.
Qed.

(** ** The cached video stream *)

Lemma open_handles_app (a b : list StreamCache.StreamEvent) :
  StreamCache.open_handles (a ++ b)
  = (StreamCache.open_handles a + StreamCache.open_handles b)%Z.
Proof.
  induction a as [|e a IH]; [reflexivity|].
  destruct e as [s|s [|]]; cbn [app StreamCache.open_handles]; rewrite IH; lia.
Qed.

Lemma get_video_stream_step (source : StreamCache.Source) (opens : bool)
    (g : StreamCache.Globals) :
  cache_consistent g ->
  let r := StreamCache.get_video_stream source opens g in
  cache_consistent r.1.2
  /\ r.1.1 = StreamCache.current_video_stream r.1.2
  /\ (held_handles g + StreamCache.open_handles r.2 = held_handles r.1.2)%Z
  /\ (forall n,
        0 <= held_handles g + StreamCache.open_handles (take n r.2) <= 1)%Z.
Proof.
  unfold cache_consistent, held_handles. intros Hc. cbv zeta.
  unfold StreamCache.get_video_stream. rewrite Hc.
  destruct (StreamCache.current_video_stream g) as [old|] eqn:Hcur.
  - destruct (StreamCache.source_eq_dec old source) as [->|Hne].
    + rewrite bool_decide_eq_false_2 by discriminate.
      rewrite bool_decide_eq_false_2 by (intros H; now apply H).
      cbn. rewrite Hcur. repeat split; try assumption; try lia.
      all: destruct n; cbn; lia.
    + rewrite bool_decide_eq_false_2 by discriminate.
      rewrite bool_decide_eq_true_2 by congruence.
      destruct opens; cbn; repeat split; try lia.
      all: destruct n as [|[|[|n]]]; cbn; lia.
  - rewrite bool_decide_eq_true_2 by reflexivity.
    destruct opens; cbn; repeat split; try lia.
    all: destruct n as [|[|n]]; cbn; lia.
Qed.

Lemma requests_invariant (reqs : list (StreamCache.Source * bool)) :
  forall g : StreamCache.Globals,
    cache_consistent g ->
    let r := StreamCache.requests reqs g in
    cache_consistent r.1
    /\ (held_handles g + StreamCache.open_handles r.2 = held_handles r.1)%Z
    /\ (forall n,
          0 <= held_handles g + StreamCache.open_handles (take n r.2) <= 1)%Z.
Proof.
  induction reqs as [|[source opens] rest IH]; intros g Hc; cbv zeta.
  - cbn. unfold held_handles. repeat split; try assumption; try lia.
    all: rewrite take_nil; cbn; destruct (StreamCache.current_video_stream g); lia.
  - cbn [StreamCache.requests]. cbv zeta. cbn [fst snd].
    destruct (get_video_stream_step source opens g Hc) as (Hc1 & _ & Hh1 & Hp1).
    cbv zeta in *.
    destruct (IH _ Hc1) as (Hc2 & Hh2 & Hp2). cbv zeta in *.
    repeat split; try assumption.
    + rewrite open_handles_app. lia.
    + rewrite take_app, open_handles_app.
      destruct (decide (n <= length (StreamCache.get_video_stream source opens g).2)%nat)
        as [Hle|Hgt].
      * replace (n - length (StreamCache.get_video_stream source opens g).2)%nat
          with 0%nat by lia.
        rewrite take_0. cbn [StreamCache.open_handles]. specialize (Hp1 n). lia.
      * rewrite take_ge by lia.
        specialize (Hp2 (n - length (StreamCache.get_video_stream source opens g).2)%nat).
        lia.
    + rewrite take_app, open_handles_app.
      destruct (decide (n <= length (StreamCache.get_video_stream source opens g).2)%nat)
        as [Hle|Hgt].
      * replace (n - length (StreamCache.get_video_stream source opens g).2)%nat
          with 0%nat by lia.
        rewrite take_0. cbn [StreamCache.open_handles]. specialize (Hp1 n). lia.
      * rewrite take_ge by lia.
        specialize (Hp2 (n - length (StreamCache.get_video_stream source opens g).2)%nat).
        lia.
Qed.

Lemma requests_app (a b : list (StreamCache.Source * bool))
    (g : StreamCache.Globals) :
  StreamCache.requests (a ++ b) g
  = let r := StreamCache.requests a g in
    let r' := StreamCache.requests b r.1 in
    (r'.1, r.2 ++ r'.2).
Proof.
  revert g. induction a as [|[source opens] a IH]; intros g; cbv zeta.
  - cbn. now destruct (StreamCache.requests b g).
  - cbn [app StreamCache.requests]. cbv zeta. rewrite IH. cbv zeta.
    cbn [fst snd]. now rewrite app_assoc.
Qed.

(** X15. Whatever sources are requested in whatever order, and whichever
    of them fail to open, the stream cache keeps its two globals in step,
    holds one opened stream exactly when a stream is cached, and at no point
    of the trace has more than one stream opened and not released. Once a
    request for a source succeeded, asking for that source again returns the
    cached stream and neither opens nor releases anything. *)
Theorem X15_one_stream_at_a_time (reqs : list (StreamCache.Source * bool))
    (source : StreamCache.Source) (opens : bool) :
  let r := StreamCache.requests reqs StreamCache.no_stream in
  let g := (StreamCache.requests (reqs ++ [(source, true)])
              StreamCache.no_stream).1 in
  cache_consistent r.1
  /\ StreamCache.open_handles r.2 = held_handles r.1
  /\ (forall n, 0 <= StreamCache.open_handles (take n r.2) <= 1)%Z
  /\ StreamCache.get_video_stream source opens g = (Some source, g, []).
Proof.
  cbv zeta.
  destruct (requests_invariant reqs StreamCache.no_stream eq_refl)
    as (Hc & Hh & Hp).
  cbv zeta in Hc, Hh, Hp. change (held_handles StreamCache.no_stream) with 0%Z in *.
  repeat split; try assumption; try lia.
  - apply (Hp n).
  - apply (Hp n).
  - rewrite requests_app. cbv zeta. cbn [fst snd StreamCache.requests].
    set (g := (StreamCache.requests reqs StreamCache.no_stream).1) in *.
    assert (StreamCache.get_video_stream source true g
            = (Some source,
               {| StreamCache.current_video_stream := Some source;
                  StreamCache.stream_source := Some source |},
               (StreamCache.get_video_stream source true g).2)
            \/ StreamCache.get_video_stream source true g = (Some source, g, [])
               /\ StreamCache.current_video_stream g = Some source
               /\ StreamCache.stream_source g = Some source) as Hcase.
    { unfold StreamCache.get_video_stream.
      destruct (bool_decide (StreamCache.current_video_stream g = None)
                || bool_decide (StreamCache.stream_source g <> Some source))
        eqn:Hb; [now left|right].
      apply orb_false_iff in Hb as [Hb1 Hb2].
      apply bool_decide_eq_false in Hb1, Hb2.
      assert (StreamCache.stream_source g = Some source) as Hs.
      { destruct (StreamCache.stream_source g) as [s|] eqn:E.
        - destruct (StreamCache.source_eq_dec s source) as [->|Hne];
            [reflexivity|].
          exfalso. apply Hb2. congruence.
        - exfalso. apply Hb2. discriminate. }
      unfold cache_consistent in Hc. rewrite Hs in Hc.
      rewrite <- Hc. auto. }
    destruct Hcase as [->|(-> & Hcur & Hsrc)]; cbn [fst snd].
    + unfold StreamCache.get_video_stream.
      cbn [StreamCache.current_video_stream StreamCache.stream_source].
      rewrite bool_decide_eq_false_2 by discriminate.
      rewrite bool_decide_eq_false_2 by (intros H; now apply H).
      reflexivity.
    + unfold StreamCache.get_video_stream. rewrite Hcur, Hsrc.
      rewrite bool_decide_eq_false_2 by discriminate.
      rewrite bool_decide_eq_false_2 by (intros H; now apply H).
      reflexivity.
Qed.

(** ** The detector's output *)

Lemma detect_loop_some (class_names : list string) (threshold : Q)
    (results : list PPEDetector.RawBox) :
  forall acc ds : list Detection,
    PPEDetector.detect_loop class_names threshold results acc = Some ds ->
    exists new,
      ds = acc ++ new
      /\ map (fun d => (box d, confidence d, class_id d)) new
         = map (fun b => (PPEDetector.xyxy b, PPEDetector.conf b,
                          PPEDetector.cls b)) (kept threshold results)
      /\ Forall (fun d => class_names !! class_id d = Some (class_name d)) new
      /\ Forall (fun d => (threshold <= confidence d)%Q) new
      /\ Forall (fun b => ~ unnamed_class class_names threshold b) results.
Proof.
  induction results as [|b rest IH]; intros acc ds H.
  - cbn in H. injection H as <-. exists []. rewrite app_nil_r.
    repeat split; constructor.
  - cbn [PPEDetector.detect_loop] in H. unfold kept. cbn [List.filter].
    destruct (PPEDetector.below threshold b) eqn:Hb; cbn [negb].
    + destruct (IH _ _ H) as (new & -> & Hm & Hn & Hq & Hr).
      exists new. repeat split; try assumption.
      constructor; [|assumption]. intros [Hk _]. congruence.
    + destruct (class_names !! PPEDetector.cls b) as [name|] eqn:Hname;
        [|discriminate].
      destruct (IH _ _ H) as (new & -> & Hm & Hn & Hq & Hr).
      eexists (_ :: new). rewrite <- app_assoc. cbn [app].
      split; [reflexivity|]. cbn [map box confidence class_id].
      repeat split.
      * now rewrite Hm.
      * constructor; [exact Hname|assumption].
      * constructor; [|assumption]. cbn [confidence].
        unfold PPEDetector.below in Hb. apply negb_false_iff in Hb.
        now apply Qle_bool_iff.
      * constructor; [|assumption]. intros [_ Hlen].
        apply lookup_lt_Some in Hname. lia.
Qed.

Lemma detect_loop_none (class_names : list string) (threshold : Q)
    (results : list PPEDetector.RawBox) :
  forall acc : list Detection,
    PPEDetector.detect_loop class_names threshold results acc = None ->
    Exists (unnamed_class class_names threshold) results.
Proof.
  induction results as [|b rest IH]; intros acc H; [discriminate|].
  cbn [PPEDetector.detect_loop] in H.
  destruct (PPEDetector.below threshold b) eqn:Hb.
  - apply Exists_cons_tl. exact (IH _ H).
  - destruct (class_names !! PPEDetector.cls b) as [name|] eqn:Hname.
    + apply Exists_cons_tl. exact (IH _ H).
    + apply Exists_cons_hd. split; [assumption|].
      now apply lookup_ge_None.
Qed.

Lemma detect_loop_raises (class_names : list string) (threshold : Q)
    (results : list PPEDetector.RawBox) :
  Exists (unnamed_class class_names threshold) results ->
  forall acc : list Detection,
    PPEDetector.detect_loop class_names threshold results acc = None.
Proof.
  intros H acc.
  destruct (PPEDetector.detect_loop class_names threshold results acc)
    as [ds|] eqn:Hd; [|reflexivity].
  destruct (detect_loop_some _ _ _ _ _ Hd) as (_ & _ & _ & _ & _ & Hr).
  apply Exists_exists in H as (b & Hin & Hb).
  rewrite Forall_forall in Hr. now destruct (Hr b Hin).
Qed.

(** X16. What [detect] returns is read off the model's rows at or above
    the confidence threshold, in their order: box, confidence and class id
    are copied, the class name is the entry of the class-name list at the
    class id, and rows below the threshold are dropped without their class
    id being looked up. The call raises exactly when some row at or above
    the threshold has a class id outside the class-name list; then no
    detection at all is returned. *)
Theorem X16_detect_filters_and_names (class_names : list string)
    (threshold : Q) (results : list PPEDetector.RawBox) :
  match PPEDetector.detect class_names threshold results with
  | Some ds =>
      map (fun d => (box d, confidence d, class_id d)) ds
      = map (fun b => (PPEDetector.xyxy b, PPEDetector.conf b,
                       PPEDetector.cls b)) (kept threshold results)
      /\ Forall (fun d => class_names !! class_id d = Some (class_name d)) ds
      /\ Forall (fun d => (threshold <= confidence d)%Q) ds
      /\ Forall (fun b => ~ unnamed_class class_names threshold b) results
  | None => Exists (unnamed_class class_names threshold) results
  end.
Proof.
  unfold PPEDetector.detect.
  destruct (PPEDetector.detect_loop class_names threshold results [])
    as [ds|] eqn:Hd.
  - destruct (detect_loop_some _ _ _ _ _ Hd) as (new & -> & H).
    exact H.
  - exact (detect_loop_none _ _ _ _ Hd).
Qed.

(** X17. One row at or above the threshold whose class id has no name
    ends the video feed at the frame it belongs to, when the loop gets to
    that frame: the frame is not analysed, nothing is stored, sent or
    streamed for it, the error is logged, and the frames after it are never
    read. *)
Theorem X17_unnamed_class_ends_stream (env : Env) (cfg : Config) (fi : Z)
    (class_names : list string) (threshold : Q)
    (results : list PPEDetector.RawBox)
    (pre post : list Frame) (w : World) :
  Exists (unnamed_class class_names threshold) results ->
  Forall (fun g => detect_outcome g <> None) pre ->
  let f := frame_from class_names threshold results in
  let run := generate_frames env cfg (Some (fi, pre ++ f :: post)) true w in
  let before := generate_frames env cfg (Some (fi, pre)) true w in
  ending before = EndOfStream ->
  logs run = logs before ++ [[ErrorLogged "Error during frame generation"]]
  /\ final run = final before
  /\ ending run = DetectorError.
Proof.
  intros Hbad Hpre. cbv zeta. rewrite !generate_frames_unfold. intros Hend.
  assert (Hf : detect_outcome (frame_from class_names threshold results)
               = None).
  { cbn [frame_from detect_outcome]. unfold PPEDetector.detect.
    now apply detect_loop_raises. }
  destruct (frame_loop_stops_at_raise env cfg fi
              (frame_from class_names threshold results) post pre Hf
              {| last_frame_time := clock env (clock_reads w);
                 last_log_time := clock env (S (clock_reads w));
                 snapshot_path := None |} (tick (tick w)) Hend)
    as (Hl & Hfin & He & _).
  auto.
Qed.

Lemma X17_unnamed_class_ends_stream_witness :
  let results :=
    [{| PPEDetector.xyxy := [1; 2; 3; 4]%Z; PPEDetector.conf := 1 # 10;
        PPEDetector.cls := 7 |};
     {| PPEDetector.xyxy := [5; 6; 7; 8]%Z; PPEDetector.conf := 9 # 10;
        PPEDetector.cls := 2 |}] in
  let f := frame_from ["person"; "helmet"] (1 # 2) results in
  let run :=
    generate_frames route_env app_config
      (Some (0%Z, [frame_of ["no-helmet"]] ++ f :: [frame_of []]))
      true (initial_world app_config) in
  let before :=
    generate_frames route_env app_config
      (Some (0%Z, [frame_of ["no-helmet"]])) true (initial_world app_config) in
  logs run = logs before ++ [[ErrorLogged "Error during frame generation"]]
  /\ final run = final before
  /\ ending run = DetectorError.
Proof.
  apply (X17_unnamed_class_ends_stream route_env app_config 0%Z
           ["person"; "helmet"] (1 # 2)).
  - apply Exists_cons_tl. apply Exists_cons_hd. split.
    + reflexivity.
    + cbn. lia.
  - repeat constructor. discriminate.
  - vm_compute. reflexivity.
Defined.
